(** * financial-emails-parser: the batch pipeline, verified over a shallow embedding

    The development follows the Python sources under [src/services]:

    - [email_classifier.py]     -> [Module Classifier]
    - [intelligent_extractor.py]-> [Module Extractor]
    - [analytics_service.py]    -> [Module Analytics]
    - [async_processor.py]      -> [Module Processor]

    Python values that are built from JSON or handed around as dicts are
    embedded in [pyval]; calls that may raise return a [result]; the job
    dictionary [self.jobs] is a [gmap string Job] threaded through a small
    state-and-exception monad.  Numbers are exact rationals ([Q]): the
    arithmetic of the sources is on Python floats, whose rounding is not
    represented here.  A Python string is a [string], one [ascii] for each
    character.

    What the sources borrow from the Python runtime (regular expressions,
    [str.lower], [float(...)]) is an interface, [PyRuntime]; the generative
    model behind the extractor is an interface too, [AIModel]. *)

From Stdlib Require Import QArith Qround Lqa SpecFloat.
From stdpp Require Import base list sorting strings gmap pretty.

Set Default Proof Using "Type".
#[local] Set Warnings "-register-all".

(** ** Python values, exceptions and results *)

Inductive pyval : Type :=
| VNone
| VBool (b : bool)
| VNum (q : Q)
| VStr (s : string)
| VList (l : list pyval)
| VDict (d : list (string * pyval)).

(** [bool(v)]: the truth value Python gives to [v] in a condition. *)
Definition truthy (v : pyval) : bool :=
  match v with
  | VNone => false
  | VBool b => b
  | VNum q => negb (Qeq_bool q 0)
  | VStr s => negb (String.eqb s "")
  | VList l => match l with [] => false | _ => true end
  | VDict d => match d with [] => false | _ => true end
  end.

(** An exception, with its class name and the text [str(e)] gives. *)
Record exn := Exn { exn_class : string; exn_str : string }.

Inductive result (A : Type) : Type :=
| Ok (a : A)
| Raise (e : exn).
Arguments Ok {A} a.
Arguments Raise {A} e.

Definition rbind {A B} (r : result A) (k : A → result B) : result B :=
  match r with
  | Ok a => k a
  | Raise e => Raise e
  end.

(** With these, [x ← m; k] reads as a call that may raise followed by the
    rest of the block. *)
#[global] Instance result_ret : MRet result := @Ok.
#[global] Instance result_bind : MBind result := λ A B k r, rbind r k.

Definition is_ok {A} (r : result A) : bool :=
  match r with Ok _ => true | Raise _ => false end.

(** Dict access on association lists that keep insertion order. *)
Fixpoint assoc_get (d : list (string * pyval)) (k : string) : option pyval :=
  match d with
  | [] => None
  | (k', v) :: d' => if String.eqb k' k then Some v else assoc_get d' k
  end.

Fixpoint assoc_set (d : list (string * pyval)) (k : string) (v : pyval)
  : list (string * pyval) :=
  match d with
  | [] => [(k, v)]
  | (k', v') :: d' =>
      if String.eqb k' k then (k, v) :: d' else (k', v') :: assoc_set d' k v
  end.

Definition TypeError (msg : string) : exn := Exn "TypeError" msg.
Definition AttributeError (msg : string) : exn := Exn "AttributeError" msg.
Definition KeyError (msg : string) : exn := Exn "KeyError" msg.
Definition ValueError (msg : string) : exn := Exn "ValueError" msg.

(** [x.get(k)] and [x.get(k, default)]; only dicts have [get]. *)
Definition py_get (x : pyval) (k : string) (default : pyval) : result pyval :=
  match x with
  | VDict d => Ok (match assoc_get d k with Some v => v | None => default end)
  | _ => Raise (AttributeError "object has no attribute 'get'")
  end.

(** [x[k] = v] for a string key [k]: item assignment works on dicts only. *)
Definition py_setitem (x : pyval) (k : string) (v : pyval) : result pyval :=
  match x with
  | VDict d => Ok (VDict (assoc_set d k v))
  | VList _ => Raise (TypeError "list indices must be integers or slices, not str")
  | VNone => Raise (TypeError "'NoneType' object does not support item assignment")
  | VStr _ => Raise (TypeError "'str' object does not support item assignment")
  | VBool _ => Raise (TypeError "'bool' object does not support item assignment")
  | VNum _ => Raise (TypeError "'float' object does not support item assignment")
  end.

(** ** The Python runtime the sources call into *)

Class PyRuntime := {
  (** [s.lower()] *)
  str_lower : string → string;
  (** [re.search(pattern, s, re.IGNORECASE)] found a match *)
  re_search : string → string → bool;
  (** [re.search(pattern, s).group(1)], [None] when nothing matches *)
  re_search_group1 : string → string → option string;
  (** [re.findall(pattern, s, flags)] for a pattern with at most one group;
      the boolean is [re.IGNORECASE] *)
  re_findall : bool → string → string → list string;
  (** [float(s)]; [None] stands for [ValueError] *)
  py_float : string → option Q;
}.

(** ** Strings *)

(** A Python [str] is a sequence of characters; a [string] here holds its
    UTF-8 encoding, one [ascii] per byte.  A character starts at every byte
    that is not a continuation byte (bits 10xxxxxx) and includes the
    continuation bytes that follow it, so lengths, slices and indices count
    characters, as Python does, and not bytes. *)
Definition is_continuation (c : Ascii.ascii) : bool :=
  match c with
  | Ascii.Ascii _ _ _ _ _ _ b6 b7 => b7 && negb b6
  end.

(** The encoding of a [str] never starts inside a character. *)
Definition starts_on_character (s : string) : Prop :=
  match s with
  | EmptyString => True
  | String c _ => is_continuation c = false
  end.

(** [len(s)] *)
Fixpoint str_len (s : string) : nat :=
  match s with
  | EmptyString => 0
  | String c s' => if is_continuation c then str_len s' else S (str_len s')
  end.

(** [s[:n]]: the first [n] characters. *)
Fixpoint str_take (n : nat) (s : string) : string :=
  match s with
  | EmptyString => EmptyString
  | String c s' =>
      if is_continuation c then String c (str_take n s')
      else
        match n with
        | 0 => EmptyString
        | S n' => String c (str_take n' s')
        end
  end.

(** The rest of the character whose first byte was just passed. *)
Fixpoint skip_continuation (s : string) : string :=
  match s with
  | EmptyString => EmptyString
  | String c s' => if is_continuation c then skip_continuation s' else s
  end.

(** [s[n:]] *)
Fixpoint str_drop (n : nat) (s : string) : string :=
  match n with
  | 0 => s
  | S n' =>
      match s with
      | EmptyString => EmptyString
      | String _ s' => str_drop n' (skip_continuation s')
      end
  end.

(** [s[i]] for [0 <= i]: the character at index [i], [None] past the end. *)
Definition str_get (i : nat) (s : string) : option string :=
  match str_take 1 (str_drop i s) with
  | EmptyString => None
  | c => Some c
  end.

(** [needle in hay] and [s.replace(c, '')] for an ASCII [c]; both read the
    same on bytes and on characters. *)

Fixpoint str_prefix (p s : string) : bool :=
  match p, s with
  | EmptyString, _ => true
  | String a p', String b s' => Ascii.eqb a b && str_prefix p' s'
  | String _ _, EmptyString => false
  end.

Fixpoint str_in (needle hay : string) : bool :=
  str_prefix needle hay ||
  match hay with
  | EmptyString => false
  | String _ hay' => str_in needle hay'
  end.

Definition comma : Ascii.ascii := Ascii.ascii_of_nat 44.

Fixpoint str_remove (c : Ascii.ascii) (s : string) : string :=
  match s with
  | EmptyString => EmptyString
  | String a s' => if Ascii.eqb a c then str_remove c s' else String a (str_remove c s')
  end.

(** An email as [EmailParser.parse_email] builds it: five string fields. *)
Record Email := {
  msg_id : string;
  internalDate : string;
  from : string;
  subject : string;
  bodyText : string;
}.

#[global] Instance Email_eq_dec : EqDecision Email.
Proof. solve_decision. Defined.

(** ** Slicing a list into consecutive groups

    [for i in range(0, len(l), n): l[i:i+n]] for a positive step [n]: the
    groups in order, all of size [n] but possibly the last.  The recursion
    is on a fuel that the length of the list always covers. *)
Fixpoint chunks_upto {A} (fuel n : nat) (l : list A) : list (list A) :=
  match fuel, l with
  | S fuel', _ :: _ => take n l :: chunks_upto fuel' n (drop n l)
  | _, _ => []
  end.

Definition chunks {A} (n : nat) (l : list A) : list (list A) :=
  chunks_upto (length l) n l.

Lemma chunks_cons {A} (n : nat) (a : A) (l : list A) :
  chunks n (a :: l)
    = take n (a :: l) :: chunks_upto (length l) n (drop n (a :: l)).
Proof. reflexivity. Qed.

Lemma concat_chunks_upto {A} (fuel n : nat) (l : list A) :
  0 < n → length l ≤ fuel → concat (chunks_upto fuel n l) = l.
Proof.
  intros Hn. revert l. induction fuel as [|fuel IH]; intros l Hl.
  - destruct l; [done|simpl in Hl; lia].
  - destruct l as [|a l]; [done|].
    change (take n (a :: l) ++ concat (chunks_upto fuel n (drop n (a :: l))) = a :: l).
    rewrite IH; [apply take_drop|].
    rewrite length_drop. simpl in *. lia.
Qed.

Lemma concat_chunks {A} (n : nat) (l : list A) :
  0 < n → concat (chunks n l) = l.
Proof. intros Hn. by apply concat_chunks_upto. Qed.

(** Python's [len(x)] and [x[i]] for an integer [i] within [len(x)]. *)
Definition py_len (x : pyval) : result nat :=
  match x with
  | VList l => Ok (length l)
  | VDict d => Ok (length d)
  | VStr s => Ok (str_len s)
  | _ => Raise (TypeError "object has no len()")
  end.

Definition py_index (x : pyval) (i : nat) : result pyval :=
  match x with
  | VList l =>
      match l !! i with
      | Some v => Ok v
      | None => Raise (Exn "IndexError" "list index out of range")
      end
  | VStr s =>
      match str_get i s with
      | Some c => Ok (VStr c)
      | None => Raise (Exn "IndexError" "string index out of range")
      end
  | VDict _ => Raise (KeyError (pretty i))
  | _ => Raise (TypeError "object is not subscriptable")
  end.

(** [try: body except Exception: handler] on results. *)
Definition try_except {A} (body : result A) (handler : exn → result A) : result A :=
  match body with
  | Ok a => Ok a
  | Raise e => handler e
  end.

(** A loop that appends one value per element and stops at the first raise. *)
Fixpoint for_each {A B} (f : A → result B) (l : list A) : result (list B) :=
  match l with
  | [] => Ok []
  | a :: l' =>
      rbind (f a) (λ b, rbind (for_each f l') (λ bs, Ok (b :: bs)))
  end.

Lemma for_each_ok {A B} (f : A → result B) (g : A → B) (l : list A) :
  (∀ a, a ∈ l → f a = Ok (g a)) → for_each f l = Ok (map g l).
Proof.
  induction l as [|a l IH]; intros Hf; [done|]. simpl.
  rewrite Hf by left. simpl. rewrite IH; [done|].
  intros b Hb. apply Hf. by right.
Qed.

(** ** Numbers *)

(** Rounding to the nearest integer, ties to the even one, as [round] does. *)
Definition round_half_even (x : Q) : Z :=
  let f := Qfloor x in
  match (x - inject_Z f ?= 1 # 2)%Q with
  | Lt => f
  | Gt => (f + 1)%Z
  | Eq => if Z.even f then f else (f + 1)%Z
  end.

(** [round(x, ndigits)] *)
Definition py_round (x : Q) (ndigits : nat) : Q :=
  let scale := (10 ^ Z.of_nat ndigits)%Z in
  Qred (inject_Z (round_half_even (x * inject_Z scale)) / inject_Z scale).

Lemma round_half_even_range (x : Q) :
  (Qfloor x <= round_half_even x <= Qfloor x + 1)%Z.
Proof.
  unfold round_half_even.
  destruct (x - inject_Z (Qfloor x) ?= 1 # 2)%Q; [destruct (Z.even _)|..]; lia.
Qed.

Lemma round_half_even_mono (x y : Q) :
  (x <= y)%Q → (round_half_even x <= round_half_even y)%Z.
Proof.
  intros Hxy.
  pose proof (Qfloor_resp_le x y Hxy) as Hf.
  pose proof (round_half_even_range x) as Hx.
  pose proof (round_half_even_range y) as Hy.
  destruct (decide (Qfloor x = Qfloor y)) as [E|NE]; [|lia].
  clear Hx Hy Hf. unfold round_half_even. rewrite <- E.
  destruct (Qcompare_spec (x - inject_Z (Qfloor x)) (1 # 2)) as [Cx|Cx|Cx];
    destruct (Qcompare_spec (y - inject_Z (Qfloor x)) (1 # 2)) as [Cy|Cy|Cy];
    try (destruct (Z.even (Qfloor x))); try lia; exfalso; lra.
Qed.

Lemma py_round_mono (x y : Q) (ndigits : nat) :
  (x <= y)%Q → (py_round x ndigits <= py_round y ndigits)%Q.
Proof.
  intros Hxy. unfold py_round. rewrite !Qred_correct.
  assert (0 < inject_Z (10 ^ Z.of_nat ndigits))%Q as Hs.
  { change 0%Q with (inject_Z 0). rewrite <- Zlt_Qlt. apply Z.pow_pos_nonneg; lia. }
  apply Qmult_le_compat_r; [|apply Qinv_le_0_compat, Qlt_le_weak, Hs].
  rewrite <- Zle_Qle. apply round_half_even_mono.
  apply Qmult_le_compat_r; [done|by apply Qlt_le_weak].
Qed.

(** [a / b] on numbers; a zero divisor raises. *)
Definition py_div (a b : Q) : result Q :=
  if Qeq_bool b 0 then Raise (Exn "ZeroDivisionError" "division by zero")
  else Ok (a / b)%Q.

Definition Qnat (n : nat) : Q := inject_Z (Z.of_nat n).

(** A value used as a number in arithmetic: ints, floats and bools are;
    anything else makes the operator raise [TypeError]. *)
Definition as_number (v : pyval) : result Q :=
  match v with
  | VNum q => Ok q
  | VBool b => Ok (if b then 1 else 0)%Q
  | _ => Raise (TypeError "unsupported operand type(s)")
  end.

Definition py_eq_str (v : pyval) (s : string) : bool :=
  match v with VStr s' => String.eqb s' s | _ => false end.

Definition VInt (n : nat) : pyval := VNum (Qnat n).

(** ** Floats *)

(** Python's floats are IEEE 754 binary64 numbers.  A number is held by its
    exact value, a rational, and [fl x] is the float nearest to the real
    number [x], ties to even.  That is the value of a float literal and of
    [float(n)], and, applied to the exact result, the value of a float
    operation, which IEEE 754 rounds correctly.  An int is read as the float
    of the same value, as Python does when an int meets a float, which is
    exact below 2^53.  The model has neither [inf] nor [nan]: where Python's
    result is one of them the model says nothing. *)
Class PyFloat := {
  fl : Q → Q;
}.

Section FloatOperations.
Context `{PyFloat}.

(** [x + y], [x * y] and [x / y] (for [y] not zero) on floats. *)
Definition fl_add (x y : Q) : Q := fl (x + y).
Definition fl_mul (x y : Q) : Q := fl (x * y).
Definition fl_div (x y : Q) : Q := fl (x / y).

(** [round(x, ndigits)] on a float: the decimal with [ndigits] digits that
    is nearest to the exact value of [x], ties to even, and then the float
    nearest to that decimal. *)
Definition fl_round (x : Q) (ndigits : nat) : Q := fl (py_round x ndigits).

End FloatOperations.

(** Binary64 itself, through the Standard Library's specification of
    IEEE 754 arithmetic: the correctly rounded quotient of numerator and
    denominator. *)
Definition Qpow2 (e : Z) : Q :=
  match e with
  | Z0 => 1
  | Zpos p => inject_Z (2 ^ Zpos p)
  | Zneg p => 1 # (2 ^ p)
  end.

Definition SF2Q (x : spec_float) : option Q :=
  match x with
  | S754_zero _ => Some 0%Q
  | S754_finite s m e =>
      Some (Qred ((if s then -1 else 1) * inject_Z (Zpos m) * Qpow2 e))
  | S754_infinity _ | S754_nan => None
  end.

Definition nearest_binary64 (x : Q) : spec_float :=
  match Qnum x with
  | Z0 => S754_zero false
  | Zpos n =>
      SFdiv 53 1024 (S754_finite false n 0) (S754_finite false (Qden x) 0)
  | Zneg n =>
      SFdiv 53 1024 (S754_finite true n 0) (S754_finite false (Qden x) 0)
  end.

(** Beyond the range of binary64, where Python has [inf], [x] is left as it
    is. *)
Definition binary64 : PyFloat := {|
  fl x := match SF2Q (nearest_binary64 x) with Some y => y | None => x end;
|}.

(** [[x for x in l if cond(x)]] where the condition may raise. *)
Fixpoint py_filter (cond : pyval → result bool) (l : list pyval) : result (list pyval) :=
  match l with
  | [] => Ok []
  | x :: l' =>
      keep ← cond x;
      rest ← py_filter cond l';
      Ok (if keep : bool then x :: rest else rest)
  end.

(** [[item[key] for item in data if item.get(key)]] *)
Definition truthy_entries (key : string) (data : list pyval) : result (list pyval) :=
  kept ← py_filter (λ item, v ← py_get item key VNone; Ok (truthy v)) data;
  for_each (λ item, py_get item key VNone) kept.

(** * email_classifier.py *)

Module Classifier.

Inductive EmailRelevance :=
| DEFINITELY_FINANCIAL
| MAYBE_FINANCIAL
| PROBABLY_NOT_FINANCIAL.

#[global] Instance EmailRelevance_eq_dec : EqDecision EmailRelevance.
Proof. solve_decision. Defined.

Definition definitely_financial_patterns : list string := [
  "\b(credit card|card|transaction|charged|payment|purchase)\b.*[₹$€]\s*\d+";
  "\b(card ending|card.*\d{4}|xxxx\d{4}|\*{4}\d{4})\b";
  "\b(transaction.*successful|payment.*completed|purchase.*confirmed)\b";
  "\b(statement|monthly statement|billing statement|card statement)\b";
  "\b(swiggy|zomato|amazon|flipkart|uber|ola|paytm|phonepe|gpay)\b.*[₹$€]\s*\d+";
  "\b(payment.*received|bill.*paid|auto.*debit|emi.*deducted)\b";
  "\b(available.*limit|credit.*limit|outstanding.*amount|minimum.*due)\b"
].

Definition maybe_financial_patterns : list string := [
  "\b(hdfc.*card|icici.*card|sbi.*card|axis.*card|kotak.*card|yes.*bank.*card|citibank.*card)\b";
  "\b(visa|mastercard|rupay|amex|american express)\b";
  "\b(card.*blocked|card.*unblocked|card.*activated|card.*deactivated)\b";
  "\b(reward.*points|cashback|reward.*earned|points.*credited)\b";
  "\b(credit.*limit.*increased|limit.*enhanced|credit.*line)\b";
  "\b(emi|equated monthly installment|convert.*emi|emi.*conversion)\b";
  "\b(card.*used|international.*transaction|online.*transaction|pos.*transaction)\b";
  "\b(otp.*card|cvv|card.*verification|secure.*transaction)\b";
  "\b(due.*date|payment.*due|bill.*generated|statement.*ready)\b";
  "\b(auto.*pay|autopay|scheduled.*payment|standing.*instruction)\b"
].

Definition exclude_patterns : list string := [
  "\b(newsletter|unsubscribe|promotional|marketing|advertisement)\b";
  "\b(sale|discount|offer|deal|coupon|cashback offer|mega sale)\b";
  "\b(limited time|hurry|don\'t miss|exclusive offer|special price)\b";
  "\b(notification|reminder|update|news|blog|article)\b";
  "\b(facebook|twitter|instagram|linkedin|youtube|social)\b";
  "\b(password|login|verification code|2fa)\b(?!.*card)";
  "\b(virus|malware|phishing|spam|suspicious activity)\b";
  "\b(bank transfer|wire transfer|neft|rtgs|imps|upi)\b(?!.*card)";
  "\b(fixed deposit|fd|savings|salary credit|bonus credit)\b";
  "\b(wallet|digital wallet|paytm wallet|phonepe wallet)\b(?!.*card)";
  "\b(electricity bill|gas bill|water bill|internet bill|mobile bill)\b(?!.*card)";
  "\b(mutual fund|sip|systematic|insurance premium|policy)\b(?!.*card)";
  "\b(salary|payroll|bonus|hr|human resources)\b(?!.*card)"
].

Record Classified := {
  definitely_financial : list Email;
  maybe_financial : list Email;
  probably_not : list Email;
}.

Section WithRuntime.
Context `{PyRuntime}.

(** [f"{subject} {from} {bodyText[:200]}".lower()] *)
Definition normalized_text (email : Email) : string :=
  str_lower (subject email +:+ " " +:+ from email +:+ " " +:+ str_take 200 (bodyText email)).

(** One [for pattern in patterns: if re.search(...): return ...] loop:
    [true] when the loop returns, [false] when it falls through. *)
Fixpoint any_pattern_matches (patterns : list string) (text : string) : bool :=
  match patterns with
  | [] => false
  | pattern :: rest =>
      if re_search pattern text then true else any_pattern_matches rest text
  end.

Definition classify_email (email : Email) : EmailRelevance :=
  let text := normalized_text email in
  if any_pattern_matches exclude_patterns text then PROBABLY_NOT_FINANCIAL
  else if any_pattern_matches definitely_financial_patterns text then DEFINITELY_FINANCIAL
  else if any_pattern_matches maybe_financial_patterns text then MAYBE_FINANCIAL
  else PROBABLY_NOT_FINANCIAL.

(** The body of the [for email in emails] loop: append to one of three lists. *)
Definition classify_into (acc : Classified) (email : Email) : Classified :=
  match classify_email email with
  | DEFINITELY_FINANCIAL =>
      {| definitely_financial := definitely_financial acc ++ [email];
         maybe_financial := maybe_financial acc;
         probably_not := probably_not acc |}
  | MAYBE_FINANCIAL =>
      {| definitely_financial := definitely_financial acc;
         maybe_financial := maybe_financial acc ++ [email];
         probably_not := probably_not acc |}
  | PROBABLY_NOT_FINANCIAL =>
      {| definitely_financial := definitely_financial acc;
         maybe_financial := maybe_financial acc;
         probably_not := probably_not acc ++ [email] |}
  end.

Definition classify_emails_batch (emails : list Email) : Classified :=
  fold_left classify_into emails
    {| definitely_financial := []; maybe_financial := []; probably_not := [] |}.

(** What [get_classification_stats] returns, one field per key. *)
Record Stats := {
  total_emails : nat;
  n_definitely_financial : nat;
  n_maybe_financial : nat;
  n_probably_not : nat;
  will_process_with_ai : nat;
  ai_processing_reduction : Q;
}.

(** The share of skipped emails is formed here in exact arithmetic and then
    rounded to one decimal; the floats of the code can fall on the other side
    of a tie in the last digit (23 skipped of 80 reads 28.7 there and 28.8
    here). *)
Definition get_classification_stats (c : Classified) : Stats :=
  let total :=
    length (definitely_financial c) + length (maybe_financial c) + length (probably_not c) in
  {| total_emails := total;
     n_definitely_financial := length (definitely_financial c);
     n_maybe_financial := length (maybe_financial c);
     n_probably_not := length (probably_not c);
     will_process_with_ai := length (definitely_financial c) + length (maybe_financial c);
     ai_processing_reduction :=
       if (0 <? total)%nat
       then py_round (inject_Z (Z.of_nat (length (probably_not c)))
                      / inject_Z (Z.of_nat total) * 100) 1
       else 0%Q |}.

(** *** Lemmas on the batch loop *)

Definition in_tier (t : EmailRelevance) (email : Email) : Prop :=
  classify_email email = t.

#[local] Instance in_tier_dec t email : Decision (in_tier t email).
Proof. unfold in_tier. apply _. Defined.

Lemma classify_loop_filter (emails : list Email) (acc : Classified) :
  fold_left classify_into emails acc =
  {| definitely_financial :=
       definitely_financial acc ++ filter (in_tier DEFINITELY_FINANCIAL) emails;
     maybe_financial :=
       maybe_financial acc ++ filter (in_tier MAYBE_FINANCIAL) emails;
     probably_not :=
       probably_not acc ++ filter (in_tier PROBABLY_NOT_FINANCIAL) emails |}.
Proof.
  revert acc. induction emails as [|e emails IH]; intros acc; simpl.
  - rewrite !app_nil_r. by destruct acc.
  - rewrite IH. unfold classify_into. rewrite !filter_cons.
    repeat case_decide; unfold in_tier in *;
      destruct (classify_email e); try congruence; simpl;
      by rewrite <- ?app_assoc.
Qed.

Lemma tiers_partition (emails : list Email) :
  filter (in_tier DEFINITELY_FINANCIAL) emails ++
  filter (in_tier MAYBE_FINANCIAL) emails ++
  filter (in_tier PROBABLY_NOT_FINANCIAL) emails ≡ₚ emails.
Proof.
  induction emails as [|e emails IH]; [done|].
  rewrite !filter_cons.
  repeat case_decide; unfold in_tier in *;
    destruct (classify_email e); try congruence; simpl.
  - by rewrite IH.
  - rewrite <- Permutation_middle. by rewrite IH.
  - rewrite app_assoc, <- Permutation_middle, <- app_assoc. by rewrite IH.
Qed.

Lemma elem_of_tier (t : EmailRelevance) (email : Email) (emails : list Email) :
  email ∈ filter (in_tier t) emails ↔ email ∈ emails ∧ classify_email email = t.
Proof. rewrite list_elem_of_filter. unfold in_tier. tauto. Qed.

Lemma any_pattern_matches_spec (patterns : list string) (text : string) :
  any_pattern_matches patterns text = true ↔
  ∃ pattern, pattern ∈ patterns ∧ re_search pattern text = true.
Proof.
  induction patterns as [|p ps IH]; simpl.
  - split; [done|]. intros (p & Hp & _). by apply elem_of_nil in Hp.
  - destruct (re_search p text) eqn:E.
    + split; [|done]. intros _. exists p. split; [left|done].
    + rewrite IH. split.
      * intros (q & Hq & Hm). exists q. split; [by right|done].
      * intros (q & Hq & Hm). apply elem_of_cons in Hq as [->|Hq]; [congruence|].
        by exists q.
Qed.

(** C2. [classify_emails_batch] partitions its input exactly: each bucket is
    the input filtered by the tier [classify_email] gives (so input order is
    kept inside each bucket and every email sits in the bucket of its own
    tier), the three sizes add up to the input size, the buckets together are
    a rearrangement of the input, and no email is in two buckets. *)
Theorem classify_emails_batch_partitions (emails : list Email) :
  let c := classify_emails_batch emails in
  definitely_financial c = filter (in_tier DEFINITELY_FINANCIAL) emails ∧
  maybe_financial c = filter (in_tier MAYBE_FINANCIAL) emails ∧
  probably_not c = filter (in_tier PROBABLY_NOT_FINANCIAL) emails ∧
  length (definitely_financial c) + length (maybe_financial c)
    + length (probably_not c) = length emails ∧
  definitely_financial c ++ maybe_financial c ++ probably_not c ≡ₚ emails ∧
  sublist (definitely_financial c) emails ∧
  sublist (maybe_financial c) emails ∧
  sublist (probably_not c) emails ∧
  (∀ email,
     (email ∈ definitely_financial c ↔
        email ∈ emails ∧ classify_email email = DEFINITELY_FINANCIAL) ∧
     (email ∈ maybe_financial c ↔
        email ∈ emails ∧ classify_email email = MAYBE_FINANCIAL) ∧
     (email ∈ probably_not c ↔
        email ∈ emails ∧ classify_email email = PROBABLY_NOT_FINANCIAL)) ∧
  (∀ email,
     ¬ (email ∈ definitely_financial c ∧ email ∈ maybe_financial c) ∧
     ¬ (email ∈ definitely_financial c ∧ email ∈ probably_not c) ∧
     ¬ (email ∈ maybe_financial c ∧ email ∈ probably_not c)).
Proof.
  intros c. subst c. unfold classify_emails_batch.
  rewrite classify_loop_filter. simpl.
  pose proof (tiers_partition emails) as Hperm.
  split_and!; try done; try apply sublist_filter.
  - apply Permutation_length in Hperm. rewrite !length_app in Hperm. lia.
  - intros email. rewrite !elem_of_tier. done.
  - intros email. rewrite !elem_of_tier. split_and!; intros [[_ E1] [_ E2]]; congruence.
Qed.

(** C7. Exclude rules win: when the normalized text of an email (subject,
    sender and the first 200 characters of the body, lower-cased) matches one
    of the exclude patterns, [classify_email] answers
    [PROBABLY_NOT_FINANCIAL], whatever the other two pattern lists say. *)
Theorem exclude_pattern_wins (email : Email) (pattern : string) :
  pattern ∈ exclude_patterns →
  re_search pattern
    (str_lower (subject email +:+ " " +:+ from email +:+ " "
                +:+ str_take 200 (bodyText email))) = true →
  classify_email email = PROBABLY_NOT_FINANCIAL.
Proof.
  intros Hin Hmatch. unfold classify_email.
  replace (any_pattern_matches exclude_patterns (normalized_text email)) with true; [done|].
  symmetry. apply any_pattern_matches_spec. by exists pattern.
Qed.

(** *** The tiers, and the statistics of a classified batch *)

(** X10. The two financial tiers: an email is [DEFINITELY_FINANCIAL] exactly
    when no exclude pattern matches its normalized text and some
    definitely-financial pattern does, and [MAYBE_FINANCIAL] exactly when
    neither an exclude nor a definitely-financial pattern matches and some
    maybe-financial pattern does. *)
Theorem financial_tiers (email : Email) :
  let text := normalized_text email in
  let hit (patterns : list string) :=
    ∃ pattern, pattern ∈ patterns ∧ re_search pattern text = true in
  (classify_email email = DEFINITELY_FINANCIAL ↔
     ¬ hit exclude_patterns ∧ hit definitely_financial_patterns) ∧
  (classify_email email = MAYBE_FINANCIAL ↔
     ¬ hit exclude_patterns ∧ ¬ hit definitely_financial_patterns ∧
     hit maybe_financial_patterns).
Proof.
  intros text hit. subst hit. cbn beta.
  rewrite <- !any_pattern_matches_spec. unfold classify_email. fold text.
  destruct (any_pattern_matches exclude_patterns text);
    destruct (any_pattern_matches definitely_financial_patterns text);
    destruct (any_pattern_matches maybe_financial_patterns text);
    split; split; try done; try tauto; intros; intuition congruence.
Qed.

Lemma str_take_app (n : nat) (s extra : string) :
  n ≤ str_len s → starts_on_character extra →
  str_take n (s +:+ extra) = str_take n s.
Proof.
  intros Hn Hextra. revert n Hn. induction s as [|c s IH]; intros n Hn.
  - cbn [str_len] in Hn. assert (n = 0) as -> by lia.
    destruct extra as [|c extra]; [done|].
    unfold starts_on_character in Hextra.
    change ("" +:+ String c extra) with (String c extra).
    cbn [str_take]. by rewrite Hextra.
  - cbn [str_len] in Hn.
    change (String c s +:+ extra) with (String c (s +:+ extra)).
    cbn [str_take]. destruct (is_continuation c).
    + f_equal. by apply IH.
    + destruct n as [|n]; [done|]. f_equal. apply IH. lia.
Qed.

(** X11. Only the first 200 characters of the body count: whatever text is
    appended to a body of at least 200 characters (characters, not bytes:
    a rupee sign counts once), the tier of the email is the same. *)
Theorem body_tail_ignored (email : Email) (extra : string) :
  200 ≤ str_len (bodyText email) →
  starts_on_character extra →
  classify_email {| msg_id := msg_id email; internalDate := internalDate email;
                    from := from email; subject := subject email;
                    bodyText := bodyText email +:+ extra |}
  = classify_email email.
Proof.
  intros Hlen Hextra. unfold classify_email, normalized_text.
  cbn [subject from bodyText]. by rewrite str_take_app.
Qed.

Lemma py_round_eq (x y : Q) (ndigits : nat) :
  (x == y)%Q → py_round x ndigits = py_round y ndigits.
Proof.
  intros Hxy. unfold py_round. apply Qred_complete.
  replace (round_half_even (x * inject_Z (10 ^ Z.of_nat ndigits)))
    with (round_half_even (y * inject_Z (10 ^ Z.of_nat ndigits))); [reflexivity|].
  apply Z.le_antisymm; apply round_half_even_mono; rewrite Hxy; apply Qle_refl.
Qed.

(** X12. The statistics of a classified batch: the total is the number of
    emails given to [classify_emails_batch]; the emails to process with AI
    and the skipped ones add up to it; the reduction is a percentage between
    0 and 100, it is 0 for an empty batch and when nothing is skipped, and
    100 when every email of a batch that is not empty is skipped. *)
Theorem classification_stats_consistent (emails : list Email) :
  let stats := get_classification_stats (classify_emails_batch emails) in
  total_emails stats = length emails ∧
  will_process_with_ai stats = n_definitely_financial stats + n_maybe_financial stats ∧
  will_process_with_ai stats + n_probably_not stats = total_emails stats ∧
  (0 <= ai_processing_reduction stats)%Q ∧
  (ai_processing_reduction stats <= 100)%Q ∧
  (n_probably_not stats = 0 → ai_processing_reduction stats = 0%Q) ∧
  (emails ≠ [] → will_process_with_ai stats = 0 →
   ai_processing_reduction stats = 100%Q).
Proof.
  intros stats. subst stats. unfold classify_emails_batch.
  rewrite classify_loop_filter.
  pose proof (tiers_partition emails) as Hperm.
  apply Permutation_length in Hperm. rewrite !length_app in Hperm.
  unfold get_classification_stats.
  cbn [total_emails will_process_with_ai n_definitely_financial n_maybe_financial
       n_probably_not ai_processing_reduction definitely_financial maybe_financial
       probably_not app].
  set (d := length (filter (in_tier DEFINITELY_FINANCIAL) emails)) in *.
  set (m := length (filter (in_tier MAYBE_FINANCIAL) emails)) in *.
  set (p := length (filter (in_tier PROBABLY_NOT_FINANCIAL) emails)) in *.
  assert (0 < d + m + p →
          (0 <= inject_Z (Z.of_nat p) / inject_Z (Z.of_nat (d + m + p)) * 100)%Q ∧
          (inject_Z (Z.of_nat p) / inject_Z (Z.of_nat (d + m + p)) * 100 <= 100)%Q)
    as Hshare.
  { intros Hpos.
    assert (0 < inject_Z (Z.of_nat (d + m + p)))%Q as Htot.
    { change 0%Q with (inject_Z 0). rewrite <- Zlt_Qlt. lia. }
    assert (0 <= inject_Z (Z.of_nat p))%Q as Hp.
    { change 0%Q with (inject_Z 0). rewrite <- Zle_Qle. lia. }
    assert (inject_Z (Z.of_nat p) <= inject_Z (Z.of_nat (d + m + p)))%Q as Hle.
    { rewrite <- Zle_Qle. lia. }
    assert (0 <= inject_Z (Z.of_nat p) / inject_Z (Z.of_nat (d + m + p)))%Q.
    { apply Qle_shift_div_l; [done|]. by rewrite Qmult_0_l. }
    assert (inject_Z (Z.of_nat p) / inject_Z (Z.of_nat (d + m + p)) <= 1)%Q.
    { apply Qle_shift_div_r; [done|]. by rewrite Qmult_1_l. }
    split; lra. }
  split_and!; [lia|done|lia| | | |].
  - destruct (0 <? d + m + p) eqn:Hpos; [|done].
    apply Nat.ltb_lt, Hshare in Hpos as [Hlo _].
    change 0%Q with (py_round 0 1). by apply py_round_mono.
  - destruct (0 <? d + m + p) eqn:Hpos; [|done].
    apply Nat.ltb_lt, Hshare in Hpos as [_ Hhi].
    change 100%Q with (py_round 100 1). by apply py_round_mono.
  - intros ->. by destruct (0 <? d + m + 0).
  - intros Hne Hzero.
    assert (d + m = 0 ∧ 0 < p) as [Hdm Hp].
    { split; [lia|]. destruct emails; [done|]. cbn [length] in Hperm. lia. }
    rewrite Hdm. cbn [Nat.add].
    destruct (Nat.ltb_spec 0 p) as [_|]; [|lia].
    change 100%Q with (py_round 100 1) at 2. apply py_round_eq.
    field. intros Hz. unfold Qeq in Hz. cbn in Hz. lia.
Qed.

End WithRuntime.

End Classifier.

Lemma Forall2_concat_groups {A B} (P : A → B → Prop)
    (groups : list (list A)) (answers : list (list B)) :
  Forall2 (Forall2 P) groups answers → Forall2 P (concat groups) (concat answers).
Proof.
  induction 1 as [|g a groups answers Hga _ IH]; simpl; [constructor|].
  by apply Forall2_app.
Qed.

(** * intelligent_extractor.py *)

Module Extractor.

(** The generative model behind [self.model].  A call stands for the whole
    [try] block around [generate_content]: build the prompt from the
    arguments, call the model, strip the code fence, [json.loads] the text.
    [Raise] is any exception of that block; [Ok v] the decoded JSON value. *)
Record AIModel := {
  (** [extract_financial_insights], one email: content, sender, subject *)
  generate_single : string → string → string → result pyval;
  (** [_process_batch_with_ai], one prompt for a group of emails *)
  generate_batch : list Email → result pyval;
}.

Definition merchant_patterns : list (string * string) := [
  ("swiggy", "Swiggy"); ("zomato", "Zomato"); ("amazon", "Amazon");
  ("flipkart", "Flipkart"); ("uber", "Uber"); ("ola", "Ola");
  ("paytm", "Paytm"); ("phonepe", "PhonePe"); ("gpay", "Google Pay");
  ("myntra", "Myntra"); ("bigbasket", "BigBasket"); ("netflix", "Netflix");
  ("spotify", "Spotify"); ("airtel", "Airtel"); ("jio", "Jio");
  ("hdfc", "HDFC Bank"); ("icici", "ICICI Bank"); ("sbi", "SBI");
  ("axis", "Axis Bank")
].

Definition noise_words : list string :=
  ["you"; "your"; "rs"; "view"; "fwd"; "account"; "alert"; "update"; "payment"; "scheduled"].

Definition amount_patterns : list string := [
  "(?:₹|inr|rs\.?)\s*([0-9,]+(?:\.[0-9]{2})?)";
  "([0-9,]+(?:\.[0-9]{2})?)\s*(?:₹|inr|rs\.?)";
  "(?:amount|total|paid|charged).*?(?:₹|inr|rs\.?)\s*([0-9,]+(?:\.[0-9]{2})?)"
].

Definition categories : list (string * list string) := [
  ("Food", ["swiggy"; "zomato"; "dominos"; "kfc"; "mcdonald"]);
  ("Shopping", ["amazon"; "flipkart"; "myntra"; "ajio"]);
  ("Transportation", ["uber"; "ola"; "rapido"]);
  ("Entertainment", ["netflix"; "spotify"; "hotstar"; "prime"]);
  ("Bills", ["airtel"; "jio"; "bsnl"; "electricity"; "gas"]);
  ("Healthcare", ["practo"; "apollo"; "pharmeasy"]);
  ("Travel", ["makemytrip"; "goibibo"; "cleartrip"; "irctc"])
].

Definition credit_card_keywords : list string :=
  ["card"; "credit card"; "transaction"; "charged"; "statement"; "payment"; "purchase"; "bill"].

Section WithRuntime.
Context `{PyRuntime}.
(** [self.model], and the date [datetime.now().strftime('%Y-%m-%d')] gives. *)
Context (model : option AIModel) (today : string).

(** First [name] whose [pattern] occurs in [text], in dict order. *)
Fixpoint first_known_merchant (table : list (string * string)) (text : string)
  : option string :=
  match table with
  | [] => None
  | (pattern, name) :: rest =>
      if str_in pattern text then Some name else first_known_merchant rest text
  end.

Fixpoint first_clean_word (words : list string) : option string :=
  match words with
  | [] => None
  | word :: rest =>
      if negb (bool_decide (str_lower word ∈ noise_words)) && (2 <? str_len word)%nat
      then Some word
      else first_clean_word rest
  end.

Definition _extract_clean_merchant (email_from subject : string) : option string :=
  let text := str_lower (email_from +:+ " " +:+ subject) in
  match first_known_merchant merchant_patterns text with
  | Some name => Some name
  | None =>
      let from_domain :=
        match re_search_group1 "@([^.]+)" email_from with
        | Some g => first_known_merchant merchant_patterns (str_lower g)
        | None => None
        end in
      match from_domain with
      | Some name => Some name
      | None => first_clean_word (re_findall false "\b[A-Z][a-z]+\b" subject)
      end
  end.

(** The loop of [_extract_amount] over the remaining patterns. *)
Fixpoint extract_amount_from (patterns : list string) (text : string) : option Q :=
  match patterns with
  | [] => None
  | pattern :: rest =>
      match re_findall true pattern text with
      | [] => extract_amount_from rest text
      | first :: _ =>
          match py_float (str_remove comma first) with
          | Some amount =>
              if Qle_bool 1 amount && Qle_bool amount 1000000
              then Some amount
              else extract_amount_from rest text
          | None => extract_amount_from rest text
          end
      end
  end.

Definition _extract_amount (text : string) : option Q :=
  extract_amount_from amount_patterns text.

Fixpoint first_category (table : list (string * list string)) (merchant_lower : string)
  : string :=
  match table with
  | [] => "Other"
  | (category, merchants) :: rest =>
      if existsb (λ m, str_in m merchant_lower) merchants then category
      else first_category rest merchant_lower
  end.

Definition _categorize_merchant (merchant : string) : string :=
  first_category categories (str_lower merchant).

Definition opt_str_truthy (o : option string) : bool :=
  match o with Some s => negb (String.eqb s "") | None => false end.

Definition opt_num_truthy (o : option Q) : bool :=
  match o with Some q => negb (Qeq_bool q 0) | None => false end.

Definition _fallback_extraction (email_content email_from subject : string)
  : list (string * pyval) :=
  let result := [
    ("transaction", VNone); ("subscription", VNone); ("travel", VNone);
    ("bills", VNone); ("card_info", VNone); ("is_relevant", VBool false)
  ] in
  let text := str_lower (subject +:+ " " +:+ email_content) in
  if negb (existsb (λ keyword, str_in keyword text) credit_card_keywords) then result
  else
    let result := assoc_set result "is_relevant" (VBool true) in
    let merchant := _extract_clean_merchant email_from subject in
    let amount := _extract_amount text in
    match merchant, amount with
    | Some m, Some a =>
        if opt_str_truthy merchant && opt_num_truthy amount then
          assoc_set result "transaction" (VDict [
            ("merchant", VStr m);
            ("amount", VNum a);
            ("currency", VStr "INR");
            ("date", VStr today);
            ("category", VStr (_categorize_merchant m));
            ("transaction_type", VStr "expense");
            ("card_type", VStr "credit_card");
            ("card_last_four", VNone);
            ("confidence", VNum (7 # 10))
          ])
        else result
    | _, _ => result
    end.

(** Never raises: without a model, and on any exception of the model call,
    the fallback answers; otherwise the decoded JSON value is returned as it
    is, whatever its shape. *)
Definition extract_financial_insights (email_content email_from subject : string)
  : pyval :=
  match model with
  | None => VDict (_fallback_extraction email_content email_from subject)
  | Some ai =>
      match generate_single ai email_content email_from subject with
      | Ok v => v
      | Raise _ => VDict (_fallback_extraction email_content email_from subject)
      end
  end.

(** The per-email replay: extract, then [result['email_id'] = email.get('id')]. *)
Definition extract_and_tag (email : Email) : result pyval :=
  py_setitem
    (extract_financial_insights (bodyText email) (from email) (subject email))
    "email_id" (VStr (msg_id email)).

(** The [for i, email in enumerate(emails)] loop that maps the decoded batch
    answer back to the emails; [i] is the index of the head of [emails]. *)
Fixpoint map_batch_results (batch_results : pyval) (i : nat) (emails : list Email)
  : result (list pyval) :=
  match emails with
  | [] => Ok []
  | email :: rest =>
      rbind (py_len batch_results) (λ n,
      rbind
        (if (i <? n)%nat then
           rbind (py_index batch_results i) (λ result,
           py_setitem result "email_id" (VStr (msg_id email)))
         else
           py_setitem
             (VDict (_fallback_extraction (bodyText email) (from email) (subject email)))
             "email_id" (VStr (msg_id email)))
        (λ tagged,
      rbind (map_batch_results batch_results (S i) rest) (λ more,
      Ok (tagged :: more))))
  end.

Definition _process_batch_with_ai (emails : list Email) : result (list pyval) :=
  match model, emails with
  | None, _ | _, [] => Ok []
  | Some ai, _ =>
      try_except
        (rbind (generate_batch ai emails) (λ batch_results,
         map_batch_results batch_results 0 emails))
        (λ _, for_each extract_and_tag emails)
  end.

(** One turn of the batching loop of [extract_insights_batch]. *)
Definition process_one_batch (batch : list Email) : result (list pyval) :=
  match model with
  | Some _ =>
      try_except (_process_batch_with_ai batch)
                 (λ _, for_each extract_and_tag batch)
  | None => for_each extract_and_tag batch
  end.

Definition extract_insights_batch (emails : list Email) (batch_size : Z)
  : result (list pyval) :=
  match emails with
  | [] => Ok []
  | _ =>
      if (batch_size =? 0)%Z then Raise (ValueError "range() arg 3 must not be zero")
      else if (batch_size <? 0)%Z then Ok []
      else
        rbind (for_each process_one_batch (chunks (Z.to_nat batch_size) emails))
              (λ groups, Ok (concat groups))
  end.

(** *** The amount range *)

Lemma extract_amount_from_range (patterns : list string) (text : string) (amount : Q) :
  extract_amount_from patterns text = Some amount →
  (1 <= amount)%Q ∧ (amount <= 1000000)%Q.
Proof.
  induction patterns as [|pattern rest IH]; simpl; [done|].
  destruct (re_findall true pattern text) as [|first others]; [done|].
  destruct (py_float _) as [a|]; [|done].
  destruct (Qle_bool 1 a && Qle_bool a 1000000) eqn:E; [|done].
  intros [= <-]. apply andb_prop in E as [E1 E2].
  split; by apply Qle_bool_iff.
Qed.

Lemma extract_amount_from_none (patterns : list string) (text : string) :
  (∀ pattern found amount,
     pattern ∈ patterns →
     found ∈ re_findall true pattern text →
     py_float (str_remove comma found) = Some amount →
     ¬ ((1 <= amount)%Q ∧ (amount <= 1000000)%Q)) →
  extract_amount_from patterns text = None.
Proof.
  induction patterns as [|pattern rest IH]; intros Hout; simpl; [done|].
  assert (extract_amount_from rest text = None) as Hrest.
  { apply IH. intros p f a Hp. apply Hout. by right. }
  destruct (re_findall true pattern text) as [|first others] eqn:Ef; [done|].
  destruct (py_float _) as [a|] eqn:Ea; [|done].
  destruct (Qle_bool 1 a && Qle_bool a 1000000) eqn:E; [|done].
  exfalso. apply andb_prop in E as [E1%Qle_bool_iff E2%Qle_bool_iff].
  apply (Hout pattern first a); [left|rewrite Ef; left|done|done].
Qed.

(** C9. The fallback's amount extraction only ever returns an amount within
    [1, 1000000]; and when every amount the three patterns detect in the
    text of an email lies outside that range, no amount is returned and the
    heuristic fallback leaves the transaction entry at [None], whatever
    merchant was identified. *)
Theorem fallback_amount_range (email_content email_from subject : string) :
  let text := str_lower (subject +:+ " " +:+ email_content) in
  (∀ t amount, _extract_amount t = Some amount →
     (1 <= amount)%Q ∧ (amount <= 1000000)%Q) ∧
  ((∀ pattern found amount,
      pattern ∈ amount_patterns →
      found ∈ re_findall true pattern text →
      py_float (str_remove comma found) = Some amount →
      ¬ ((1 <= amount)%Q ∧ (amount <= 1000000)%Q)) →
   _extract_amount text = None ∧
   assoc_get (_fallback_extraction email_content email_from subject) "transaction"
     = Some VNone).
Proof.
  intros text. split.
  - intros t amount. apply extract_amount_from_range.
  - intros Hout.
    assert (_extract_amount text = None) as Hnone
      by by apply extract_amount_from_none.
    split; [done|]. unfold _fallback_extraction. fold text. rewrite Hnone.
    destruct (negb _); [done|].
    by destruct (_extract_clean_merchant email_from subject).
Qed.

(** *** One record per email *)

(** What the rule-based path yields for one email. *)
Definition fallback_record (email : Email) : pyval :=
  VDict (assoc_set
           (_fallback_extraction (bodyText email) (from email) (subject email))
           "email_id" (VStr (msg_id email))).

Lemma tagged_email_id (d : list (string * pyval)) (v : pyval) :
  assoc_get (assoc_set d "email_id" v) "email_id" = Some v.
Proof.
  induction d as [|[k w] d IH]; [done|]. simpl.
  destruct (String.eqb k "email_id") eqn:E; simpl; by rewrite ?E.
Qed.

(** The tag of a record, and the relation "one record per email, in order,
    each tagged with the id of its email". *)
Definition email_id_of (record : pyval) : option pyval :=
  match record with
  | VDict d => assoc_get d "email_id"
  | _ => None
  end.

Definition tagged_with (email : Email) (record : pyval) : Prop :=
  email_id_of record = Some (VStr (msg_id email)).

(** Every per-email answer of the model that decodes at all is an object. *)
Definition single_replies_are_objects : Prop :=
  ∀ ai content sender subj v,
    model = Some ai → generate_single ai content sender subj = Ok v →
    ∃ d, v = VDict d.

Lemma setitem_tagged (x : pyval) (email : Email) (record : pyval) :
  py_setitem x "email_id" (VStr (msg_id email)) = Ok record →
  tagged_with email record.
Proof.
  destruct x; simpl; try done. intros [= <-].
  unfold tagged_with. simpl. apply tagged_email_id.
Qed.

Lemma for_each_Forall2 {A B} (f : A → result B) (P : A → B → Prop) (l : list A) :
  (∀ a, ∃ b, f a = Ok b ∧ P a b) →
  ∃ bs, for_each f l = Ok bs ∧ Forall2 P l bs.
Proof.
  intros Hf. induction l as [|a l (bs & Hbs & Hall)]; [by exists []|].
  destruct (Hf a) as (b & Hb & Hab). exists (b :: bs). simpl.
  rewrite Hb. simpl. rewrite Hbs. simpl. split; [done|by constructor].
Qed.

Lemma extract_and_tag_ok (email : Email) :
  single_replies_are_objects →
  ∃ record, extract_and_tag email = Ok record ∧ tagged_with email record.
Proof.
  intros Hobj. unfold extract_and_tag.
  assert (∃ d, extract_financial_insights (bodyText email) (from email) (subject email)
               = VDict d) as [d ->].
  { unfold extract_financial_insights. destruct model as [ai|] eqn:Em; [|by eexists].
    destruct (generate_single ai _ _ _) as [v|e] eqn:Eg; [|by eexists].
    exact (Hobj ai _ _ _ v Em Eg). }
  eexists. split; [reflexivity|]. by apply (setitem_tagged (VDict d)).
Qed.

Lemma map_batch_results_tagged (batch_results : pyval) (i : nat) (emails : list Email)
    (records : list pyval) :
  map_batch_results batch_results i emails = Ok records →
  Forall2 tagged_with emails records.
Proof.
  revert i records. induction emails as [|email rest IH]; intros i records; simpl.
  - intros [= <-]. constructor.
  - destruct (py_len batch_results) as [n|]; [|done]. simpl.
    match goal with
    | |- rbind ?tagging _ = _ → _ => destruct tagging as [tagged|] eqn:Etag; [|done]
    end.
    simpl. destruct (map_batch_results batch_results (S i) rest) as [more|] eqn:Em;
      [|done].
    simpl. intros [= <-]. constructor; [|by eapply IH].
    destruct (i <? n)%nat.
    + destruct (py_index batch_results i) as [x|]; [|done]. simpl in Etag.
      by apply (setitem_tagged x).
    + by apply (setitem_tagged
                  (VDict (_fallback_extraction (bodyText email) (from email)
                            (subject email)))).
Qed.

Lemma process_one_batch_tagged (batch : list Email) :
  single_replies_are_objects →
  ∃ records, process_one_batch batch = Ok records ∧ Forall2 tagged_with batch records.
Proof.
  intros Hobj.
  destruct (for_each_Forall2 extract_and_tag tagged_with batch)
    as (replayed & Hreplay & Htagged).
  { intros email. by apply extract_and_tag_ok. }
  unfold process_one_batch, _process_batch_with_ai.
  destruct model as [ai|]; [|exists replayed; split; [exact Hreplay|exact Htagged]].
  destruct batch as [|email rest]; [exists []; split; [done|constructor]|].
  destruct (generate_batch ai (email :: rest)) as [batch_results|e];
    cbn [rbind try_except].
  - destruct (map_batch_results batch_results 0 (email :: rest)) as [records|e] eqn:Em;
      cbn [rbind try_except].
    + exists records. split; [done|]. by eapply map_batch_results_tagged.
    + exists replayed. rewrite Hreplay. by split.
  - exists replayed. rewrite Hreplay. by split.
Qed.

(** What the batching does hold: for a positive batch size, and whether or
    not a model is set and whatever its group answers are, there is one
    record per email, in input order, each tagged with the id of its email,
    as long as every per-email answer that decodes is a JSON object. *)
Lemma extract_insights_batch_tagged (emails : list Email) (batch_size : Z) :
  (0 < batch_size)%Z →
  single_replies_are_objects →
  ∃ records,
    extract_insights_batch emails batch_size = Ok records ∧
    Forall2 tagged_with emails records.
Proof.
  intros Hpos Hobj. unfold extract_insights_batch.
  destruct emails as [|email rest]; [exists []; split; [done|constructor]|].
  destruct (Z.eqb_spec batch_size 0); [lia|].
  destruct (Z.ltb_spec batch_size 0); [lia|].
  generalize (email :: rest). intros l.
  destruct (for_each_Forall2 process_one_batch (Forall2 tagged_with)
              (chunks (Z.to_nat batch_size) l)) as (groups & -> & Hgroups).
  { intros batch. by apply process_one_batch_tagged. }
  exists (concat groups). split; [done|].
  rewrite <- (concat_chunks (Z.to_nat batch_size) l) at 1 by lia.
  by apply Forall2_concat_groups.
Qed.

(** *** The answer of the model for a group, mapped back to the emails *)

(** A decoded object, tagged with the id of its email. *)
Definition tag_record (email : Email) (d : list (string * pyval)) : pyval :=
  VDict (assoc_set d "email_id" (VStr (msg_id email))).

Lemma map_batch_results_objects (replies : list (list (string * pyval))) (i : nat)
    (emails : list Email) :
  map_batch_results (VList (map VDict replies)) i emails
  = Ok (zip_with tag_record emails (drop i replies) ++
        map fallback_record (drop (length replies - i) emails)).
Proof.
  revert i. induction emails as [|email rest IH]; intros i.
  { cbn [map_batch_results]. by rewrite drop_nil. }
  cbn [map_batch_results py_len rbind]. rewrite length_map, IH.
  destruct (Nat.ltb_spec i (length replies)) as [Hlt|Hge].
  - destruct (lookup_lt_is_Some_2 replies i Hlt) as [d Hd].
    cbn [py_index]. rewrite list_lookup_fmap, Hd. cbn [fmap option_fmap option_map].
    cbn [rbind py_setitem].
    rewrite (drop_S replies d i Hd). cbn [zip_with app].
    replace (length replies - i) with (S (length replies - S i)) by lia.
    done.
  - cbn [rbind py_setitem].
    rewrite (drop_ge replies i), (drop_ge replies (S i)) by lia.
    replace (length replies - i) with 0 by lia.
    replace (length replies - S i) with 0 by lia.
    by destruct rest.
Qed.

(** X13. When the model answers a group of emails with a JSON array of
    objects, [_process_batch_with_ai] pairs the objects with the emails by
    position and tags each with the id of its email; emails beyond the end of
    the array get the rule-based record instead, and objects beyond the
    number of emails are dropped. *)
Theorem batch_reply_mapped (ai : AIModel) (emails : list Email)
    (replies : list (list (string * pyval))) :
  model = Some ai →
  generate_batch ai emails = Ok (VList (map VDict replies)) →
  _process_batch_with_ai emails
  = Ok (zip_with tag_record emails replies ++
        map fallback_record (drop (length replies) emails)).
Proof.
  intros Hmodel Hreply. unfold _process_batch_with_ai. rewrite Hmodel.
  destruct emails as [|email rest]; [by destruct replies|].
  rewrite Hreply. cbn [rbind]. rewrite map_batch_results_objects.
  by rewrite Nat.sub_0_r.
Qed.

(** *** The rule-based record *)

Lemma first_known_merchant_named (text name : string) :
  first_known_merchant merchant_patterns text = Some name →
  name ∈ map snd merchant_patterns.
Proof.
  generalize merchant_patterns as table.
  induction table as [|[pattern n] table IH]; cbn [first_known_merchant]; [done|].
  destruct (str_in pattern text).
  - intros [= <-]. left.
  - intros Hn. right. by apply IH.
Qed.

Lemma first_clean_word_long (words : list string) (word : string) :
  first_clean_word words = Some word → (2 < str_len word)%nat.
Proof.
  induction words as [|w words IH]; cbn [first_clean_word]; [done|].
  destruct (negb _ && (2 <? str_len w)%nat) eqn:E; [|done].
  intros [= <-]. apply andb_prop in E as [_ E]. by apply Nat.ltb_lt.
Qed.

(** The merchant the rule-based path names is never the empty string. *)
Lemma extract_clean_merchant_named (email_from subject merchant : string) :
  _extract_clean_merchant email_from subject = Some merchant →
  merchant ≠ "".
Proof.
  assert (∀ text name, first_known_merchant merchant_patterns text = Some name →
                       name ≠ "") as Hknown.
  { intros text name Hname%first_known_merchant_named.
    intros ->. revert Hname. unfold merchant_patterns. cbn [map snd].
    rewrite !elem_of_cons. rewrite elem_of_nil. intuition congruence. }
  unfold _extract_clean_merchant.
  destruct (first_known_merchant merchant_patterns
              (str_lower (email_from +:+ " " +:+ subject))) as [name|] eqn:E1.
  { intros [= <-]. by eapply Hknown. }
  destruct (re_search_group1 "@([^.]+)" email_from) as [g|].
  - destruct (first_known_merchant merchant_patterns (str_lower g)) as [name|] eqn:E2.
    + intros [= <-]. by eapply Hknown.
    + intros Hw%first_clean_word_long. intros ->. cbn in Hw. lia.
  - intros Hw%first_clean_word_long. intros ->. cbn in Hw. lia.
Qed.

(** X14. The record of the rule-based extraction always has the same six
    entries; [subscription], [travel], [bills] and [card_info] are always
    [None]; [is_relevant] tells whether one of the card keywords occurs in
    the lower-cased subject and content; and [transaction] is either [None]
    or an expense of the identified merchant in INR, dated today, with
    confidence 0.7 and an amount between 1 and 1000000, and then the record
    is relevant. *)
Theorem fallback_extraction_shape (email_content email_from subject : string) :
  let record := _fallback_extraction email_content email_from subject in
  let text := str_lower (subject +:+ " " +:+ email_content) in
  map fst record
    = ["transaction"; "subscription"; "travel"; "bills"; "card_info"; "is_relevant"] ∧
  assoc_get record "subscription" = Some VNone ∧
  assoc_get record "travel" = Some VNone ∧
  assoc_get record "bills" = Some VNone ∧
  assoc_get record "card_info" = Some VNone ∧
  assoc_get record "is_relevant"
    = Some (VBool (existsb (λ keyword, str_in keyword text) credit_card_keywords)) ∧
  (assoc_get record "transaction" = Some VNone ∨
   ∃ merchant amount,
     _extract_clean_merchant email_from subject = Some merchant ∧
     _extract_amount text = Some amount ∧
     merchant ≠ "" ∧ (1 <= amount)%Q ∧ (amount <= 1000000)%Q ∧
     assoc_get record "is_relevant" = Some (VBool true) ∧
     assoc_get record "transaction" = Some (VDict [
       ("merchant", VStr merchant);
       ("amount", VNum amount);
       ("currency", VStr "INR");
       ("date", VStr today);
       ("category", VStr (_categorize_merchant merchant));
       ("transaction_type", VStr "expense");
       ("card_type", VStr "credit_card");
       ("card_last_four", VNone);
       ("confidence", VNum (7 # 10))])).
Proof.
  intros record text. subst record. unfold _fallback_extraction. fold text.
  destruct (existsb (λ keyword, str_in keyword text) credit_card_keywords);
    cbn [negb]; [|split_and!; try done; by left].
  destruct (_extract_clean_merchant email_from subject) as [merchant|] eqn:Em;
    [|split_and!; try done; by left].
  destruct (_extract_amount text) as [amount|] eqn:Ea;
    [|split_and!; try done; by left].
  destruct (opt_str_truthy (Some merchant) && opt_num_truthy (Some amount));
    [|split_and!; try done; by left].
  split_and!; try done. right. exists merchant, amount.
  pose proof (extract_amount_from_range _ _ _ Ea) as [Hlo Hhi].
  split_and!; try done. by eapply extract_clean_merchant_named.
Qed.

(** *** What a batch call returns *)

Lemma for_each_tagged (emails : list Email) (records : list pyval) :
  for_each extract_and_tag emails = Ok records →
  Forall2 tagged_with emails records.
Proof.
  revert records. induction emails as [|email rest IH]; intros records; cbn [for_each].
  - intros [= <-]. constructor.
  - destruct (extract_and_tag email) as [record|] eqn:Etag; [|done]. cbn [rbind].
    destruct (for_each extract_and_tag rest) as [more|]; [|done]. cbn [rbind].
    intros [= <-]. constructor; [|by apply IH].
    by eapply setitem_tagged.
Qed.

Lemma process_one_batch_returns (batch : list Email) (records : list pyval) :
  process_one_batch batch = Ok records → Forall2 tagged_with batch records.
Proof.
  unfold process_one_batch, _process_batch_with_ai.
  destruct model as [ai|]; [|apply for_each_tagged].
  destruct batch as [|email rest]; [intros [= <-]; constructor|].
  destruct (generate_batch ai (email :: rest)) as [batch_results|e];
    cbn [rbind try_except].
  - destruct (map_batch_results batch_results 0 (email :: rest)) as [mapped|e] eqn:Em;
      cbn [try_except].
    + intros [= <-]. by eapply map_batch_results_tagged.
    + destruct (for_each extract_and_tag (email :: rest)) as [replayed|e'] eqn:Er;
        cbn [try_except].
      * intros [= <-]. by apply for_each_tagged.
      * done.
  - destruct (for_each extract_and_tag (email :: rest)) as [replayed|e'] eqn:Er;
      cbn [try_except].
    + intros [= <-]. by apply for_each_tagged.
    + done.
Qed.

Lemma for_each_groups_tagged (groups : list (list Email)) (outs : list (list pyval)) :
  for_each process_one_batch groups = Ok outs →
  Forall2 (Forall2 tagged_with) groups outs.
Proof.
  revert outs. induction groups as [|g groups IH]; intros outs; cbn [for_each].
  - intros [= <-]. constructor.
  - destruct (process_one_batch g) as [out|] eqn:Eg; [|done]. cbn [rbind].
    destruct (for_each process_one_batch groups) as [more|]; [|done]. cbn [rbind].
    intros [= <-]. constructor; [by apply process_one_batch_returns|by apply IH].
Qed.

(** X15. What [extract_insights_batch] gives for each batch size, whatever
    the model is and answers.  Positive: if the call returns, it returns one
    record per email, in input order, each tagged with the id of its email,
    and it does return when every per-email answer that decodes is an
    object.  Zero: the call raises [ValueError] on any input that is not
    empty.  Negative: the call returns the empty list and every email is
    dropped.  An empty input gives the empty list for every size. *)
Theorem extract_insights_batch_by_size (emails : list Email) (batch_size : Z) :
  ((0 < batch_size)%Z →
     (∀ records, extract_insights_batch emails batch_size = Ok records →
                 Forall2 tagged_with emails records) ∧
     (single_replies_are_objects →
      is_ok (extract_insights_batch emails batch_size) = true)) ∧
  (batch_size = 0%Z → emails ≠ [] →
     extract_insights_batch emails batch_size
     = Raise (ValueError "range() arg 3 must not be zero")) ∧
  ((batch_size < 0)%Z → extract_insights_batch emails batch_size = Ok []) ∧
  (emails = [] → extract_insights_batch emails batch_size = Ok []).
Proof.
  split_and!.
  - intros Hpos. split.
    + intros records. unfold extract_insights_batch.
      destruct emails as [|email rest]; [intros [= <-]; constructor|].
      destruct (Z.eqb_spec batch_size 0); [lia|].
      destruct (Z.ltb_spec batch_size 0); [lia|].
      generalize (email :: rest). intros l.
      destruct (for_each process_one_batch (chunks (Z.to_nat batch_size) l))
        as [groups|e] eqn:Eg; [|done].
      cbn [rbind]. intros [= <-].
      rewrite <- (concat_chunks (Z.to_nat batch_size) l) at 1 by lia.
      by apply Forall2_concat_groups, for_each_groups_tagged.
    + intros Hobj.
      destruct (extract_insights_batch_tagged emails batch_size Hpos Hobj)
        as (records & -> & _).
      done.
  - intros -> Hne. by destruct emails.
  - intros Hneg. unfold extract_insights_batch. destruct emails; [done|].
    destruct (Z.eqb_spec batch_size 0); [lia|].
    by destruct (Z.ltb_spec batch_size 0); [|lia].
  - by intros ->.
Qed.

End WithRuntime.

(** Without a model every email goes through the rule-based extractor: one
    record per email, in input order, tagged with the id of its email. *)
Lemma extract_insights_batch_without_model `{PyRuntime} (today : string)
    (emails : list Email) (batch_size : Z) :
  (0 < batch_size)%Z →
  extract_insights_batch None today emails batch_size
    = Ok (map (fallback_record today) emails).
Proof.
  intros Hpos. unfold extract_insights_batch.
  destruct emails as [|email rest]; [done|].
  destruct (Z.eqb_spec batch_size 0); [lia|].
  destruct (Z.ltb_spec batch_size 0); [lia|].
  generalize (email :: rest). intros l.
  rewrite (for_each_ok _ (map (fallback_record today))).
  - unfold rbind. rewrite <- concat_map. rewrite concat_chunks; [done|lia].
  - intros batch _. unfold process_one_batch.
    apply for_each_ok. intros e _. done.
Qed.

Lemma setitem_non_object (v k : pyval) (key : string) :
  (∀ d, v ≠ VDict d) → is_ok (py_setitem v key k) = false.
Proof. intros Hv. destruct v; try done. by destruct (Hv d). Qed.

(** C4. Let a model be set whose group call fails and whose per-email
    answers decode to something that is not a JSON object (a list, a string,
    a number, [null]).  Then [extract_insights_batch] raises on every
    non-empty input, for every positive batch size, instead of returning one
    record per email: the replay in [_process_batch_with_ai] gets the answer
    back from [extract_financial_insights] and fails on
    [result['email_id'] = ...] inside the [except] block, and the replay in
    the [except] block of [extract_insights_batch] fails the same way with
    nothing left to catch it. *)
Theorem extract_insights_batch_non_object_reply `{PyRuntime} (today : string)
    (ai : AIModel) (email : Email) (rest : list Email) (batch_size : Z) :
  (0 < batch_size)%Z →
  (∀ group, is_ok (generate_batch ai group) = false) →
  (∀ content sender subj, ∃ v,
     generate_single ai content sender subj = Ok v ∧ ∀ d, v ≠ VDict d) →
  is_ok (extract_insights_batch (Some ai) today (email :: rest) batch_size) = false.
Proof.
  intros Hpos Hbatch Hsingle. unfold extract_insights_batch.
  destruct (Z.eqb_spec batch_size 0) as [?|_]; [lia|].
  destruct (Z.ltb_spec batch_size 0) as [?|_]; [lia|].
  destruct (Z.to_nat batch_size) as [|n] eqn:En; [lia|].
  rewrite chunks_cons. cbn [take for_each].
  assert (is_ok (extract_and_tag (Some ai) today email) = false) as Htag.
  { unfold extract_and_tag, extract_financial_insights.
    destruct (Hsingle (bodyText email) (from email) (subject email))
      as (v & -> & Hv).
    by apply setitem_non_object. }
  assert (is_ok (process_one_batch (Some ai) today (email :: take n rest)) = false)
    as Hone.
  { unfold process_one_batch, _process_batch_with_ai.
    specialize (Hbatch (email :: take n rest)).
    destruct (generate_batch ai (email :: take n rest)); [done|].
    cbn [rbind try_except for_each].
    by destruct (extract_and_tag (Some ai) today email). }
  by destruct (process_one_batch (Some ai) today (email :: take n rest)).
Qed.

End Extractor.

(** * analytics_service.py *)

Module Analytics.

Definition empty_spending : pyval := VDict [
  ("total_spending", VInt 0); ("category_breakdown", VDict []);
  ("monthly_trend", VDict []); ("top_merchants", VDict []);
  ("average_monthly_spending", VInt 0); ("highest_single_transaction", VInt 0)].

Definition empty_income : pyval := VDict [
  ("total_income", VInt 0); ("employers", VList []); ("pay_cycles", VDict []);
  ("monthly_income_trend", VDict []); ("average_monthly_income", VInt 0)].

(** The report of the [except] branch of [generate_comprehensive_insights]
    (lines 32 to 41): the default structure the file itself writes down. *)
Definition default_insights (n_extracted : nat) : pyval := VDict [
  ("spending_analysis", empty_spending);
  ("income_analysis", empty_income);
  ("subscription_analysis", VDict [
     ("active_subscriptions", VInt 0); ("monthly_recurring_cost", VInt 0);
     ("services", VList []); ("total_annual_cost", VInt 0)]);
  ("travel_analysis", VDict [
     ("total_trips", VInt 0); ("preferred_airlines", VList []);
     ("preferred_hotels", VList [])]);
  ("bills_analysis", VDict [
     ("total_bills", VInt 0); ("monthly_bill_amount", VInt 0);
     ("utility_breakdown", VDict [])]);
  ("investment_analysis", VDict [
     ("total_investments", VInt 0); ("platforms", VList []);
     ("instruments", VDict [])]);
  ("financial_health", VDict [
     ("savings_rate", VInt 0); ("subscription_to_spending_ratio", VInt 0);
     ("financial_health_score", VInt 50); ("monthly_surplus_deficit", VInt 0)]);
  ("summary", VDict [
     ("total_emails_analyzed", VInt n_extracted); ("financial_emails_found", VInt 0);
     ("transactions_extracted", VInt 0); ("income_entries_found", VInt 0);
     ("subscriptions_identified", VInt 0); ("analysis_date", VStr "2025-08-20")])].

Section WithFloats.
Context `{PyFloat}.

(** The loop of [_analyze_subscriptions]: the [services] list and the
    running [monthly_cost], a sum of floats. *)
Fixpoint subscriptions_loop (subscriptions services : list pyval) (monthly_cost : Q)
  : result (list pyval * Q) :=
  match subscriptions with
  | [] => Ok (services, monthly_cost)
  | sub :: rest =>
      service ← py_get sub "service" VNone;
      amount ← py_get sub "amount" (VInt 0);
      billing_cycle ← py_get sub "billing_cycle" VNone;
      next_billing ← py_get sub "next_billing" VNone;
      let service_info := VDict [
        ("service", service); ("amount", amount);
        ("billing_cycle", billing_cycle); ("next_billing", next_billing)] in
      cycle ← py_get sub "billing_cycle" (VStr "monthly");
      monthly_cost' ←
        (if py_eq_str cycle "yearly" then
           a ← as_number amount; Ok (fl_add monthly_cost (fl_div a 12))
         else if py_eq_str cycle "monthly" then
           a ← as_number amount; Ok (fl_add monthly_cost a)
         else if py_eq_str cycle "weekly" then
           a ← as_number amount;
           Ok (fl_add monthly_cost (fl_mul a (fl (433 # 100))))
         else Ok monthly_cost);
      subscriptions_loop rest (services ++ [service_info]) monthly_cost'
  end.

Definition _analyze_subscriptions (data : list pyval) : result pyval :=
  subscriptions ← truthy_entries "subscription" data;
  match subscriptions with
  | [] => Ok (VDict [
      ("active_subscriptions", VInt 0); ("monthly_recurring_cost", VInt 0);
      ("services", VList [])])
  | _ =>
      '(services, monthly_cost) ← subscriptions_loop subscriptions [] 0%Q;
      Ok (VDict [
        ("active_subscriptions", VInt (length subscriptions));
        ("monthly_recurring_cost", VNum (fl_round monthly_cost 2));
        ("services", VList services);
        ("total_annual_cost", VNum (fl_round (fl_mul monthly_cost 12) 2))])
  end.

Section WithBodies.
(** The statistics computed once a section has found entries (the code
    after each [if not ...: return] guard) and the timestamp
    [datetime.now().strftime('%Y-%m-%d %H:%M:%S')]. *)
Context (spending_stats income_stats travel_stats bills_stats investment_stats
           : list pyval → result pyval)
        (now : string).

Definition _analyze_spending (data : list pyval) : pyval :=
  let body :=
    transactions ← truthy_entries "transaction" data;
    expenses ← py_filter (λ t,
      if truthy t then
        ty ← py_get t "transaction_type" VNone;
        if py_eq_str ty "expense" then
          amount ← py_get t "amount" VNone; Ok (truthy amount)
        else Ok false
      else Ok false) transactions;
    match expenses with
    | [] => Ok empty_spending
    | _ => spending_stats expenses
    end in
  match body with Ok v => v | Raise _ => empty_spending end.

Definition _analyze_income (data : list pyval) : pyval :=
  let body :=
    income_data ← truthy_entries "income" data;
    match income_data with
    | [] => Ok empty_income
    | _ => income_stats income_data
    end in
  match body with Ok v => v | Raise _ => empty_income end.

Definition _analyze_travel (data : list pyval) : result pyval :=
  travel_data ← truthy_entries "travel" data;
  match travel_data with
  | [] => Ok (VDict [
      ("total_trips", VInt 0); ("preferred_airlines", VList []);
      ("preferred_hotels", VList [])])
  | _ => travel_stats travel_data
  end.

Definition _analyze_bills (data : list pyval) : result pyval :=
  bills_data ← truthy_entries "bills" data;
  match bills_data with
  | [] => Ok (VDict [
      ("total_bills", VInt 0); ("monthly_bill_amount", VInt 0);
      ("utility_breakdown", VDict [])])
  | _ => bills_stats bills_data
  end.

Definition _analyze_investments (data : list pyval) : result pyval :=
  investment_data ← truthy_entries "investment" data;
  match investment_data with
  | [] => Ok (VDict [
      ("total_investments", VInt 0); ("platforms", VList []);
      ("instruments", VDict [])])
  | _ => investment_stats investment_data
  end.

Definition _calculate_financial_health (data : list pyval) : result pyval :=
  let spending_analysis := _analyze_spending data in
  let income_analysis := _analyze_income data in
  subscription_analysis ← _analyze_subscriptions data;
  spending_v ← py_get spending_analysis "average_monthly_spending" (VInt 0);
  income_v ← py_get income_analysis "average_monthly_income" (VInt 0);
  subscriptions_v ← py_get subscription_analysis "monthly_recurring_cost" (VInt 0);
  avg_monthly_income ← as_number income_v;
  savings_rate ←
    (if Qlt_le_dec 0 avg_monthly_income then
       avg_monthly_spending ← as_number spending_v;
       Ok ((avg_monthly_income - avg_monthly_spending) / avg_monthly_income * 100)%Q
     else Ok 0%Q);
  avg_monthly_spending ← as_number spending_v;
  subscription_ratio ←
    (if Qlt_le_dec 0 avg_monthly_spending then
       monthly_subscriptions ← as_number subscriptions_v;
       Ok (monthly_subscriptions / avg_monthly_spending * 100)%Q
     else Ok 0%Q);
  let health_score := 50%Z in
  let health_score :=
    if Qlt_le_dec 20 savings_rate then (health_score + 20)%Z
    else if Qlt_le_dec 10 savings_rate then (health_score + 10)%Z
    else if Qlt_le_dec savings_rate 0 then (health_score - 20)%Z
    else health_score in
  let health_score :=
    if Qlt_le_dec subscription_ratio 10 then (health_score + 10)%Z
    else if Qlt_le_dec 25 subscription_ratio then (health_score - 10)%Z
    else health_score in
  let health_score := Z.max 0 (Z.min 100 health_score) in
  Ok (VDict [
    ("savings_rate", VNum (py_round savings_rate 1));
    ("subscription_to_spending_ratio", VNum (py_round subscription_ratio 1));
    ("financial_health_score", VNum (inject_Z health_score));
    ("monthly_surplus_deficit",
       VNum (py_round (avg_monthly_income - avg_monthly_spending) 2))]).

(** [len([d for d in data if d.get(key)])] *)
Definition count_truthy (key : string) (data : list pyval) : result nat :=
  kept ← py_filter (λ d, v ← py_get d key VNone; Ok (truthy v)) data;
  Ok (length kept).

Definition _generate_summary (data : list pyval) : result pyval :=
  financial_emails ← count_truthy "is_relevant" data;
  transactions ← count_truthy "transaction" data;
  income_entries ← count_truthy "income" data;
  subscriptions ← count_truthy "subscription" data;
  Ok (VDict [
    ("total_emails_analyzed", VInt (length data));
    ("financial_emails_found", VInt financial_emails);
    ("transactions_extracted", VInt transactions);
    ("income_entries_found", VInt income_entries);
    ("subscriptions_identified", VInt subscriptions);
    ("analysis_date", VStr now)]).

Definition generate_comprehensive_insights (extracted_data : list pyval) : pyval :=
  let body :=
    relevant_data ← py_filter (λ item,
      v ← py_get item "is_relevant" (VBool false); Ok (truthy v)) extracted_data;
    let spending := _analyze_spending relevant_data in
    let income := _analyze_income relevant_data in
    subscription ← _analyze_subscriptions relevant_data;
    travel ← _analyze_travel relevant_data;
    bills ← _analyze_bills relevant_data;
    investment ← _analyze_investments relevant_data;
    health ← _calculate_financial_health relevant_data;
    summary ← _generate_summary relevant_data;
    Ok (VDict [
      ("spending_analysis", spending);
      ("income_analysis", income);
      ("subscription_analysis", subscription);
      ("travel_analysis", travel);
      ("bills_analysis", bills);
      ("investment_analysis", investment);
      ("financial_health", health);
      ("summary", summary)]) in
  match body with
  | Ok insights => insights
  | Raise _ => default_insights (length extracted_data)
  end.

End WithBodies.

(** *** The report on an empty input *)

(** [report[section][key]], [None] when a key is absent. *)
Definition nested_get (report : pyval) (section key : string) : option pyval :=
  match report with
  | VDict d =>
      match assoc_get d section with
      | Some (VDict d') => assoc_get d' key
      | _ => None
      end
  | _ => None
  end.

(** C5. On the empty list the aggregation returns, without raising, a report
    with all eight sections; its spending section is the zero-value one
    ([total_spending = 0], [category_breakdown = {}]), but its subscription
    section has only three keys: [total_annual_cost], which the default
    structure of the same function lists with value 0, is absent. *)
Theorem aggregate_empty_report
    (spending_stats income_stats travel_stats bills_stats investment_stats
       : list pyval → result pyval) (now : string) :
  let report :=
    generate_comprehensive_insights spending_stats income_stats travel_stats
      bills_stats investment_stats now [] in
  report = VDict [
    ("spending_analysis", empty_spending);
    ("income_analysis", empty_income);
    ("subscription_analysis", VDict [
       ("active_subscriptions", VInt 0); ("monthly_recurring_cost", VInt 0);
       ("services", VList [])]);
    ("travel_analysis", VDict [
       ("total_trips", VInt 0); ("preferred_airlines", VList []);
       ("preferred_hotels", VList [])]);
    ("bills_analysis", VDict [
       ("total_bills", VInt 0); ("monthly_bill_amount", VInt 0);
       ("utility_breakdown", VDict [])]);
    ("investment_analysis", VDict [
       ("total_investments", VInt 0); ("platforms", VList []);
       ("instruments", VDict [])]);
    ("financial_health", VDict [
       ("savings_rate", VInt 0); ("subscription_to_spending_ratio", VInt 0);
       ("financial_health_score", VInt 60); ("monthly_surplus_deficit", VInt 0)]);
    ("summary", VDict [
       ("total_emails_analyzed", VInt 0); ("financial_emails_found", VInt 0);
       ("transactions_extracted", VInt 0); ("income_entries_found", VInt 0);
       ("subscriptions_identified", VInt 0); ("analysis_date", VStr now)])] ∧
  nested_get report "spending_analysis" "total_spending" = Some (VInt 0) ∧
  nested_get report "spending_analysis" "category_breakdown" = Some (VDict []) ∧
  nested_get report "subscription_analysis" "total_annual_cost" = None ∧
  nested_get (default_insights 0) "subscription_analysis" "total_annual_cost"
    = Some (VInt 0).
Proof. repeat split. Qed.

(** *** Subscription costs *)

(** A subscription entry is a JSON object of any shape; the loop reads its
    amount (0 when there is none) and its billing cycle (monthly when there
    is none). *)
Definition amount_of (sub : list (string * pyval)) : pyval :=
  default (VInt 0) (assoc_get sub "amount").

Definition cycle_of (sub : list (string * pyval)) : pyval :=
  default (VStr "monthly") (assoc_get sub "billing_cycle").

(** An insight record that carries the subscription entry [sub]. *)
Definition carries (record : pyval) (sub : list (string * pyval)) : Prop :=
  ∃ d, record = VDict d ∧ assoc_get d "subscription" = Some (VDict sub) ∧ sub ≠ [].

Definition insight_of (sub : list (string * pyval)) : pyval :=
  VDict [("subscription", VDict sub); ("is_relevant", VBool true)].

(** What an entry adds to the monthly cost, in the spec's words: yearly is
    amount/12, monthly is the amount, weekly is amount*4.33, and an entry
    with any other cycle adds nothing. *)
Inductive contributes (sub : list (string * pyval)) : option Q → Prop :=
| contributes_yearly (a : Q) :
    cycle_of sub = VStr "yearly" → as_number (amount_of sub) = Ok a →
    contributes sub (Some (fl_div a 12))
| contributes_monthly (a : Q) :
    cycle_of sub = VStr "monthly" → as_number (amount_of sub) = Ok a →
    contributes sub (Some a)
| contributes_weekly (a : Q) :
    cycle_of sub = VStr "weekly" → as_number (amount_of sub) = Ok a →
    contributes sub (Some (fl_mul a (fl (433 # 100))))
| contributes_nothing :
    py_eq_str (cycle_of sub) "yearly" = false →
    py_eq_str (cycle_of sub) "monthly" = false →
    py_eq_str (cycle_of sub) "weekly" = false →
    contributes sub None.

(** The sum of floats as a loop forms it: from 0, one addition after the
    other in the order of the list. *)
Definition add_to (total : Q) (part : option Q) : Q :=
  match part with
  | Some x => fl_add total x
  | None => total
  end.

Definition float_sum (parts : list (option Q)) : Q := fold_left add_to parts 0%Q.

(** A report field that holds a number. *)
Definition reported (subs : list (list (string * pyval))) (key : string)
  : option Q :=
  match _analyze_subscriptions (map insight_of subs) with
  | Ok (VDict d) =>
      match assoc_get d key with Some (VNum q) => Some q | _ => None end
  | _ => None
  end.

(** The reading of the two cost fields without any rounding to cents: the
    monthly figure is the sum of what the entries add and the annual figure
    is twelve times the monthly figure. *)
Definition costs_without_rounding (subs : list (list (string * pyval))) : Prop :=
  ∃ parts monthly annual,
    Forall2 contributes subs parts ∧
    reported subs "monthly_recurring_cost" = Some monthly ∧
    reported subs "total_annual_cost" = Some annual ∧
    (monthly == float_sum parts)%Q ∧
    (annual == fl_mul monthly 12)%Q.

(** The entry of the [services] list. *)
Definition service_info_of (sub : list (string * pyval)) : pyval := VDict [
  ("service", default VNone (assoc_get sub "service"));
  ("amount", amount_of sub);
  ("billing_cycle", default VNone (assoc_get sub "billing_cycle"));
  ("next_billing", default VNone (assoc_get sub "next_billing"))].

Lemma truthy_entries_carried (data : list pyval)
    (subs : list (list (string * pyval))) :
  Forall2 carries data subs →
  truthy_entries "subscription" data = Ok (map VDict subs).
Proof.
  intros Hdata. unfold truthy_entries.
  assert (py_filter (λ item, v ← py_get item "subscription" VNone; Ok (truthy v))
            data = Ok data) as ->.
  { induction Hdata as [|record sub data subs (d & -> & Hd & Hne) _ IH]; [done|].
    cbn [py_filter py_get]. rewrite Hd, IH. by destruct sub. }
  cbn [mbind result_bind rbind].
  induction Hdata as [|record sub data subs (d & -> & Hd & Hne) _ IH]; [done|].
  cbn [for_each py_get map]. rewrite Hd, IH. done.
Qed.

Lemma subscriptions_loop_total (subs : list (list (string * pyval)))
    (parts : list (option Q)) (services : list pyval) (total : Q) :
  Forall2 contributes subs parts →
  subscriptions_loop (map VDict subs) services total
  = Ok (services ++ map service_info_of subs, fold_left add_to parts total).
Proof.
  intros Hparts. revert services total.
  induction Hparts as [|sub part subs parts Hpart _ IH]; intros services total.
  { cbn. by rewrite app_nil_r. }
  assert (∀ total', subscriptions_loop (map VDict subs)
                       (services ++ [service_info_of sub]) total'
                     = Ok (services ++ map service_info_of (sub :: subs),
                           fold_left add_to parts total')) as Hrest.
  { intros total'. rewrite IH. by rewrite <- app_assoc. }
  clear IH. cbn [map fold_left subscriptions_loop py_get mbind result_bind rbind].
  change (match assoc_get sub "amount" with Some v => v | None => VInt 0 end)
    with (amount_of sub).
  change (match assoc_get sub "billing_cycle" with
          | Some v => v | None => VStr "monthly" end)
    with (cycle_of sub).
  change (match assoc_get sub "service" with Some v => v | None => VNone end)
    with (default VNone (assoc_get sub "service")).
  change (match assoc_get sub "billing_cycle" with Some v => v | None => VNone end)
    with (default VNone (assoc_get sub "billing_cycle")).
  change (match assoc_get sub "next_billing" with Some v => v | None => VNone end)
    with (default VNone (assoc_get sub "next_billing")).
  fold (service_info_of sub).
  destruct Hpart as [a Hc Ha|a Hc Ha|a Hc Ha|Hy Hm Hw].
  - rewrite Hc, Ha. cbn. apply Hrest.
  - rewrite Hc, Ha. cbn. apply Hrest.
  - rewrite Hc, Ha. cbn. apply Hrest.
  - rewrite Hy, Hm, Hw. cbn. apply Hrest.
Qed.

End WithFloats.



(** *** The shape of every report *)

Section Reports.
Context `{PyFloat}.
Context (spending_stats income_stats travel_stats bills_stats investment_stats
           : list pyval → result pyval)
        (now : string).

#[local] Abbreviation report_of data :=
  (generate_comprehensive_insights spending_stats income_stats travel_stats
     bills_stats investment_stats now data).
#[local] Abbreviation health_of data :=
  (_calculate_financial_health spending_stats income_stats data).

(** The filter [item.get('is_relevant', False)] of the first line. *)
Definition is_relevant (item : pyval) : result bool :=
  v ← py_get item "is_relevant" (VBool false); Ok (truthy v).

Definition section_names : list string :=
  ["spending_analysis"; "income_analysis"; "subscription_analysis";
   "travel_analysis"; "bills_analysis"; "investment_analysis";
   "financial_health"; "summary"].

Ltac step_bind :=
  match goal with
  | |- mbind _ ?m = Ok _ → _ =>
      let E := fresh "E" in
      destruct m eqn:E; cbn [mbind result_bind rbind]; [|done]
  end.

Lemma health_score_bounds (data : list pyval) (health : pyval) :
  health_of data = Ok health →
  ∃ rate ratio score surplus,
    health = VDict [
      ("savings_rate", VNum rate);
      ("subscription_to_spending_ratio", VNum ratio);
      ("financial_health_score", VNum (inject_Z score));
      ("monthly_surplus_deficit", VNum surplus)] ∧
    (20 ≤ score ≤ 80)%Z.
Proof.
  unfold _calculate_financial_health. cbv zeta.
  repeat step_bind. intros [= <-]. eexists _, _, _, _. split; [reflexivity|].
  repeat match goal with
         | |- context [Qlt_le_dec ?a ?b] => destruct (Qlt_le_dec a b)
         end; lia.
Qed.

(** Either every section was computed from the relevant records, or the
    report is the default one. *)
Lemma report_cases (extracted_data : list pyval) :
  report_of extracted_data = default_insights (length extracted_data) ∨
  ∃ relevant_data subscription travel bills investment health summary,
    py_filter is_relevant extracted_data = Ok relevant_data ∧
    _analyze_subscriptions relevant_data = Ok subscription ∧
    health_of relevant_data = Ok health ∧
    _generate_summary now relevant_data = Ok summary ∧
    report_of extracted_data = VDict [
      ("spending_analysis", _analyze_spending spending_stats relevant_data);
      ("income_analysis", _analyze_income income_stats relevant_data);
      ("subscription_analysis", subscription);
      ("travel_analysis", travel);
      ("bills_analysis", bills);
      ("investment_analysis", investment);
      ("financial_health", health);
      ("summary", summary)].
Proof.
  unfold generate_comprehensive_insights. fold is_relevant.
  destruct (py_filter is_relevant extracted_data) as [relevant_data|e] eqn:Ef;
    cbn [mbind result_bind rbind]; [|by left].
  destruct (_analyze_subscriptions relevant_data) as [subscription|e] eqn:Es;
    cbn [mbind result_bind rbind]; [|by left].
  destruct (_analyze_travel travel_stats relevant_data) as [travel|e];
    cbn [mbind result_bind rbind]; [|by left].
  destruct (_analyze_bills bills_stats relevant_data) as [bills|e];
    cbn [mbind result_bind rbind]; [|by left].
  destruct (_analyze_investments investment_stats relevant_data) as [investment|e];
    cbn [mbind result_bind rbind]; [|by left].
  destruct (health_of relevant_data) as [health|e] eqn:Eh;
    cbn [mbind result_bind rbind]; [|by left].
  destruct (_generate_summary now relevant_data) as [summary|e] eqn:Eg;
    cbn [mbind result_bind rbind]; [|by left].
  right. exists relevant_data, subscription, travel, bills, investment, health, summary.
  split_and!; [reflexivity|exact Es|exact Eh|exact Eg|reflexivity].
Qed.

(** X16. Whatever the extracted records are, the report is an object with
    the same eight sections in the same order, and the financial health
    score in it is a whole number between 20 and 80: the clamp to 0..100
    of the source never applies. *)
Theorem report_sections_and_score (extracted_data : list pyval) :
  ∃ sections score,
    report_of extracted_data = VDict sections ∧
    map fst sections = section_names ∧
    nested_get (report_of extracted_data) "financial_health" "financial_health_score"
      = Some (VNum (inject_Z score)) ∧
    (20 ≤ score ≤ 80)%Z.
Proof.
  destruct (report_cases extracted_data)
    as [->|(relevant_data & subscription & travel & bills & investment & health
            & summary & _ & _ & Hhealth & _ & ->)].
  - eexists _, 50%Z. split_and!; [reflexivity..|lia|lia].
  - apply health_score_bounds in Hhealth
      as (rate & ratio & score & surplus & -> & Hscore).
    eexists _, score. split_and!; [reflexivity..|lia|lia].
Qed.

Lemma filter_raises_on_non_object (items : list pyval) :
  Exists (λ item, ∀ d, item ≠ VDict d) items →
  ∃ e, py_filter is_relevant items = Raise e.
Proof.
  induction items as [|item items IH]; intros Hex.
  { by apply Exists_nil in Hex. }
  cbn [py_filter].
  destruct item as [| | | | |d];
    try (eexists; reflexivity).
  apply Exists_cons in Hex as [Hd|Hex]; [by destruct (Hd d)|].
  destruct (IH Hex) as (e & ->). cbn. by eexists.
Qed.

(** X17. One record that is not an object (a list, a string, a number,
    [None]) anywhere in the extracted data makes the whole report the
    default one: all sections at their zero values, the health score at 50,
    the number of emails analyzed the length of the input, and the analysis
    date the fixed string "2025-08-20". *)
Theorem non_object_record_gives_default (extracted_data : list pyval) :
  Exists (λ item, ∀ d, item ≠ VDict d) extracted_data →
  report_of extracted_data = default_insights (length extracted_data).
Proof.
  intros (e & He)%filter_raises_on_non_object.
  unfold generate_comprehensive_insights. fold is_relevant. by rewrite He.
Qed.

Lemma filter_relevant_kept (items kept : list pyval) :
  py_filter is_relevant items = Ok kept →
  Forall (λ item, ∃ d, item = VDict d ∧ is_relevant item = Ok true) kept ∧
  sublist kept items.
Proof.
  revert kept. induction items as [|item items IH]; intros kept; cbn [py_filter].
  { intros [= <-]. split; constructor. }
  destruct (is_relevant item) as [keep|] eqn:Ekeep;
    cbn [mbind result_bind rbind]; [|done].
  destruct (py_filter is_relevant items) as [rest|];
    cbn [mbind result_bind rbind]; [|done].
  destruct (IH rest eq_refl) as [Hall Hsub].
  intros [= <-]. destruct keep.
  - split; [|by constructor]. constructor; [|done].
    destruct item; try done. by eexists.
  - split; [done|by constructor].
Qed.

Lemma count_truthy_objects (key : string) (items : list pyval) :
  Forall (λ item, ∃ d, item = VDict d) items →
  ∃ n, count_truthy key items = Ok n ∧ n ≤ length items.
Proof.
  intros Hall. unfold count_truthy.
  assert (∃ kept, py_filter (λ d, v ← py_get d key VNone; Ok (truthy v)) items
                  = Ok kept ∧ length kept ≤ length items) as (kept & -> & Hlen).
  { induction Hall as [|item items (d & ->) _ (kept & IH & Hlen)]; [by exists []|].
    cbn [py_filter py_get mbind result_bind rbind]. rewrite IH.
    cbn [mbind result_bind rbind].
    eexists. split; [reflexivity|].
    destruct (truthy _); cbn [length]; lia. }
  by exists (length kept).
Qed.

Lemma count_relevant_all (items : list pyval) :
  Forall (λ item, ∃ d, item = VDict d ∧ is_relevant item = Ok true) items →
  count_truthy "is_relevant" items = Ok (length items).
Proof.
  intros Hall. unfold count_truthy.
  assert (py_filter (λ d, v ← py_get d "is_relevant" VNone; Ok (truthy v)) items
          = Ok items) as ->; [|done].
  induction Hall as [|item items (d & -> & Hrel) _ IH]; [done|].
  cbn [py_filter]. rewrite IH.
  revert Hrel. unfold is_relevant.
  cbn [py_get mbind result_bind rbind].
  destruct (assoc_get d "is_relevant") as [v|]; [|done].
  by intros [= ->].
Qed.

(** X18. When the report is not the default one, its summary counts only
    the records marked relevant: [total_emails_analyzed] and
    [financial_emails_found] are both the number of relevant records, not
    the number of records given, and no other count exceeds it. *)
Theorem summary_counts_relevant_only (extracted_data relevant_data : list pyval) :
  py_filter is_relevant extracted_data = Ok relevant_data →
  ∃ transactions income_entries subscriptions,
    _generate_summary now relevant_data = Ok (VDict [
      ("total_emails_analyzed", VInt (length relevant_data));
      ("financial_emails_found", VInt (length relevant_data));
      ("transactions_extracted", VInt transactions);
      ("income_entries_found", VInt income_entries);
      ("subscriptions_identified", VInt subscriptions);
      ("analysis_date", VStr now)]) ∧
    length relevant_data ≤ length extracted_data ∧
    transactions ≤ length relevant_data ∧
    income_entries ≤ length relevant_data ∧
    subscriptions ≤ length relevant_data.
Proof.
  intros [Hall Hsub]%filter_relevant_kept.
  assert (Forall (λ item, ∃ d, item = VDict d) relevant_data) as Hobj.
  { eapply Forall_impl; [exact Hall|]. intros item (d & -> & _). by eexists. }
  destruct (count_truthy_objects "transaction" relevant_data Hobj) as (t & Ht & Hlt).
  destruct (count_truthy_objects "income" relevant_data Hobj) as (i & Hi & Hli).
  destruct (count_truthy_objects "subscription" relevant_data Hobj) as (s & Hs & Hls).
  exists t, i, s. unfold _generate_summary.
  rewrite (count_relevant_all relevant_data Hall), Ht, Hi, Hs.
  split_and!; [done| |done..]. by apply sublist_length.
Qed.

End Reports.

End Analytics.

(** * transaction_extractor.py *)

Module TransactionExtractor.

(** [self.merchant_patterns], in the order of the dict. *)
Definition merchant_patterns : list (string * string) := [
  ("swiggy", "(?i)swiggy"); ("zomato", "(?i)zomato"); ("amazon", "(?i)amazon");
  ("flipkart", "(?i)flipkart"); ("paytm", "(?i)paytm"); ("uber", "(?i)uber");
  ("ola", "(?i)ola"); ("myntra", "(?i)myntra"); ("bigbasket", "(?i)bigbasket");
  ("phonepe", "(?i)phonepe"); ("gpay", "(?i)google pay|gpay")
].

Definition amount_patterns : list string := [
  "(?:₹|INR|Rs\.?)\s*([0-9,]+(?:\.[0-9]{2})?)";
  "(?:\$|USD)\s*([0-9,]+(?:\.[0-9]{2})?)";
  "(?:€|EUR)\s*([0-9,]+(?:\.[0-9]{2})?)";
  "([0-9,]+(?:\.[0-9]{2})?)\s*(?:₹|INR|Rs\.?)";
  "(?:amount|total|paid|charged).*?(?:₹|INR|Rs\.?)\s*([0-9,]+(?:\.[0-9]{2})?)";
  "(?:₹|INR|Rs\.?)\s*([0-9,]+)"
].

Definition transaction_keywords : list string := [
  "order"; "payment"; "invoice"; "receipt"; "transaction"; "purchase";
  "charged"; "paid"; "booking"; "confirmation"; "bill"; "checkout"
].

Definition category_mapping : list (string * string) := [
  ("swiggy", "Food"); ("zomato", "Food"); ("amazon", "Shopping");
  ("flipkart", "Shopping"); ("myntra", "Shopping"); ("bigbasket", "Groceries");
  ("uber", "Transportation"); ("ola", "Transportation");
  ("paytm", "Digital Wallet"); ("phonepe", "Digital Wallet");
  ("gpay", "Digital Wallet")
].

(** The dict [extract_transactions] appends, one field per key. *)
Record Transaction := {
  merchant : string;
  amount : Q;
  date : string;
  category : string;
  email_id : string;
  confidence : Q;
}.

Section WithRuntime.
Context `{PyRuntime}.
(** [re.search(pattern, s)] without flags, [s.title()], and the two methods
    left to the runtime: [_extract_date] (dates and the clock) and
    [_calculate_confidence] (sums of binary floats). *)
Context (re_search_exact : string → string → bool)
        (str_title : string → string)
        (_extract_date : Email → string)
        (_calculate_confidence : string → Q → string → Q).

Definition _is_transaction_email (email : Email) : bool :=
  let text := str_lower (subject email +:+ " " +:+ bodyText email) in
  existsb (λ keyword, str_in keyword text) transaction_keywords
  || existsb (λ pattern, re_search_exact pattern text) amount_patterns.

(** The loop over [merchant_patterns.items()] with [re.search]. *)
Fixpoint first_pattern_merchant (table : list (string * string)) (text : string)
  : option string :=
  match table with
  | [] => None
  | (name, pattern) :: rest =>
      if re_search_exact pattern text then Some (str_title name)
      else first_pattern_merchant rest text
  end.

(** The loop over [merchant_patterns.keys()] with [merchant in domain]. *)
Fixpoint first_domain_merchant (table : list (string * string)) (domain : string)
  : option string :=
  match table with
  | [] => None
  | (name, _) :: rest =>
      if str_in name domain then Some (str_title name)
      else first_domain_merchant rest domain
  end.

Definition _extract_merchant (email : Email) : option string :=
  let text := subject email +:+ " " +:+ bodyText email +:+ " " +:+ from email in
  match first_pattern_merchant merchant_patterns text with
  | Some name => Some name
  | None =>
      let from_domain :=
        match re_search_group1 "@([^.]+)" (from email) with
        | Some g => first_domain_merchant merchant_patterns (str_lower g)
        | None => None
        end in
      match from_domain with
      | Some name => Some name
      | None =>
          match re_findall false "\b[A-Z][a-z]+\b" (subject email) with
          | word :: _ => Some word
          | [] => None
          end
      end
  end.

(** The inner loop [for match in matches], with its [try ... except
    ValueError: continue]. *)
Fixpoint first_reasonable (matches : list string) : option Q :=
  match matches with
  | [] => None
  | found :: rest =>
      match py_float (str_remove comma found) with
      | Some amount =>
          if Qle_bool 1 amount && Qle_bool amount 1000000 then Some amount
          else first_reasonable rest
      | None => first_reasonable rest
      end
  end.

(** The outer loop [for pattern in self.amount_patterns]. *)
Fixpoint first_amount (patterns : list string) (text : string) : option Q :=
  match patterns with
  | [] => None
  | pattern :: rest =>
      match first_reasonable (re_findall true pattern text) with
      | Some amount => Some amount
      | None => first_amount rest text
      end
  end.

Definition _extract_amount (email : Email) : option Q :=
  first_amount amount_patterns (subject email +:+ " " +:+ bodyText email).

(** [mapping.get(key)] on a dict of strings. *)
Fixpoint mapping_get (mapping : list (string * string)) (key : string)
  : option string :=
  match mapping with
  | [] => None
  | (k, v) :: rest => if String.eqb k key then Some v else mapping_get rest key
  end.

Definition _get_category (merchant : string) : string :=
  match mapping_get category_mapping (str_lower merchant) with
  | Some category => category
  | None => "Other"
  end.

Definition extract_transactions (email : Email) : list Transaction :=
  if negb (_is_transaction_email email) then []
  else
    match _extract_merchant email with
    | None => []
    | Some merchant =>
        if String.eqb merchant "" then []
        else
          match _extract_amount email with
          | None => []
          | Some amount =>
              if Qeq_bool amount 0 then []
              else
                let date := _extract_date email in
                [{| merchant := merchant;
                    amount := amount;
                    date := date;
                    category := _get_category merchant;
                    email_id := msg_id email;
                    confidence := _calculate_confidence merchant amount date |}]
          end
    end.

(** *** The amount *)

(** An amount one of the patterns finds in [text] and [float] can read. *)
Definition detected (text : string) (amount : Q) : Prop :=
  ∃ pattern found,
    pattern ∈ amount_patterns ∧
    found ∈ re_findall true pattern text ∧
    py_float (str_remove comma found) = Some amount.

Definition reasonable (amount : Q) : Prop :=
  (1 <= amount)%Q ∧ (amount <= 1000000)%Q.

Lemma first_reasonable_some (matches : list string) (amount : Q) :
  first_reasonable matches = Some amount →
  reasonable amount ∧
  ∃ found, found ∈ matches ∧ py_float (str_remove comma found) = Some amount.
Proof.
  induction matches as [|found rest IH]; cbn [first_reasonable]; [done|].
  destruct (py_float (str_remove comma found)) as [a|] eqn:Ea.
  - destruct (Qle_bool 1 a && Qle_bool a 1000000) eqn:E.
    + intros [= <-]. apply andb_prop in E as [E1%Qle_bool_iff E2%Qle_bool_iff].
      split; [done|]. exists found. split; [left|done].
    + intros (Hr & f & Hf & Hfa)%IH. split; [done|]. exists f. split; [by right|done].
  - intros (Hr & f & Hf & Hfa)%IH. split; [done|]. exists f. split; [by right|done].
Qed.

Lemma first_reasonable_none (matches : list string) :
  first_reasonable matches = None ↔
  ∀ found amount, found ∈ matches →
    py_float (str_remove comma found) = Some amount → ¬ reasonable amount.
Proof.
  induction matches as [|found rest IH]; cbn [first_reasonable].
  { split; [|done]. intros _ f a Hf. by apply elem_of_nil in Hf. }
  destruct (py_float (str_remove comma found)) as [a|] eqn:Ea.
  - destruct (Qle_bool 1 a && Qle_bool a 1000000) eqn:E.
    + split; [done|]. intros Hall. exfalso.
      apply andb_prop in E as [E1%Qle_bool_iff E2%Qle_bool_iff].
      apply (Hall found a); [left|done|done].
    + rewrite IH. split.
      * intros Hall f b [->|Hf]%elem_of_cons Hb; [|by eapply Hall].
        assert (b = a) as -> by congruence.
        intros [H1%Qle_bool_iff H2%Qle_bool_iff]. by rewrite H1, H2 in E.
      * intros Hall f b Hf. apply Hall. by right.
  - rewrite IH. split.
    + intros Hall f b [->|Hf]%elem_of_cons Hb; [congruence|by eapply Hall].
    + intros Hall f b Hf. apply Hall. by right.
Qed.

Lemma first_amount_some (patterns : list string) (text : string) (amount : Q) :
  first_amount patterns text = Some amount →
  reasonable amount ∧
  ∃ pattern found,
    pattern ∈ patterns ∧ found ∈ re_findall true pattern text ∧
    py_float (str_remove comma found) = Some amount.
Proof.
  induction patterns as [|pattern rest IH]; cbn [first_amount]; [done|].
  destruct (first_reasonable (re_findall true pattern text)) as [a|] eqn:Ea.
  - intros [= <-]. apply first_reasonable_some in Ea as (Hr & f & Hf & Hfa).
    split; [done|]. exists pattern, f. split_and!; [left|done|done].
  - intros (Hr & p & f & Hp & Hf & Hfa)%IH. split; [done|].
    exists p, f. split_and!; [by right|done|done].
Qed.

Lemma first_amount_none (patterns : list string) (text : string) :
  first_amount patterns text = None ↔
  ∀ pattern found amount,
    pattern ∈ patterns → found ∈ re_findall true pattern text →
    py_float (str_remove comma found) = Some amount → ¬ reasonable amount.
Proof.
  induction patterns as [|pattern rest IH]; cbn [first_amount].
  { split; [|done]. intros _ p f a Hp. by apply elem_of_nil in Hp. }
  destruct (first_reasonable (re_findall true pattern text)) as [a|] eqn:Ea.
  - split; [done|]. intros Hall. exfalso.
    apply first_reasonable_some in Ea as (Hr & f & Hf & Hfa).
    apply (Hall pattern f a); [left|done|done|done].
  - rewrite IH. rewrite first_reasonable_none in Ea. split.
    + intros Hall p f b [->|Hp]%elem_of_cons Hf Hb; [by eapply Ea|by eapply Hall].
    + intros Hall p f b Hp. apply Hall. by right.
Qed.

(** X19. The amount of the transaction extractor: a returned amount is one
    that some pattern detects in the subject and body and lies between 1 and
    1000000; and no amount is returned exactly when every detected amount
    lies outside that range: every match of every pattern is tried, so one
    reasonable amount anywhere is enough. *)
Theorem extract_amount_complete (email : Email) :
  let text := subject email +:+ " " +:+ bodyText email in
  (∀ amount, _extract_amount email = Some amount →
     reasonable amount ∧ detected text amount) ∧
  (_extract_amount email = None ↔
     ∀ amount, detected text amount → ¬ reasonable amount).
Proof.
  intros text. unfold _extract_amount. fold text. split.
  - intros amount. apply first_amount_some.
  - rewrite first_amount_none. unfold detected. split.
    + intros Hall amount (p & f & Hp & Hf & Ha). by eapply Hall.
    + intros Hall p f a Hp Hf Ha. apply Hall. by exists p, f.
Qed.

(** X20. [extract_transactions] returns at most one transaction per email,
    and none unless the email passes the transaction check; a returned
    transaction carries the id of the email, the merchant and the amount the
    two extractors gave, a merchant that is not empty, an amount between 1
    and 1000000 and the category of its merchant. *)
Theorem extract_transactions_at_most_one (email : Email) :
  extract_transactions email = [] ∨
  ∃ t,
    extract_transactions email = [t] ∧
    _is_transaction_email email = true ∧
    _extract_merchant email = Some (merchant t) ∧ merchant t ≠ "" ∧
    _extract_amount email = Some (amount t) ∧ reasonable (amount t) ∧
    email_id t = msg_id email ∧
    category t = _get_category (merchant t) ∧
    date t = _extract_date email.
Proof.
  unfold extract_transactions.
  destruct (_is_transaction_email email); cbn [negb]; [|by left].
  destruct (_extract_merchant email) as [m|]; [|by left].
  destruct (String.eqb_spec m ""); [by left|].
  destruct (_extract_amount email) as [a|] eqn:Ea; [|by left].
  destruct (Qeq_bool a 0); [by left|].
  right. eexists. split; [reflexivity|]. cbn.
  apply first_amount_some in Ea as [Hr _]. by split_and!.
Qed.

End WithRuntime.

End TransactionExtractor.

(** * async_processor.py *)

Module Processor.

Import Classifier.

(** One entry of [self.jobs].  The key [updated_at] appears with the first
    update; [results] is [None] or the final dict. *)
Record Job := {
  status : string;
  progress : Q;
  total : Z;
  current_step : string;
  start_time : string;
  updated_at : option string;
  results : pyval;
  error : option string;
}.

(** The state the processor runs in: the job dictionary, the number of times
    the clock has been read, and a log of every record written into the
    dictionary by an update, oldest first.  The log is not in the sources;
    it is kept so that statements can speak about the sequence of writes. *)
Record World := {
  jobs : gmap string Job;
  clock : nat;
  history : list (string * Job);
}.

(** Computations that read and write the world and may raise. *)
Definition M (A : Type) : Type := World → result A * World.

#[global] Instance M_ret : MRet M := λ A a w, (Ok a, w).
#[global] Instance M_bind : MBind M := λ A B k m w,
  match m w with
  | (Ok a, w') => k a w'
  | (Raise e, w') => (Raise e, w')
  end.

Definition lift {A} (r : result A) : M A := λ w, (r, w).

(** The collaborators handed to [start_processing_job]; each call returns or
    raises.  Raw emails are the dicts of the mail API. *)
Record Collaborators := {
  fetch_emails_last_6_months : result (list pyval);
  parse_email : pyval → result Email;
  classify_emails_batch : list Email → result Classified;
  get_classification_stats : Classified → result Stats;
  extract_insights_batch : list Email → Z → result (list pyval);
  generate_comprehensive_insights : list pyval → result pyval;
}.

Definition stats_dict (stats : Stats) : pyval := VDict [
  ("total_emails", VInt (total_emails stats));
  ("definitely_financial", VInt (n_definitely_financial stats));
  ("maybe_financial", VInt (n_maybe_financial stats));
  ("probably_not", VInt (n_probably_not stats));
  ("will_process_with_ai", VInt (will_process_with_ai stats));
  ("ai_processing_reduction", VNum (ai_processing_reduction stats))].

Definition opt_truthy (o : option string) : bool :=
  match o with Some s => negb (String.eqb s "") | None => false end.

Definition batch_size : nat := 5.
Definition max_concurrent_batches : nat := 3.

Section WithEnvironment.
(** The clock: the text of [datetime.now().isoformat()] and the number of
    [datetime.now().timestamp()] at its n-th reading, and the number
    [datetime.fromisoformat(s).timestamp()] reads back from a text. *)
Context (isoformat : nat → string) (timestamp : nat → Q) (fromisoformat : string → Q).
Context (collab : Collaborators).

Definition now : M string := λ w,
  (Ok (isoformat (clock w)),
   {| jobs := jobs w; clock := S (clock w); history := history w |}).

(** [uuid.uuid4()] is the argument [job_id]; the background task the
    function schedules is [_process_emails_async] below. *)
Definition start_processing_job (job_id : string) : M string := λ w,
  (Ok job_id,
   {| jobs := <[job_id := {| status := "starting"; progress := 0; total := 0;
                             current_step := "Initializing...";
                             start_time := isoformat (clock w);
                             updated_at := None; results := VNone;
                             error := None |}]> (jobs w);
      clock := S (clock w);
      history := history w |}).

(** [progress = None] is what the warning update passes; [round(None, 1)]
    raises while the argument of [update] is being built, before anything is
    written. *)
Definition _update_job (job_id status : string) (progress : option Q)
    (current_step : string) (results : pyval) (error : option string) : M unit := λ w,
  match jobs w !! job_id with
  | None => (Ok (), w)
  | Some job =>
      match progress with
      | None =>
          (Raise (TypeError "type NoneType doesn't define __round__ method"), w)
      | Some p =>
          let job' :=
            {| status := status;
               progress := py_round p 1;
               total := total job;
               current_step := current_step;
               start_time := start_time job;
               updated_at := Some (isoformat (clock w));
               results := if truthy results then results else Processor.results job;
               error := if opt_truthy error then error else Processor.error job |} in
          (Ok (),
           {| jobs := <[job_id := job']> (jobs w);
              clock := S (clock w);
              history := history w ++ [(job_id, job')] |})
      end
  end.

Definition get_job_status (w : World) (job_id : string) : option Job :=
  jobs w !! job_id.

Definition is_terminal (job : Job) : bool :=
  bool_decide (status job ∈ ["completed"; "failed"]).

Definition cleanup_old_jobs (max_age_hours : Z) : M unit := λ w,
  let cutoff_time := (timestamp (clock w) - inject_Z max_age_hours * 3600)%Q in
  let expired (job : Job) : bool :=
    match Qlt_le_dec (fromisoformat (start_time job)) cutoff_time with
    | left _ => is_terminal job
    | right _ => false
    end in
  (Ok (),
   {| jobs := filter (λ kv, expired kv.2 = false) (jobs w);
      clock := S (clock w);
      history := history w |}).

(** [_process_batch_async]: the extractor runs on the batch with
    [batch_size=len(batch)]; any exception is wrapped in a new one. *)
Definition _process_batch_async (batch : list Email) (batch_idx : nat)
  : result (list pyval) :=
  try_except
    (extract_insights_batch collab batch (Z.of_nat (length batch)))
    (λ e, Raise (Exn "Exception"
                   ("Batch " +:+ pretty batch_idx +:+ " processing failed: "
                    +:+ exn_str e))).

(** Step 2, the loop over [enumerate(emails)] from index [i] on. *)
Fixpoint parse_loop (job_id : string) (n_emails i : nat) (emails : list pyval)
    (parsed_emails : list Email) : M (list Email) :=
  match emails with
  | [] => mret parsed_emails
  | email :: rest =>
      parsed_email ← lift (parse_email collab email);
      (if (i mod 10 =? 0)%nat then
         ratio ← lift (py_div (Qnat i) (Qnat n_emails));
         _update_job job_id "running" (Some (20 + ratio * 30)%Q)
           ("Parsing emails... " +:+ pretty (i + 1)%nat +:+ "/" +:+ pretty n_emails)
           VNone None
       else mret ());;
      parse_loop job_id n_emails (S i) rest (parsed_emails ++ [parsed_email])
  end.

(** The loop over what [asyncio.gather(..., return_exceptions=True)] gives
    back for one chunk, in task order. *)
Fixpoint collect_results (job_id : string) (batch_results : list (result (list pyval)))
    (extracted_data : list pyval) : M (list pyval) :=
  match batch_results with
  | [] => mret extracted_data
  | Raise e :: rest =>
      _update_job job_id "running" None
        ("Warning: Batch processing error - " +:+ exn_str e) VNone None;;
      collect_results job_id rest extracted_data
  | Ok result :: rest =>
      collect_results job_id rest (extracted_data ++ result)
  end.

(** The loop over the chunks from [chunk_start] on. *)
Fixpoint chunk_loop (job_id : string) (n_batches n_relevant chunk_start : nat)
    (chunked : list (list (nat * list Email))) (extracted_data : list pyval)
  : M (list pyval) :=
  match chunked with
  | [] => mret extracted_data
  | chunk_batches :: rest =>
      let batch_results :=
        map (λ b : nat * list Email, _process_batch_async b.2 b.1) chunk_batches in
      extracted_data ← collect_results job_id batch_results extracted_data;
      let processed_emails :=
        (((chunk_start + max_concurrent_batches) `min` n_batches) * batch_size)%nat in
      let processed_emails := (processed_emails `min` n_relevant)%nat in
      ratio ← lift (py_div (Qnat processed_emails) (Qnat n_relevant));
      _update_job job_id "running" (Some (60 + ratio * 30)%Q)
        ("AI processing... " +:+ pretty processed_emails +:+ "/" +:+ pretty n_relevant
         +:+ " emails (parallel processing)") VNone None;;
      chunk_loop job_id n_batches n_relevant (chunk_start + max_concurrent_batches)
        rest extracted_data
  end.

(** The body of the [try] block. *)
Definition pipeline (job_id : string) : M unit :=
  _update_job job_id "running" (Some 10%Q)
    "Fetching ALL emails from Gmail (last 6 months)..." VNone None;;
  emails ← lift (fetch_emails_last_6_months collab);
  _update_job job_id "running" (Some 20%Q)
    ("Fetched " +:+ pretty (length emails) +:+ " emails. Parsing content...")
    VNone None;;
  parsed_emails ← parse_loop job_id (length emails) 0 emails [];
  _update_job job_id "running" (Some 50%Q) "Classifying emails by relevance..."
    VNone None;;
  classified ← lift (classify_emails_batch collab parsed_emails);
  stats ← lift (get_classification_stats collab classified);
  let relevant_emails := definitely_financial classified ++ maybe_financial classified in
  _update_job job_id "running" (Some 60%Q)
    ("Processing " +:+ pretty (length relevant_emails)
     +:+ " financial emails with AI... (Skipped " +:+ pretty (n_probably_not stats)
     +:+ " irrelevant emails)") VNone None;;
  let batches :=
    imap (λ k batch, ((k * batch_size)%nat, batch)) (chunks batch_size relevant_emails) in
  extracted_data ←
    chunk_loop job_id (length batches) (length relevant_emails) 0
      (chunks max_concurrent_batches batches) [];
  _update_job job_id "running" (Some 90%Q) "Generating comprehensive analytics..."
    VNone None;;
  analytics ← lift (generate_comprehensive_insights collab extracted_data);
  completed_at ← now;
  let final_results := VDict [
    ("analytics", analytics);
    ("classification_stats", stats_dict stats);
    ("extracted_insights", VList extracted_data);
    ("metadata", VDict [
       ("total_emails_fetched", VInt (length emails));
       ("financial_emails_processed", VInt (length relevant_emails));
       ("ai_processing_reduction", VNum (ai_processing_reduction stats));
       ("processing_completed_at", VStr completed_at)])] in
  _update_job job_id "completed" (Some 100%Q) "Processing completed successfully!"
    final_results None.

Definition _process_emails_async (job_id : string) : M unit := λ w,
  match pipeline job_id w with
  | (Ok tt, w') => (Ok (), w')
  | (Raise e, w') =>
      _update_job job_id "failed" (Some 0%Q) ("Error: " +:+ exn_str e) VNone
        (Some (exn_str e)) w'
  end.

(** What the stream yields, one constructor per JSON shape. *)
Inductive stream_item :=
| Snapshot (status : string) (progress : Q) (current_step : string)
           (updated_at : option string)
| ResultsPayload (results : pyval)
| ErrorPayload (error : option string).

Definition job_not_found : stream_item := ErrorPayload (Some "Job not found").

Definition snapshot_of (job : Job) : stream_item :=
  Snapshot (status job) (progress job) (current_step job) (updated_at job).

(** One turn of the [while True] loop, as the generator meets the job.  At
    the top of the turn it looks the job up in the dictionary as it is then:
    [at_poll].  [get_job_status] hands out the dict object itself, which
    [_update_job] changes in place, and a [yield] suspends the generator
    while the background task runs on.  So once the generator is resumed
    after the snapshot it reads [progress], [status], [results] and [error]
    from that same object as it is by then: [after_yield].  A turn that sends
    no snapshot has no suspension before those reads: it reads the record of
    the poll, and [after_yield] is not looked at. *)
Record Turn := {
  at_poll : World;
  after_yield : Job;
}.

(** [get_job_stream] over the turns of its loop (the loop sleeps a second
    between turns).  The boolean tells whether the generator has finished;
    it is [false] when the turns run out while the loop is still waiting. *)
Fixpoint stream_from (job_id : string) (last_progress : Q) (turns : list Turn)
  : list stream_item * bool :=
  match turns with
  | [] => ([], false)
  | turn :: later =>
      match get_job_status (at_poll turn) job_id with
      | None => ([job_not_found], true)
      | Some job =>
          let changed := negb (Qeq_bool (progress job) last_progress) in
          let update := if changed then [snapshot_of job] else [] in
          let job := if changed then after_yield turn else job in
          let last_progress := if changed then progress job else last_progress in
          if is_terminal job then
            (update ++
               (if String.eqb (status job) "completed" && truthy (results job)
                then [ResultsPayload (results job)]
                else if String.eqb (status job) "failed"
                then [ErrorPayload (error job)]
                else []),
             true)
          else
            let '(items, finished) := stream_from job_id last_progress later in
            (update ++ items, finished)
      end
  end.

Definition get_job_stream (job_id : string) (turns : list Turn)
  : list stream_item * bool :=
  stream_from job_id (-1)%Q turns.

(** *** Reasoning about computations in [M] *)

(** [triple P m Q]: from a world in [P], [m] ends in a world in [Q], whether
    it returns or raises. *)
Definition triple {A} (P : World → Prop) (m : M A) (Q : World → Prop) : Prop :=
  ∀ w, P w → Q (m w).2.

Lemma triple_ret {A} (P : World → Prop) (a : A) : triple P (mret a) P.
Proof. by intros w Hw. Qed.

Lemma triple_lift {A} (P : World → Prop) (r : result A) : triple P (lift r) P.
Proof. by intros w Hw. Qed.

Lemma triple_bind {A B} (P Q R : World → Prop) (m : M A) (k : A → M B) :
  triple P m Q → (∀ a, triple Q (k a) R) → (∀ w, Q w → R w) →
  triple P (m ≫= k) R.
Proof.
  intros Hm Hk Hweak w Hw. specialize (Hm w Hw).
  unfold mbind, M_bind. destruct (m w) as [[a|e] w']; simpl in *.
  - by apply Hk.
  - by apply Hweak.
Qed.

Lemma triple_weaken {A} (P P' Q Q' : World → Prop) (m : M A) :
  triple P m Q → (∀ w, P' w → P w) → (∀ w, Q w → Q' w) → triple P' m Q'.
Proof. intros Hm HP HQ w Hw. apply HQ, Hm, HP, Hw. Qed.

(** A set of worlds that [m] never leaves. *)
Definition keeps {A} (I : World → Prop) (m : M A) : Prop := triple I m I.

Lemma keeps_bind {A B} (I : World → Prop) (m : M A) (k : A → M B) :
  keeps I m → (∀ a, keeps I (k a)) → keeps I (m ≫= k).
Proof. intros Hm Hk. by apply (triple_bind I I I). Qed.

Create HintDb keeps discriminated.
#[local] Hint Resolve triple_ret triple_lift : keeps.

Ltac keeps_step :=
  first
    [ apply keeps_bind; [|intros ?]
    | apply triple_ret
    | apply triple_lift
    | match goal with |- keeps _ (if ?b then _ else _) => destruct b end
    | progress eauto with keeps ].

(** *** The frame of an update *)

(** What a task working on [job_id] may have done to the world [w0]: the
    set of keys is the same, every other key holds the same record, and when
    [job_id] is not a key the dictionary and the log are untouched. *)
Definition frame_of (job_id : string) (w0 w : World) : Prop :=
  dom (jobs w) = dom (jobs w0) ∧
  (∀ k, k ≠ job_id → jobs w !! k = jobs w0 !! k) ∧
  (jobs w0 !! job_id = None → jobs w = jobs w0 ∧ history w = history w0).

Lemma frame_of_refl (job_id : string) (w : World) : frame_of job_id w w.
Proof. done. Qed.

Lemma update_job_absent (w : World) (job_id status : string) (progress : option Q)
    (current_step : string) (results : pyval) (error : option string) :
  jobs w !! job_id = None →
  _update_job job_id status progress current_step results error w = (Ok (), w).
Proof. intros E. unfold _update_job. by rewrite E. Qed.

Lemma update_job_frame (w0 : World) (job_id status : string) (progress : option Q)
    (current_step : string) (results : pyval) (error : option string) :
  keeps (frame_of job_id w0)
        (_update_job job_id status progress current_step results error).
Proof.
  intros w (Hdom & Hother & Habsent). unfold _update_job.
  destruct (jobs w !! job_id) as [job|] eqn:E; [|done].
  destruct progress as [p|]; [|done]. unfold frame_of. cbn [snd jobs history].
  split_and!.
  - rewrite dom_insert_lookup_L; [done|by rewrite E].
  - intros k Hk. rewrite lookup_insert_ne by done. by apply Hother.
  - intros Hnone. destruct (Habsent Hnone) as [Hj _]. rewrite Hj in E. congruence.
Qed.

Lemma now_frame (job_id : string) (w0 : World) : keeps (frame_of job_id w0) now.
Proof. by intros w H. Qed.

#[local] Hint Resolve update_job_frame now_frame : keeps.

Lemma parse_loop_frame (job_id : string) (w0 : World) (n i : nat) (emails : list pyval)
    (parsed : list Email) :
  keeps (frame_of job_id w0) (parse_loop job_id n i emails parsed).
Proof.
  revert i parsed. induction emails as [|email rest IH]; intros i parsed; simpl.
  - apply triple_ret.
  - repeat keeps_step.
Qed.

Lemma collect_results_frame (job_id : string) (w0 : World)
    (batch_results : list (result (list pyval))) (data : list pyval) :
  keeps (frame_of job_id w0) (collect_results job_id batch_results data).
Proof.
  revert data. induction batch_results as [|[r|e] rest IH]; intros data; simpl;
    repeat keeps_step.
Qed.

#[local] Hint Resolve parse_loop_frame collect_results_frame : keeps.

Lemma chunk_loop_frame (job_id : string) (w0 : World) (n_batches n_relevant c : nat)
    (chunked : list (list (nat * list Email))) (data : list pyval) :
  keeps (frame_of job_id w0) (chunk_loop job_id n_batches n_relevant c chunked data).
Proof.
  revert c data. induction chunked as [|chunk rest IH]; intros c data; simpl;
    repeat keeps_step.
Qed.

#[local] Hint Resolve chunk_loop_frame : keeps.

Lemma pipeline_frame (job_id : string) (w0 : World) :
  keeps (frame_of job_id w0) (pipeline job_id).
Proof. unfold pipeline. repeat keeps_step. Qed.

Lemma process_emails_frame (job_id : string) (w : World) :
  frame_of job_id w (_process_emails_async job_id w).2.
Proof.
  unfold _process_emails_async.
  pose proof (pipeline_frame job_id w w (frame_of_refl job_id w)) as Hp.
  destruct (pipeline job_id w) as [[[]|e] w']; simpl in *; [done|].
  by apply update_job_frame.
Qed.

(** C10. For a job id that is not a key of the job dictionary [_update_job]
    returns without raising and leaves the world as it was; and with any
    arguments it keeps the set of keys and every record under another key,
    as does the whole background task.  New keys only come from
    [start_processing_job], and [cleanup_old_jobs] only takes keys away. *)
Theorem update_job_unknown_id (w : World) (job_id status : string)
    (progress : option Q) (current_step : string) (results : pyval)
    (error : option string) :
  (jobs w !! job_id = None →
   _update_job job_id status progress current_step results error w = (Ok (), w)) ∧
  frame_of job_id w
    (_update_job job_id status progress current_step results error w).2 ∧
  frame_of job_id w (_process_emails_async job_id w).2 ∧
  dom (jobs (start_processing_job job_id w).2) = {[job_id]} ∪ dom (jobs w) ∧
  (∀ max_age_hours, jobs (cleanup_old_jobs max_age_hours w).2 ⊆ jobs w).
Proof.
  split_and!.
  - apply update_job_absent.
  - apply update_job_frame, frame_of_refl.
  - apply process_emails_frame.
  - simpl. apply dom_insert_L.
  - intros h. simpl. apply map_filter_subseteq.
Qed.

(** *** The sequence of progress values *)

(** The progress values written for [job_id] with status [running], in the
    order of the writes. *)
Definition running_progress (job_id : string) (h : list (string * Job)) : list Q :=
  omap (λ ev : string * Job,
          if bool_decide (ev.1 = job_id ∧ status ev.2 = "running")
          then Some (progress ev.2) else None) h.

Lemma running_progress_app (job_id : string) (h1 h2 : list (string * Job)) :
  running_progress job_id (h1 ++ h2)
    = running_progress job_id h1 ++ running_progress job_id h2.
Proof. apply omap_app. Qed.

(** So far the values never went down and none is above [b]. *)
Definition climbing (job_id : string) (b : Q) (w : World) : Prop :=
  Sorted Qle (running_progress job_id (history w)) ∧
  Forall (λ p, p <= b)%Q (running_progress job_id (history w)).

Definition climbs {A} (job_id : string) (b b' : Q) (m : M A) : Prop :=
  triple (climbing job_id b) m (climbing job_id b').

Lemma sorted_snoc (l : list Q) (p : Q) :
  Sorted Qle l → Forall (λ q, q <= p)%Q l → Sorted Qle (l ++ [p]).
Proof.
  induction 1 as [|a l Hs IH Hhd]; intros Hall; simpl.
  - by repeat constructor.
  - apply Forall_cons in Hall as [Ha Hl]. constructor; [by apply IH|].
    destruct Hhd; simpl; constructor; done.
Qed.

Lemma climbing_weaken (job_id : string) (b b' : Q) (w : World) :
  (b <= b')%Q → climbing job_id b w → climbing job_id b' w.
Proof.
  intros Hb [Hs Hall]. split; [done|].
  eapply Forall_impl; [done|]. intros p Hp. simpl in *. lra.
Qed.

Lemma climbs_bind {A B} (job_id : string) (b b1 b2 : Q) (m : M A) (k : A → M B) :
  climbs job_id b b1 m → (∀ a, climbs job_id b1 b2 (k a)) → (b1 <= b2)%Q →
  climbs job_id b b2 (m ≫= k).
Proof.
  intros Hm Hk Hb. eapply triple_bind; [done..|].
  intros w. by apply climbing_weaken.
Qed.

Lemma climbs_weaken {A} (job_id : string) (b0 b b' b1 : Q) (m : M A) :
  climbs job_id b b' m → (b0 <= b)%Q → (b' <= b1)%Q → climbs job_id b0 b1 m.
Proof.
  intros Hm H0 H1. eapply triple_weaken; [done|..];
    intros w; by apply climbing_weaken.
Qed.

Lemma climbs_lift {A} (job_id : string) (b : Q) (r : result A) :
  climbs job_id b b (lift r).
Proof. apply triple_lift. Qed.

Lemma climbs_ret {A} (job_id : string) (b : Q) (a : A) :
  climbs job_id b b (mret a).
Proof. apply triple_ret. Qed.

Lemma climbs_now (job_id : string) (b : Q) : climbs job_id b b now.
Proof. by intros w H. Qed.

(** A [running] update with a value at or above the bound moves the bound
    to that value. *)
Lemma climbs_update_running (job_id : string) (b p : Q) (current_step : string)
    (results : pyval) (error : option string) :
  (b <= py_round p 1)%Q →
  climbs job_id b (py_round p 1)
    (_update_job job_id "running" (Some p) current_step results error).
Proof.
  intros Hb w [Hs Hall]. unfold _update_job.
  destruct (jobs w !! job_id) as [job|]; [|by apply (climbing_weaken _ b)].
  unfold climbing. cbn [snd history]. rewrite running_progress_app.
  cbn [running_progress omap list_omap fst snd status progress].
  rewrite bool_decide_eq_true_2 by done. split.
  - apply sorted_snoc; [done|].
    eapply Forall_impl; [done|]. intros q Hq. simpl in *. lra.
  - apply Forall_app. split.
    + eapply Forall_impl; [done|]. intros q Hq. simpl in *. lra.
    + repeat constructor. lra.
Qed.

(** The warning update, with no progress value, writes nothing. *)
Lemma climbs_update_none (job_id : string) (b : Q) (status current_step : string)
    (results : pyval) (error : option string) :
  climbs job_id b b (_update_job job_id status None current_step results error).
Proof.
  intros w H. unfold _update_job. by destruct (jobs w !! job_id).
Qed.

(** An update with another status adds nothing to the sequence. *)
Lemma climbs_update_other (job_id : string) (b : Q) (status : string)
    (progress : option Q) (current_step : string) (results : pyval)
    (error : option string) :
  status ≠ "running" →
  climbs job_id b b (_update_job job_id status progress current_step results error).
Proof.
  intros Hst w [Hs Hall]. unfold _update_job.
  destruct (jobs w !! job_id) as [job|]; [|done].
  destruct progress as [p|]; [|done].
  unfold climbing. cbn [snd history]. rewrite running_progress_app.
  cbn [running_progress omap list_omap fst snd Processor.status].
  rewrite bool_decide_eq_false_2 by (intros [_ ?]; done).
  by rewrite app_nil_r.
Qed.

(** The values the two loops report. *)
Definition parse_progress (n_emails i : nat) : Q :=
  py_round (20 + Qnat i / Qnat n_emails * 30) 1.

Definition processed_after (n_batches n_relevant chunk_start : nat) : nat :=
  ((((chunk_start + max_concurrent_batches) `min` n_batches) * batch_size)
     `min` n_relevant)%nat.

Definition chunk_progress (n_batches n_relevant chunk_start : nat) : Q :=
  py_round (60 + Qnat (processed_after n_batches n_relevant chunk_start)
                 / Qnat n_relevant * 30) 1.

Lemma Qnat_le (a b : nat) : (a ≤ b)%nat → (Qnat a <= Qnat b)%Q.
Proof. intros H. unfold Qnat. rewrite <- Zle_Qle. lia. Qed.

Lemma Qnat_nonneg (a : nat) : (0 <= Qnat a)%Q.
Proof. apply (Qnat_le 0). lia. Qed.

Lemma ratio_mono (a b n : nat) :
  (a ≤ b)%nat → (Qnat a / Qnat n <= Qnat b / Qnat n)%Q.
Proof.
  intros H. apply Qmult_le_compat_r; [by apply Qnat_le|].
  apply Qinv_le_0_compat, Qnat_nonneg.
Qed.

Lemma ratio_nonneg (a n : nat) : (0 <= Qnat a / Qnat n)%Q.
Proof.
  apply Qmult_le_0_compat; [apply Qnat_nonneg|].
  apply Qinv_le_0_compat, Qnat_nonneg.
Qed.

Lemma ratio_le_1 (a n : nat) : (a ≤ n)%nat → (Qnat a / Qnat n <= 1)%Q.
Proof.
  intros H. destruct n as [|n].
  - assert (a = 0)%nat as -> by lia. by vm_compute.
  - apply Qle_shift_div_r.
    + apply (Qlt_le_trans _ (Qnat 1)); [done|]. apply Qnat_le. lia.
    + rewrite Qmult_1_l. by apply Qnat_le.
Qed.

Lemma py_div_ok (a b r : Q) : py_div a b = Ok r → r = (a / b)%Q.
Proof. unfold py_div. destruct (Qeq_bool b 0); congruence. Qed.

Lemma climbs_bind_div {B} (job_id : string) (b b' a d : Q) (k : Q → M B) :
  climbs job_id b b' (k (a / d)%Q) → (b <= b')%Q →
  climbs job_id b b' (lift (py_div a d) ≫= k).
Proof.
  intros Hk Hb w Hw. unfold mbind, M_bind, lift.
  destruct (py_div a d) as [ratio|e] eqn:Ediv.
  - apply py_div_ok in Ediv as ->. by apply Hk.
  - by apply (climbing_weaken _ b).
Qed.

Lemma parse_progress_mono (n i j : nat) :
  (i ≤ j)%nat → (parse_progress n i <= parse_progress n j)%Q.
Proof.
  intros H. apply py_round_mono. pose proof (ratio_mono i j n H). lra.
Qed.

Lemma parse_progress_range (n i : nat) :
  (i ≤ n)%nat → (20 <= parse_progress n i)%Q ∧ (parse_progress n i <= 50)%Q.
Proof.
  intros H. pose proof (ratio_nonneg i n). pose proof (ratio_le_1 i n H).
  split.
  - change 20%Q with (py_round 20 1). apply py_round_mono. lra.
  - change 50%Q with (py_round 50 1). apply py_round_mono. lra.
Qed.

Lemma processed_after_mono (nb nr c c' : nat) :
  (c ≤ c')%nat → (processed_after nb nr c ≤ processed_after nb nr c')%nat.
Proof. unfold processed_after, max_concurrent_batches, batch_size. lia. Qed.

Lemma chunk_progress_mono (nb nr c c' : nat) :
  (c ≤ c')%nat → (chunk_progress nb nr c <= chunk_progress nb nr c')%Q.
Proof.
  intros H. apply py_round_mono.
  pose proof (ratio_mono _ _ nr (processed_after_mono nb nr c c' H)). lra.
Qed.

Lemma chunk_progress_range (nb nr c : nat) :
  (60 <= chunk_progress nb nr c)%Q ∧ (chunk_progress nb nr c <= 90)%Q.
Proof.
  pose proof (ratio_nonneg (processed_after nb nr c) nr).
  assert (processed_after nb nr c ≤ nr)%nat as Hle by (unfold processed_after; lia).
  pose proof (ratio_le_1 _ nr Hle).
  split.
  - change 60%Q with (py_round 60 1). apply py_round_mono. lra.
  - change 90%Q with (py_round 90 1). apply py_round_mono. lra.
Qed.

Lemma parse_loop_climbs (job_id : string) (n i : nat) (emails : list pyval)
    (parsed : list Email) (b : Q) :
  (i + length emails = n)%nat → (b <= parse_progress n i)%Q →
  climbs job_id b 50 (parse_loop job_id n i emails parsed).
Proof.
  revert i parsed b. induction emails as [|email rest IH]; intros i parsed b Hn Hb.
  - simpl in Hn. cbn [parse_loop].
    apply (climbs_weaken _ b b b 50); [apply climbs_ret|lra|].
    apply (Qle_trans _ _ _ Hb). apply parse_progress_range. lia.
  - simpl in Hn. cbn [parse_loop].
    assert (parse_progress n i <= parse_progress n (S i))%Q as Hstep
      by (apply parse_progress_mono; lia).
    assert (parse_progress n (S i) <= 50)%Q as Htop
      by (apply parse_progress_range; lia).
    apply (climbs_bind _ b b 50); [apply climbs_lift| |lra].
    intros parsed_email.
    apply (climbs_bind _ b (parse_progress n i) 50); [| |lra].
    + destruct (i mod 10 =? 0)%nat.
      * apply climbs_bind_div; [|done].
        by apply (climbs_update_running job_id b).
      * apply (climbs_weaken _ b b b _); [apply climbs_ret|lra|done].
    + intros _. apply IH; [lia|done].
Qed.

Lemma collect_results_climbs (job_id : string)
    (batch_results : list (result (list pyval))) (data : list pyval) (b : Q) :
  climbs job_id b b (collect_results job_id batch_results data).
Proof.
  revert data. induction batch_results as [|[r|e] rest IH]; intros data; simpl.
  - apply climbs_ret.
  - apply IH.
  - apply (climbs_bind _ b b b); [apply climbs_update_none|intros _; apply IH|lra].
Qed.

Lemma chunk_loop_climbs (job_id : string) (nb nr c : nat)
    (chunked : list (list (nat * list Email))) (data : list pyval) (b : Q) :
  (b <= chunk_progress nb nr c)%Q →
  climbs job_id b 90 (chunk_loop job_id nb nr c chunked data).
Proof.
  revert c data b. induction chunked as [|chunk rest IH]; intros c data b Hb.
  - cbn [chunk_loop].
    apply (climbs_weaken _ b b b 90); [apply climbs_ret|lra|].
    apply (Qle_trans _ _ _ Hb). apply chunk_progress_range.
  - cbn [chunk_loop].
    assert (chunk_progress nb nr c <= chunk_progress nb nr (c + max_concurrent_batches))%Q
      as Hstep by (apply chunk_progress_mono; lia).
    assert (chunk_progress nb nr (c + max_concurrent_batches) <= 90)%Q as Htop
      by apply chunk_progress_range.
    apply (climbs_bind _ b b 90); [apply collect_results_climbs| |lra].
    intros data'.
    apply climbs_bind_div; [|lra].
    apply (climbs_bind _ b (chunk_progress nb nr c) 90); [| |lra].
    + by apply (climbs_update_running job_id b).
    + intros _. by apply IH.
Qed.

Lemma climbs_fixed_step (job_id : string) (b p : Q) (current_step : string) :
  (b <= p)%Q → py_round p 1 = p →
  climbs job_id b p (_update_job job_id "running" (Some p) current_step VNone None).
Proof.
  intros Hb Hp. rewrite <- Hp at 1. apply climbs_update_running. by rewrite Hp.
Qed.

Lemma pipeline_climbs (job_id : string) : climbs job_id 10 100 (pipeline job_id).
Proof.
  unfold pipeline.
  apply (climbs_bind _ 10 10 100); [by apply climbs_fixed_step|intros _|lra].
  apply (climbs_bind _ 10 10 100); [apply climbs_lift|intros emails|lra].
  apply (climbs_bind _ 10 20 100); [by apply climbs_fixed_step|intros _|lra].
  apply (climbs_bind _ 20 50 100); [|intros parsed_emails|lra].
  { apply parse_loop_climbs; [done|]. apply parse_progress_range. lia. }
  apply (climbs_bind _ 50 50 100); [by apply climbs_fixed_step|intros _|lra].
  apply (climbs_bind _ 50 50 100); [apply climbs_lift|intros classified|lra].
  apply (climbs_bind _ 50 50 100); [apply climbs_lift|intros stats|lra].
  apply (climbs_bind _ 50 60 100); [by apply climbs_fixed_step|intros _|lra].
  apply (climbs_bind _ 60 90 100); [|intros extracted_data|lra].
  { apply chunk_loop_climbs. apply chunk_progress_range. }
  apply (climbs_bind _ 90 90 100); [by apply climbs_fixed_step|intros _|lra].
  apply (climbs_bind _ 90 90 100); [apply climbs_lift|intros analytics|lra].
  apply (climbs_bind _ 90 90 100); [apply climbs_now|intros completed_at|lra].
  apply (climbs_weaken _ 90 90 90 100); [|lra..].
  by apply climbs_update_other.
Qed.

(** C3. Over a run of the background task for a job that has no [running]
    write behind it yet, the progress values written with status [running]
    never go down: in the order of the writes each is at most the next. *)
Theorem running_progress_nondecreasing (job_id : string) (w : World) :
  running_progress job_id (history w) = [] →
  Sorted Qle
    (running_progress job_id (history (_process_emails_async job_id w).2)).
Proof.
  intros Hfresh.
  assert (climbing job_id 10 w) as Hw.
  { unfold climbing. rewrite Hfresh. split; constructor. }
  apply pipeline_climbs in Hw. unfold _process_emails_async.
  destruct (pipeline job_id w) as [[[]|e] w']; simpl in Hw |- *; [apply Hw|].
  by apply (climbs_update_other job_id 100).
Qed.

(** *** Completed jobs carry their results *)

Definition has_results_when_completed (job : Job) : Prop :=
  status job = "completed" → truthy (results job) = true.

(** Every record in the dictionary and every record ever written has its
    results when its status is [completed]. *)
Definition results_invariant (w : World) : Prop :=
  (∀ k job, jobs w !! k = Some job → has_results_when_completed job) ∧
  Forall (λ ev : string * Job, has_results_when_completed ev.2) (history w).

Lemma update_job_keeps_results (job_id status : string) (progress : option Q)
    (current_step : string) (results : pyval) (error : option string) :
  status ≠ "completed" ∨ truthy results = true →
  keeps results_invariant
        (_update_job job_id status progress current_step results error).
Proof.
  intros Hcall w [Hjobs Hhist]. unfold _update_job.
  destruct (jobs w !! job_id) as [job|] eqn:E; [|done].
  destruct progress as [p|]; [|done].
  unfold results_invariant. cbn [snd jobs history].
  match goal with |- context [<[job_id := ?j]> _] => set (job' := j) end.
  assert (has_results_when_completed job') as Hnew.
  { intros Hst. subst job'. simpl in *. destruct Hcall as [Hne|Ht]; [done|].
    by rewrite Ht. }
  split.
  - intros k j. destruct (decide (k = job_id)) as [->|Hk].
    + rewrite lookup_insert_eq. by intros [= <-].
    + rewrite lookup_insert_ne by done. apply Hjobs.
  - apply Forall_app. split; [done|]. by repeat constructor.
Qed.

Lemma now_keeps_results : keeps results_invariant now.
Proof. by intros w H. Qed.

#[local] Hint Resolve now_keeps_results : keeps.
#[local] Hint Extern 1 (keeps results_invariant (_update_job _ _ _ _ _ _)) =>
  apply update_job_keeps_results; first [by left | by right] : keeps.

Lemma parse_loop_keeps_results (job_id : string) (n i : nat) (emails : list pyval)
    (parsed : list Email) :
  keeps results_invariant (parse_loop job_id n i emails parsed).
Proof.
  revert i parsed. induction emails as [|email rest IH]; intros i parsed; simpl;
    repeat keeps_step.
Qed.

Lemma collect_results_keeps_results (job_id : string)
    (batch_results : list (result (list pyval))) (data : list pyval) :
  keeps results_invariant (collect_results job_id batch_results data).
Proof.
  revert data. induction batch_results as [|[r|e] rest IH]; intros data; simpl;
    repeat keeps_step.
Qed.

#[local] Hint Resolve parse_loop_keeps_results collect_results_keeps_results : keeps.

Lemma chunk_loop_keeps_results (job_id : string) (nb nr c : nat)
    (chunked : list (list (nat * list Email))) (data : list pyval) :
  keeps results_invariant (chunk_loop job_id nb nr c chunked data).
Proof.
  revert c data. induction chunked as [|chunk rest IH]; intros c data; simpl;
    repeat keeps_step.
Qed.

#[local] Hint Resolve chunk_loop_keeps_results : keeps.

Lemma process_emails_keeps_results (job_id : string) :
  keeps results_invariant (_process_emails_async job_id).
Proof.
  assert (keeps results_invariant (pipeline job_id)) as Hp
    by (unfold pipeline; repeat keeps_step).
  intros w Hw. specialize (Hp w Hw). unfold _process_emails_async.
  destruct (pipeline job_id w) as [[[]|e] w']; simpl in *; [done|].
  apply update_job_keeps_results; [by left|done].
Qed.

Lemma start_processing_job_keeps_results (job_id : string) :
  keeps results_invariant (start_processing_job job_id).
Proof.
  intros w [Hjobs Hhist]. split; [|done]. unfold start_processing_job.
  cbn [snd jobs]. intros k j. destruct (decide (k = job_id)) as [->|Hk].
  - rewrite lookup_insert_eq. by intros [= <-].
  - rewrite lookup_insert_ne by done. apply Hjobs.
Qed.

(** *** The progress stream *)

(** The snapshots in the spec's words: going through the records the loop
    sees, one snapshot (status, progress, step, time of the update) for each
    record whose progress differs from the progress of the last snapshot
    sent ([last], -1 before the first). *)
Fixpoint snapshots_on_change (last : Q) (seen : list Job) : list stream_item :=
  match seen with
  | [] => []
  | job :: rest =>
      if Qeq_bool (progress job) last then snapshots_on_change last rest
      else Snapshot (status job) (progress job) (current_step job) (updated_at job)
           :: snapshots_on_change (progress job) rest
  end.

(** The closing item: the results of a completed job, the error of a failed one. *)
Definition final_payload (job : Job) : stream_item :=
  if String.eqb (status job) "completed" then ResultsPayload (results job)
  else ErrorPayload (error job).

(** A turn in which the loop finds [job] under [job_id] and the record
    stays as it is while the generator is suspended. *)
Definition sees (job_id : string) (turn : Turn) (job : Job) : Prop :=
  jobs (at_poll turn) !! job_id = Some job ∧ after_yield turn = job.

(** Such a turn, with a job that is not finished. *)
Definition sees_running (job_id : string) (turn : Turn) (job : Job) : Prop :=
  sees job_id turn job ∧ is_terminal job = false.

Lemma stream_from_waiting (job_id : string) (turns : list Turn) (seen : list Job)
    (last : Q) :
  Forall2 (sees_running job_id) turns seen →
  stream_from job_id last turns = (snapshots_on_change last seen, false).
Proof.
  intros Hseen. revert last.
  induction Hseen as [|turn job turns seen [[Hw Hstay] Hrun] _ IH];
    intros last; [done|].
  cbn [stream_from snapshots_on_change]. unfold get_job_status.
  rewrite Hw, Hstay.
  destruct (Qeq_bool (progress job) last); cbn [negb]; by rewrite Hrun, IH.
Qed.

Lemma closing_of_final (final : Job) :
  is_terminal final = true →
  has_results_when_completed final →
  (if String.eqb (status final) "completed" && truthy (results final)
   then [ResultsPayload (results final)]
   else if String.eqb (status final) "failed"
        then [ErrorPayload (error final)] else [])
  = [final_payload final].
Proof.
  intros Hterm Hres. unfold final_payload. unfold is_terminal in Hterm.
  apply bool_decide_eq_true in Hterm.
  apply elem_of_cons in Hterm as [Hc|Hf].
  - rewrite (Hres Hc), Hc. done.
  - apply list_elem_of_singleton in Hf. by rewrite Hf.
Qed.

Lemma stream_from_finishing (job_id : string) (turns : list Turn) (seen : list Job)
    (t_end : Turn) (final : Job) (later : list Turn) (last : Q) :
  Forall2 (sees_running job_id) turns seen →
  sees job_id t_end final →
  is_terminal final = true →
  has_results_when_completed final →
  stream_from job_id last (turns ++ t_end :: later)
    = (snapshots_on_change last (seen ++ [final]) ++ [final_payload final], true).
Proof.
  intros Hseen [Hend Hstay] Hterm Hres. revert last.
  induction Hseen as [|turn job turns seen [[Hw Hstay'] Hrun] _ IH]; intros last.
  - cbn [app stream_from snapshots_on_change]. unfold get_job_status.
    rewrite Hend, Hstay.
    destruct (Qeq_bool (progress final) last); cbn [negb];
      by rewrite Hterm, closing_of_final.
  - cbn [app stream_from snapshots_on_change]. unfold get_job_status.
    rewrite Hw, Hstay'.
    destruct (Qeq_bool (progress job) last); cbn [negb]; by rewrite Hrun, IH.
Qed.

(** What a change during the yield does: the progress the record has when
    the generator is resumed becomes [last_progress] without having been
    sent. *)
Lemma stream_from_overtaken (job_id : string) (turn : Turn) (job : Job)
    (later : list Turn) (last : Q) :
  jobs (at_poll turn) !! job_id = Some job →
  Qeq_bool (progress job) last = false →
  is_terminal (after_yield turn) = false →
  stream_from job_id last (turn :: later)
  = (Snapshot (status job) (progress job) (current_step job) (updated_at job)
     :: (stream_from job_id (progress (after_yield turn)) later).1,
     (stream_from job_id (progress (after_yield turn)) later).2).
Proof.
  intros Hw Hne Hrun. cbn [stream_from]. unfold get_job_status.
  rewrite Hw, Hne. cbn [negb]. rewrite Hrun.
  by destruct (stream_from job_id (progress (after_yield turn)) later).
Qed.

Lemma stream_from_settled (job_id : string) (job : Job) (waiting : list Turn) :
  Forall (λ turn, sees_running job_id turn job) waiting →
  stream_from job_id (progress job) waiting = ([], false).
Proof.
  induction 1 as [|turn waiting [[Hw Hstay] Hrun] _ IH]; [done|].
  cbn [stream_from]. unfold get_job_status. rewrite Hw.
  assert (Qeq_bool (progress job) (progress job) = true) as ->
    by by apply Qeq_bool_iff.
  cbn [negb]. by rewrite Hrun, IH.
Qed.

(** C8. The stream of a job id.  For an id the dictionary does not know: the
    single item "Job not found", and the end.  As long as the record does
    not change while the generator is suspended at a [yield], the stream is
    what the specification says: a snapshot exactly for those records whose
    progress differs from the progress of the last snapshot sent, and once
    the job is completed or failed that last change if any, then the closing
    payload (the results of a completed job, the error of a failed one), and
    the end.  But the generator holds the record the background task updates in
    place and reads its progress again after the [yield].  So when the task
    moves the record on while a snapshot is being sent, the new progress is
    taken for sent: if the job then stays there the loop waits without ever
    sending it, and if the job completed meanwhile the results follow at
    once, with no snapshot of the completed record.  A completed record is
    taken to carry its results, as every record the background task writes
    does ([process_emails_keeps_results]). *)
Theorem job_stream_contract (job_id : string) :
  (∀ turn later,
     jobs (at_poll turn) !! job_id = None →
     get_job_stream job_id (turn :: later)
       = ([ErrorPayload (Some "Job not found")], true)) ∧
  (∀ turns seen,
     Forall2 (sees_running job_id) turns seen →
     get_job_stream job_id turns = (snapshots_on_change (-1) seen, false)) ∧
  (∀ turns seen t_end final later,
     Forall2 (sees_running job_id) turns seen →
     sees job_id t_end final →
     is_terminal final = true →
     has_results_when_completed final →
     get_job_stream job_id (turns ++ t_end :: later)
       = (snapshots_on_change (-1) (seen ++ [final]) ++ [final_payload final], true)) ∧
  (∀ turn job moved waiting,
     jobs (at_poll turn) !! job_id = Some job →
     Qeq_bool (progress job) (-1) = false →
     after_yield turn = moved →
     is_terminal moved = false →
     Forall (λ turn', sees_running job_id turn' moved) waiting →
     get_job_stream job_id (turn :: waiting)
       = ([Snapshot (status job) (progress job) (current_step job) (updated_at job)],
          false)) ∧
  (∀ turn job done later,
     jobs (at_poll turn) !! job_id = Some job →
     Qeq_bool (progress job) (-1) = false →
     after_yield turn = done →
     status done = "completed" →
     truthy (results done) = true →
     get_job_stream job_id (turn :: later)
       = ([Snapshot (status job) (progress job) (current_step job) (updated_at job);
           ResultsPayload (results done)],
          true)).
Proof.
  split_and!.
  - intros turn later Hnone. unfold get_job_stream. cbn [stream_from].
    unfold get_job_status. by rewrite Hnone.
  - intros turns seen. apply stream_from_waiting.
  - intros turns seen t_end final later. apply stream_from_finishing.
  - intros turn job moved waiting Hw Hne <- Hrun Hwait. unfold get_job_stream.
    rewrite (stream_from_overtaken job_id turn job waiting (-1) Hw Hne Hrun).
    by rewrite stream_from_settled.
  - intros turn job done later Hw Hne <- Hst Hres. unfold get_job_stream.
    cbn [stream_from]. unfold get_job_status. rewrite Hw, Hne. cbn [negb].
    unfold is_terminal. rewrite Hst, Hres. done.
Qed.

(** *** A batch that raises *)

Definition round_of_none : exn :=
  TypeError "type NoneType doesn't define __round__ method".

Lemma update_job_present (w : World) (job : Job) (job_id status : string) (p : Q)
    (current_step : string) (results : pyval) (error : option string) :
  jobs w !! job_id = Some job →
  ∃ w' job',
    _update_job job_id status (Some p) current_step results error w = (Ok (), w') ∧
    jobs w' !! job_id = Some job' ∧
    Processor.status job' = status ∧
    Processor.progress job' = py_round p 1 ∧
    Processor.results job' = (if truthy results then results else Processor.results job) ∧
    Processor.error job' = (if opt_truthy error then error else Processor.error job).
Proof.
  intros E. unfold _update_job. rewrite E. eexists _, _.
  split; [done|]. cbn [jobs]. rewrite lookup_insert_eq. done.
Qed.

Lemma for_each_cons_ok {A B} (f : A → result B) (a : A) (l : list A) (bs : list B) :
  for_each f (a :: l) = Ok bs →
  ∃ b bs', f a = Ok b ∧ for_each f l = Ok bs' ∧ bs = b :: bs'.
Proof.
  simpl. destruct (f a) as [b|]; [|done]. simpl.
  destruct (for_each f l) as [bs'|]; [|done]. simpl.
  intros [= <-]. by exists b, bs'.
Qed.

Lemma parse_loop_returns (job_id : string) (n i : nat) (emails : list pyval)
    (parsed new : list Email) (w : World) (job : Job) :
  (i + length emails = n)%nat →
  for_each (parse_email collab) emails = Ok new →
  jobs w !! job_id = Some job →
  ∃ w' job',
    parse_loop job_id n i emails parsed w = (Ok (parsed ++ new), w') ∧
    jobs w' !! job_id = Some job' ∧
    results job' = results job.
Proof.
  revert i parsed new w job. induction emails as [|raw rest IH];
    intros i parsed new w job Hn Hparse Hjob.
  - injection Hparse as <-. rewrite app_nil_r. by exists w, job.
  - apply for_each_cons_ok in Hparse as (p & ps & Hraw & Hrest & ->). simpl in Hn.
    cbn [parse_loop]. unfold mbind, M_bind, lift. rewrite Hraw.
    replace (parsed ++ p :: ps) with ((parsed ++ [p]) ++ ps)
      by by rewrite <- app_assoc.
    destruct (i mod 10 =? 0)%nat.
    + unfold py_div.
      assert (Qeq_bool (Qnat n) 0 = false) as ->.
      { apply not_true_is_false. intros Hz%Qeq_bool_iff.
        unfold Qnat, Qeq in Hz. simpl in Hz. lia. }
      destruct (update_job_present w job job_id "running"
                  (20 + Qnat i / Qnat n * 30)%Q
                  ("Parsing emails... " +:+ pretty (i + 1)%nat +:+ "/" +:+ pretty n)
                  VNone None Hjob) as (w1 & job1 & -> & Hjob1 & _ & _ & Hres1 & _).
      destruct (IH (S i) (parsed ++ [p]) ps w1 job1)
        as (w' & job' & E & Hjob' & Hres'); [lia|done..|].
      exists w', job'. split_and!; [done..|]. by rewrite Hres', Hres1.
    + unfold mret, M_ret. apply (IH (S i) _ _ w job); [lia|done..].
Qed.

Lemma collect_results_raises (job_id : string)
    (batch_results : list (result (list pyval))) (data : list pyval) (w : World)
    (job : Job) :
  jobs w !! job_id = Some job →
  Exists (λ r, is_ok r = false) batch_results →
  collect_results job_id batch_results data w = (Raise round_of_none, w).
Proof.
  intros Hjob Hex. revert data.
  induction batch_results as [|[r|e] rest IH]; intros data.
  - by apply Exists_nil in Hex.
  - cbn [collect_results]. apply IH.
    by apply Exists_cons in Hex as [Hhd|Htl].
  - cbn [collect_results]. unfold mbind, M_bind, _update_job. by rewrite Hjob.
Qed.

Lemma collect_results_returns (job_id : string)
    (batch_results : list (result (list pyval))) (data : list pyval) (w : World) :
  Forall (λ r, is_ok r = true) batch_results →
  ∃ data', collect_results job_id batch_results data w = (Ok data', w).
Proof.
  intros Hall. revert data.
  induction Hall as [|[r|e] rest Hr _ IH]; intros data; [by exists data| |done].
  cbn [collect_results]. apply IH.
Qed.

(** The task of one batch fails. *)
Definition batch_fails (b : nat * list Email) : Prop :=
  is_ok (_process_batch_async b.2 b.1) = false.

#[local] Instance batch_fails_dec b : Decision (batch_fails b).
Proof. unfold batch_fails. apply _. Defined.

Lemma chunk_loop_raises (job_id : string) (nb nr c : nat)
    (chunked : list (list (nat * list Email))) (data : list pyval)
    (w : World) (job : Job) :
  jobs w !! job_id = Some job →
  nr ≠ 0%nat →
  Exists (Exists batch_fails) chunked →
  ∃ w' job',
    chunk_loop job_id nb nr c chunked data w = (Raise round_of_none, w') ∧
    jobs w' !! job_id = Some job' ∧
    results job' = results job.
Proof.
  intros Hjob Hnr. revert c data w job Hjob.
  induction chunked as [|chunk rest IH]; intros c data w job Hjob Hex.
  - by apply Exists_nil in Hex.
  - cbn [chunk_loop]. unfold mbind, M_bind.
    destruct (decide (Exists batch_fails chunk)) as [Hbad|Hgood].
    + erewrite collect_results_raises; [by exists w, job|done|].
      apply Exists_fmap. by apply Hbad.
    + apply Exists_cons in Hex as [Hbad|Hlater]; [done|].
      apply not_Exists_Forall in Hgood; [|intros b; apply _].
      destruct (collect_results_returns job_id
                  (map (λ b : nat * list Email, _process_batch_async b.2 b.1) chunk)
                  data w) as (data' & ->).
      { apply Forall_fmap. eapply Forall_impl; [done|].
        intros b Hb. simpl in *. unfold batch_fails in Hb.
        by destruct (is_ok (_process_batch_async b.2 b.1)). }
      unfold lift, py_div.
      assert (Qeq_bool (Qnat nr) 0 = false) as ->.
      { apply not_true_is_false. intros Hz%Qeq_bool_iff.
        unfold Qnat, Qeq in Hz. simpl in Hz. lia. }
      match goal with
      | |- context [_update_job job_id "running" (Some ?p) ?step VNone None w] =>
          destruct (update_job_present w job job_id "running" p step VNone None Hjob)
            as (w1 & job1 & -> & Hjob1 & _ & _ & Hres1 & _)
      end.
      destruct (IH (c + max_concurrent_batches)%nat data' w1 job1 Hjob1 Hlater)
        as (w' & job' & -> & Hjob' & Hres').
      exists w', job'. split_and!; [done..|]. by rewrite Hres', Hres1.
Qed.

Lemma Exists_chunks {A} (P : A → Prop) (n : nat) (l : list A) :
  (0 < n)%nat → Exists P l → Exists (Exists P) (chunks n l).
Proof.
  intros Hn Hex. rewrite <- (concat_chunks n l Hn) in Hex.
  induction (chunks n l) as [|group groups IH]; simpl in Hex.
  - by apply Exists_nil in Hex.
  - apply Exists_app in Hex as [Hhd|Htl]; [by left|right; by apply IH].
Qed.

Lemma Exists_imap {A B} (P : A → Prop) (Q : B → Prop) (f : nat → A → B) (l : list A) :
  (∀ k a, P a → Q (f k a)) → Exists P l → Exists Q (imap f l).
Proof.
  intros Hf Hex. revert f Hf.
  induction Hex as [a l Ha|a l _ IH]; intros f Hf; simpl.
  - left. by apply Hf.
  - right. apply IH. intros k b. apply Hf.
Qed.

(** C1. Take a job that is in the dictionary and a run in which fetching,
    parsing, classifying and the statistics all succeed, and let the
    extractor raise on one of the batches of relevant emails.  The warning
    update for that batch then raises itself ([round(None, 1)]), the outer
    handler takes over, and the job ends with status [failed], progress 0
    and the text of that [TypeError] as its error; no results are set.  So a
    failing batch is fatal to the job, where the comment in the loop says
    "Log error but continue processing other batches". *)
Theorem failing_batch_fails_job (job_id : string) (w : World) (job : Job)
    (emails : list pyval) (parsed_emails : list Email) (classified : Classified)
    (stats : Stats) :
  jobs w !! job_id = Some job →
  fetch_emails_last_6_months collab = Ok emails →
  for_each (parse_email collab) emails = Ok parsed_emails →
  classify_emails_batch collab parsed_emails = Ok classified →
  get_classification_stats collab classified = Ok stats →
  Exists (λ batch,
            is_ok (extract_insights_batch collab batch (Z.of_nat (length batch)))
              = false)
         (chunks batch_size
            (definitely_financial classified ++ maybe_financial classified)) →
  ∃ job',
    jobs (_process_emails_async job_id w).2 !! job_id = Some job' ∧
    status job' = "failed" ∧
    progress job' = 0%Q ∧
    error job' = Some (exn_str round_of_none) ∧
    results job' = results job.
Proof.
  intros Hjob Hfetch Hparse Hclass Hstats Hextract.
  assert (∃ w' job1,
            pipeline job_id w = (Raise round_of_none, w') ∧
            jobs w' !! job_id = Some job1 ∧ results job1 = results job)
    as (w' & job1 & Hpipe & Hjob1 & Hres1).
  { unfold pipeline, mbind, M_bind, lift. rewrite Hfetch.
    destruct (update_job_present w job job_id "running" 10
                "Fetching ALL emails from Gmail (last 6 months)..." VNone None Hjob)
      as (w1 & j1 & -> & Hj1 & _ & _ & Hr1 & _).
    destruct (update_job_present w1 j1 job_id "running" 20
                ("Fetched " +:+ pretty (length emails) +:+ " emails. Parsing content...")
                VNone None Hj1)
      as (w2 & j2 & -> & Hj2 & _ & _ & Hr2 & _).
    destruct (parse_loop_returns job_id (length emails) 0 emails [] parsed_emails
                w2 j2 eq_refl Hparse Hj2) as (w3 & j3 & -> & Hj3 & Hr3).
    cbn [app].
    destruct (update_job_present w3 j3 job_id "running" 50
                "Classifying emails by relevance..." VNone None Hj3)
      as (w4 & j4 & -> & Hj4 & _ & _ & Hr4 & _).
    rewrite Hclass, Hstats.
    match goal with
    | |- context [_update_job job_id "running" (Some 60%Q) ?step VNone None w4] =>
        destruct (update_job_present w4 j4 job_id "running" 60 step VNone None Hj4)
          as (w5 & j5 & -> & Hj5 & _ & _ & Hr5 & _)
    end.
    set (relevant_emails :=
           definitely_financial classified ++ maybe_financial classified) in *.
    set (batches := imap (λ k batch, ((k * batch_size)%nat, batch))
                         (chunks batch_size relevant_emails)).
    destruct (chunk_loop_raises job_id (length batches) (length relevant_emails) 0
                (chunks max_concurrent_batches batches) [] w5 j5 Hj5)
      as (w6 & j6 & -> & Hj6 & Hr6).
    { intros Hlen%nil_length_inv. rewrite Hlen in Hextract.
      by apply Exists_nil in Hextract. }
    { apply Exists_chunks; [unfold max_concurrent_batches; lia|].
      eapply Exists_imap; [|exact Hextract].
      intros k batch Hbad. unfold batch_fails, _process_batch_async. cbn [fst snd].
      cbv beta in Hbad.
      by destruct (extract_insights_batch collab batch _). }
    exists w6, j6. split_and!; [done..|].
    simpl in *. by rewrite Hr6, Hr5, Hr4, Hr3, Hr2, Hr1. }
  unfold _process_emails_async. rewrite Hpipe.
  destruct (update_job_present w' job1 job_id "failed" 0
              ("Error: " +:+ exn_str round_of_none) VNone
              (Some (exn_str round_of_none)) Hjob1)
    as (w'' & job' & -> & Hjob' & Hst & Hpr & Hres & Herr).
  exists job'. split_and!; [done..|]. by rewrite Hres, <- Hres1.
Qed.

(** *** Where a run ends *)

(** The record under [job_id] is there and still has the start time, the
    total, the results and the error of [job0]. *)
Definition steady (job_id : string) (job0 : Job) (w : World) : Prop :=
  ∃ job,
    jobs w !! job_id = Some job ∧
    start_time job = start_time job0 ∧ total job = total job0 ∧
    results job = results job0 ∧ error job = error job0.

(** [m] from a world in [P] ends with a result and a world in [Q]. *)
Definition ends {A} (P : World → Prop) (m : M A) (Q : result A → World → Prop)
  : Prop :=
  ∀ w, P w → Q (m w).1 (m w).2.

Lemma ends_bind_keeps {A B} (I : World → Prop) (m : M A) (k : A → M B)
    (Q : result B → World → Prop) :
  keeps I m → (∀ a, ends I (k a) Q) → (∀ e w, I w → Q (Raise e) w) →
  ends I (m ≫= k) Q.
Proof.
  intros Hm Hk Hraise w Hw. specialize (Hm w Hw).
  unfold mbind, M_bind. destruct (m w) as [[a|e] w1]; simpl in *.
  - by apply Hk.
  - by apply Hraise.
Qed.

Lemma update_running_keeps_steady (job_id : string) (job0 : Job)
    (progress : option Q) (current_step : string) :
  keeps (steady job_id job0)
        (_update_job job_id "running" progress current_step VNone None).
Proof.
  intros w (job & Hjob & Hs & Ht & Hr & He). unfold _update_job. rewrite Hjob.
  destruct progress as [p|]; [|by exists job].
  unfold steady. cbn [snd jobs]. rewrite lookup_insert_eq.
  eexists. split; [done|]. by cbn.
Qed.

Lemma now_keeps_steady (job_id : string) (job0 : Job) :
  keeps (steady job_id job0) now.
Proof. by intros w H. Qed.

#[local] Hint Resolve update_running_keeps_steady now_keeps_steady : keeps.

Lemma parse_loop_keeps_steady (job_id : string) (job0 : Job) (n i : nat)
    (emails : list pyval) (parsed : list Email) :
  keeps (steady job_id job0) (parse_loop job_id n i emails parsed).
Proof.
  revert i parsed. induction emails as [|email rest IH]; intros i parsed; simpl;
    repeat keeps_step.
Qed.

Lemma collect_results_keeps_steady (job_id : string) (job0 : Job)
    (batch_results : list (result (list pyval))) (data : list pyval) :
  keeps (steady job_id job0) (collect_results job_id batch_results data).
Proof.
  revert data. induction batch_results as [|[r|e] rest IH]; intros data; simpl;
    repeat keeps_step.
Qed.

#[local] Hint Resolve parse_loop_keeps_steady collect_results_keeps_steady : keeps.

Lemma chunk_loop_keeps_steady (job_id : string) (job0 : Job) (nb nr c : nat)
    (chunked : list (list (nat * list Email))) (data : list pyval) :
  keeps (steady job_id job0) (chunk_loop job_id nb nr c chunked data).
Proof.
  revert c data. induction chunked as [|chunk rest IH]; intros c data; simpl;
    repeat keeps_step.
Qed.

#[local] Hint Resolve chunk_loop_keeps_steady : keeps.

(** The record of a run that went through. *)
Definition completed_from (job_id : string) (job0 : Job) (w : World) : Prop :=
  ∃ job,
    jobs w !! job_id = Some job ∧
    status job = "completed" ∧ progress job = 100%Q ∧
    truthy (results job) = true ∧ error job = error job0 ∧
    start_time job = start_time job0 ∧ total job = total job0.

Definition pipeline_outcome (job_id : string) (job0 : Job)
    (r : result unit) (w : World) : Prop :=
  match r with
  | Ok _ => completed_from job_id job0 w
  | Raise _ => steady job_id job0 w
  end.

Lemma pipeline_ends (job_id : string) (job0 : Job) :
  ends (steady job_id job0) (pipeline job_id) (pipeline_outcome job_id job0).
Proof.
  unfold pipeline.
  repeat (apply ends_bind_keeps; [by repeat keeps_step|intros ?|by intros]).
  intros w (job & Hjob & Hs & Ht & Hr & He). unfold _update_job. rewrite Hjob.
  unfold pipeline_outcome, completed_from. cbn [fst snd jobs].
  rewrite lookup_insert_eq. eexists. split; [done|]. by cbn.
Qed.

(** The record an update writes over [job]. *)
Definition updated (job : Job) (clock_now : nat) (status : string) (p : Q)
    (current_step : string) (results : pyval) (error : option string) : Job :=
  {| status := status;
     progress := py_round p 1;
     total := total job;
     current_step := current_step;
     start_time := start_time job;
     updated_at := Some (isoformat clock_now);
     results := if truthy results then results else Processor.results job;
     error := if opt_truthy error then error else Processor.error job |}.

Lemma update_job_written (w : World) (job : Job) (job_id status : string) (p : Q)
    (current_step : string) (results : pyval) (error : option string) :
  jobs w !! job_id = Some job →
  let job' := updated job (clock w) status p current_step results error in
  _update_job job_id status (Some p) current_step results error w
  = (Ok (), {| jobs := <[job_id := job']> (jobs w);
               clock := S (clock w);
               history := history w ++ [(job_id, job')] |}).
Proof. intros E. unfold _update_job. by rewrite E. Qed.

(** X1. A run of the background task for a job that is in the dictionary
    always ends in a terminal record: either [completed] with progress 100,
    results set and the error untouched, or [failed] with progress 0 and the
    results untouched.  In both cases the start time and the total of the
    record are the ones it was created with. *)
Theorem run_ends_terminal (job_id : string) (w : World) (job : Job) :
  jobs w !! job_id = Some job →
  ∃ job',
    jobs (_process_emails_async job_id w).2 !! job_id = Some job' ∧
    start_time job' = start_time job ∧ total job' = total job ∧
    ((status job' = "completed" ∧ progress job' = 100%Q ∧
      truthy (results job') = true ∧ error job' = error job) ∨
     (status job' = "failed" ∧ progress job' = 0%Q ∧
      results job' = results job)).
Proof.
  intros Hjob.
  assert (steady job_id job w) as Hw by by exists job.
  apply pipeline_ends in Hw. unfold _process_emails_async.
  destruct (pipeline job_id w) as [[[]|e] w1]; cbn [fst snd] in Hw.
  - destruct Hw as (job' & Hjob' & Hst & Hp & Hres & He & Hs & Ht).
    exists job'. split_and!; [done..|]. by left.
  - destruct Hw as (job1 & Hjob1 & Hs & Ht & Hr & He).
    rewrite (update_job_written w1 job1 job_id "failed" 0 ("Error: " +:+ exn_str e)
               VNone (Some (exn_str e)) Hjob1).
    cbn [snd jobs]. rewrite lookup_insert_eq. eexists. split; [done|].
    cbn. split_and!; [done..|]. by right.
Qed.

(** X2. When fetching the emails raises, the job ends [failed] after a
    single running write (progress 10): progress is back at 0, the step reads
    "Error: " followed by the text of the exception, and that text becomes the
    error of the job, unless it is empty: an exception without a message
    leaves the error entry as it was. *)
Theorem fetch_failure_fails_job (job_id : string) (w : World) (job : Job) (e : exn) :
  jobs w !! job_id = Some job →
  fetch_emails_last_6_months collab = Raise e →
  ∃ first job',
    let w' := (_process_emails_async job_id w).2 in
    jobs w' !! job_id = Some job' ∧
    history w' = history w ++ [(job_id, first); (job_id, job')] ∧
    status first = "running" ∧ progress first = 10%Q ∧
    status job' = "failed" ∧ progress job' = 0%Q ∧
    current_step job' = "Error: " +:+ exn_str e ∧
    error job' = (if String.eqb (exn_str e) "" then error job
                  else Some (exn_str e)) ∧
    results job' = results job.
Proof.
  intros Hjob Hfetch. unfold _process_emails_async, pipeline, mbind, M_bind, lift.
  rewrite (update_job_written w job job_id "running" 10
             "Fetching ALL emails from Gmail (last 6 months)..." VNone None Hjob).
  rewrite Hfetch.
  match goal with
  | |- context [_update_job _ "failed" _ _ _ _ ?w1] =>
      rewrite (update_job_written w1
                 (updated job (clock w) "running" 10
                    "Fetching ALL emails from Gmail (last 6 months)..." VNone None)
                 job_id "failed" 0 ("Error: " +:+ exn_str e) VNone
                 (Some (exn_str e)))
        by (cbn [jobs]; apply lookup_insert_eq)
  end.
  eexists _, _. cbn [snd jobs history clock]. rewrite lookup_insert_eq.
  split; [done|]. rewrite <- app_assoc. split; [done|].
  cbn. split_and!; try done. by destruct (String.eqb (exn_str e) "").
Qed.

(** *** A run in which nothing raises *)

Lemma collect_results_concat (job_id : string) (outs : list (list pyval))
    (data : list pyval) (w : World) :
  collect_results job_id (map Ok outs) data w = (Ok (data ++ concat outs), w).
Proof.
  revert data. induction outs as [|out outs IH]; intros data; simpl.
  - by rewrite app_nil_r.
  - rewrite IH. by rewrite <- app_assoc.
Qed.

Lemma Forall2_chunks_upto {A B} (P : A → B → Prop) (fuel n : nat)
    (l : list A) (k : list B) :
  Forall2 P l k →
  Forall2 (Forall2 P) (chunks_upto fuel n l) (chunks_upto fuel n k).
Proof.
  revert l k. induction fuel as [|fuel IH]; intros l k Hlk; [constructor|].
  destruct Hlk as [|a b l k Hab Hlk]; [constructor|].
  cbn [chunks_upto]. constructor.
  - apply Forall2_take. by constructor.
  - apply IH. apply Forall2_drop. by constructor.
Qed.

Lemma Forall2_chunks {A B} (P : A → B → Prop) (n : nat) (l : list A) (k : list B) :
  Forall2 P l k → Forall2 (Forall2 P) (chunks n l) (chunks n k).
Proof.
  intros Hlk. unfold chunks. rewrite <- (Forall2_length _ _ _ Hlk).
  by apply Forall2_chunks_upto.
Qed.

Lemma Forall2_imap_l {A B C} (P : A → C → Prop) (Q : B → C → Prop)
    (f : nat → A → B) (l : list A) (k : list C) :
  (∀ i a c, P a c → Q (f i a) c) → Forall2 P l k → Forall2 Q (imap f l) k.
Proof.
  intros Hf Hlk. revert f Hf.
  induction Hlk as [|a c l k Hac _ IH]; intros f Hf; simpl; constructor.
  - by apply Hf.
  - apply IH. intros i. apply Hf.
Qed.

(** The task of the batch returns [out]. *)
Definition batch_returns (b : nat * list Email) (out : list pyval) : Prop :=
  _process_batch_async b.2 b.1 = Ok out.

Lemma gathered_results (chunk : list (nat * list Email)) (outs : list (list pyval)) :
  Forall2 batch_returns chunk outs →
  map (λ b : nat * list Email, _process_batch_async b.2 b.1) chunk = map Ok outs.
Proof.
  induction 1 as [|b out chunk outs Hb _ IH]; [done|].
  cbn [map]. unfold batch_returns in Hb. by rewrite Hb, IH.
Qed.

Lemma chunk_loop_completes (job_id : string) (job0 : Job) (nb nr c : nat)
    (chunked : list (list (nat * list Email))) (outss : list (list (list pyval)))
    (data : list pyval) (w : World) :
  steady job_id job0 w →
  (chunked ≠ [] → nr ≠ 0%nat) →
  Forall2 (Forall2 batch_returns) chunked outss →
  ∃ w',
    chunk_loop job_id nb nr c chunked data w
      = (Ok (data ++ concat (concat outss)), w') ∧
    steady job_id job0 w'.
Proof.
  intros Hw Hnr Hall. revert c data w Hw.
  induction Hall as [|chunk outs chunked outss Hchunk _ IH]; intros c data w Hw.
  - exists w. cbn [chunk_loop concat]. rewrite app_nil_r. split; [reflexivity|exact Hw].
  - cbn [chunk_loop]. unfold mbind, M_bind, lift, py_div.
    rewrite (gathered_results chunk outs Hchunk).
    rewrite collect_results_concat.
    assert (nr ≠ 0%nat) as Hpos by by apply Hnr.
    assert (Qeq_bool (Qnat nr) 0 = false) as ->.
    { apply not_true_is_false. intros Hz%Qeq_bool_iff.
      unfold Qnat, Qeq in Hz. simpl in Hz. lia. }
    pose proof Hw as (job & Hjob & _).
    match goal with
    | |- context [_update_job job_id "running" (Some ?p) ?step VNone None w] =>
        pose proof (update_running_keeps_steady job_id job0 (Some p) step w Hw)
          as Hw1;
        rewrite (update_job_written w job job_id "running" p step VNone None Hjob)
          in Hw1 |- *
    end.
    cbn [snd] in Hw1.
    destruct (IH (λ _, Hpos) (c + max_concurrent_batches)%nat
                (data ++ concat outs) _ Hw1) as (w' & -> & Hw').
    exists w'. split; [|done]. cbn [concat]. by rewrite concat_app, app_assoc.
Qed.

(** X3. When no call raises (fetch, every parse, classification, statistics,
    every batch of five relevant emails, aggregation), the job ends
    [completed] with progress 100, and its results hold the analytics, the
    statistics and, under [extracted_insights], the outputs of the batches
    concatenated in the order of the relevant emails (the definitely
    financial ones first, then the maybe financial ones), whatever the
    grouping into chunks of three. *)
Theorem run_without_failure_completes (job_id : string) (w : World) (job : Job)
    (emails : list pyval) (parsed_emails : list Email) (classified : Classified)
    (stats : Stats) (outs : list (list pyval)) (analytics : pyval) :
  jobs w !! job_id = Some job →
  fetch_emails_last_6_months collab = Ok emails →
  for_each (parse_email collab) emails = Ok parsed_emails →
  classify_emails_batch collab parsed_emails = Ok classified →
  get_classification_stats collab classified = Ok stats →
  Forall2 (λ batch out,
             extract_insights_batch collab batch (Z.of_nat (length batch)) = Ok out)
          (chunks batch_size
             (definitely_financial classified ++ maybe_financial classified))
          outs →
  generate_comprehensive_insights collab (concat outs) = Ok analytics →
  ∃ job' completed_at,
    jobs (_process_emails_async job_id w).2 !! job_id = Some job' ∧
    status job' = "completed" ∧ progress job' = 100%Q ∧
    current_step job' = "Processing completed successfully!" ∧
    error job' = error job ∧
    results job' = VDict [
      ("analytics", analytics);
      ("classification_stats", stats_dict stats);
      ("extracted_insights", VList (concat outs));
      ("metadata", VDict [
         ("total_emails_fetched", VInt (length emails));
         ("financial_emails_processed",
            VInt (length (definitely_financial classified
                          ++ maybe_financial classified)));
         ("ai_processing_reduction", VNum (ai_processing_reduction stats));
         ("processing_completed_at", VStr completed_at)])].
Proof.
  intros Hjob Hfetch Hparse Hclass Hstats Houts Hagg.
  set (relevant := definitely_financial classified ++ maybe_financial classified) in *.
  assert (steady job_id job w) as Hw by by exists job.
  unfold _process_emails_async, pipeline, mbind, M_bind, lift.
  (* fetch *)
  pose proof (update_running_keeps_steady job_id job (Some 10%Q)
                "Fetching ALL emails from Gmail (last 6 months)..." w Hw) as Hw1.
  rewrite (update_job_written w job job_id "running" 10 _ VNone None Hjob)
    in Hw1 |- *. cbn [snd] in Hw1.
  rewrite Hfetch.
  (* parse *)
  pose proof Hw1 as (j1 & Hj1 & _).
  match goal with
  | |- context [_update_job job_id "running" (Some 20%Q) ?step VNone None ?w1] =>
      pose proof (update_running_keeps_steady job_id job (Some 20%Q) step w1 Hw1)
        as Hw2;
      rewrite (update_job_written w1 j1 job_id "running" 20 step VNone None Hj1)
        in Hw2 |- *
  end.
  cbn [snd] in Hw2. pose proof Hw2 as (j2 & Hj2 & _).
  match goal with
  | |- context [parse_loop job_id _ 0 emails [] ?w2] =>
      pose proof (parse_loop_keeps_steady job_id job (length emails) 0 emails []
                    w2 Hw2) as Hw3;
      destruct (parse_loop_returns job_id (length emails) 0 emails [] parsed_emails
                  w2 j2 eq_refl Hparse Hj2) as (w3 & j3 & Hloop & Hj3 & _);
      rewrite Hloop in Hw3 |- *
  end.
  cbn [snd app] in Hw3. cbn [app].
  (* classify *)
  pose proof (update_running_keeps_steady job_id job (Some 50%Q)
                "Classifying emails by relevance..." w3 Hw3) as Hw4.
  rewrite (update_job_written w3 j3 job_id "running" 50 _ VNone None Hj3)
    in Hw4 |- *. cbn [snd] in Hw4.
  rewrite Hclass, Hstats. fold relevant.
  pose proof Hw4 as (j4 & Hj4 & _).
  match goal with
  | |- context [_update_job job_id "running" (Some 60%Q) ?step VNone None ?w4] =>
      pose proof (update_running_keeps_steady job_id job (Some 60%Q) step w4 Hw4)
        as Hw5;
      rewrite (update_job_written w4 j4 job_id "running" 60 step VNone None Hj4)
        in Hw5 |- *
  end.
  cbn [snd] in Hw5.
  (* extract *)
  set (batches := imap (λ k batch, ((k * batch_size)%nat, batch))
                       (chunks batch_size relevant)).
  match goal with
  | |- context [chunk_loop job_id _ _ 0 _ [] ?w5] =>
      destruct (chunk_loop_completes job_id job (length batches) (length relevant) 0
                  (chunks max_concurrent_batches batches)
                  (chunks max_concurrent_batches outs) [] w5 Hw5)
        as (w6 & -> & Hw6)
  end.
  { intros Hne Hlen%nil_length_inv. apply Hne. subst batches.
    by rewrite Hlen. }
  { apply Forall2_chunks. eapply Forall2_imap_l; [|exact Houts].
    intros i batch out Hout. unfold batch_returns, _process_batch_async.
    cbn [fst snd]. by rewrite Hout. }
  rewrite concat_chunks by (unfold max_concurrent_batches; lia). cbn [app].
  (* aggregate and complete *)
  pose proof Hw6 as (j6 & Hj6 & _).
  pose proof (update_running_keeps_steady job_id job (Some 90%Q)
                "Generating comprehensive analytics..." w6 Hw6) as Hw7.
  rewrite (update_job_written w6 j6 job_id "running" 90 _ VNone None Hj6)
    in Hw7 |- *. cbn [snd] in Hw7.
  rewrite Hagg. unfold now. cbn [clock jobs history].
  destruct Hw7 as (j7 & Hj7 & _ & _ & _ & He7).
  match goal with
  | |- context [_update_job job_id "completed" (Some 100%Q) ?step ?res None ?w8] =>
      rewrite (update_job_written w8 j7 job_id "completed" 100 step res None)
        by exact Hj7
  end.
  cbn [snd jobs]. rewrite lookup_insert_eq. eexists _, _. split; [done|].
  cbn. by rewrite He7.
Qed.

(** *** The range of the progress values *)

(** What holds of the status, step text and progress of every written
    record: the progress lies within 0 and 100; within 10 and 90 when the
    status is [running]; within 20 and 50 for a step of the parsing loop
    ("Parsing emails... i/n"); within 60 and 90 for a step of the extraction
    loop ("AI processing... k/n emails ..."). *)
Definition in_range (status current_step : string) (p : Q) : Prop :=
  ((0 <= p)%Q ∧ (p <= 100)%Q) ∧
  (status = "running" → (10 <= p)%Q ∧ (p <= 90)%Q) ∧
  (str_prefix "Parsing emails... " current_step = true →
   (20 <= p)%Q ∧ (p <= 50)%Q) ∧
  (str_prefix "AI processing... " current_step = true →
   (60 <= p)%Q ∧ (p <= 90)%Q).

Definition progress_in_range (job : Job) : Prop :=
  in_range (status job) (current_step job) (progress job).

Definition writes_in_range (w : World) : Prop :=
  Forall (λ ev : string * Job, progress_in_range ev.2) (history w).

(** A step text that starts differently from the loop's. *)
Ltac other_step :=
  let H := fresh "H" in
  intros H; exfalso; change (false = true) in H; discriminate H.

Lemma update_keeps_range (job_id status : string) (p : Q) (current_step : string)
    (results : pyval) (error : option string) :
  in_range status current_step (py_round p 1) →
  keeps writes_in_range
        (_update_job job_id status (Some p) current_step results error).
Proof.
  intros Hp w Hw. unfold _update_job.
  destruct (jobs w !! job_id) as [job|]; [|done].
  unfold writes_in_range. cbn [snd history]. apply Forall_app. split; [done|].
  apply Forall_singleton. exact Hp.
Qed.

Lemma update_none_keeps_range (job_id status current_step : string)
    (results : pyval) (error : option string) :
  keeps writes_in_range
        (_update_job job_id status None current_step results error).
Proof. intros w Hw. unfold _update_job. by destruct (jobs w !! job_id). Qed.

Lemma keeps_bind_div {B} (I : World → Prop) (a d : Q) (k : Q → M B) :
  keeps I (k (a / d)%Q) → keeps I (lift (py_div a d) ≫= k).
Proof.
  intros Hk w Hw. unfold mbind, M_bind, lift.
  destruct (py_div a d) as [ratio|e] eqn:Ediv; [|done].
  apply py_div_ok in Ediv as ->. by apply Hk.
Qed.

Lemma fixed_step_keeps_range (job_id : string) (p : Q) (current_step : string) :
  py_round p 1 = p → (10 <= p)%Q → (p <= 90)%Q →
  str_prefix "Parsing emails... " current_step = false →
  str_prefix "AI processing... " current_step = false →
  keeps writes_in_range
        (_update_job job_id "running" (Some p) current_step VNone None).
Proof.
  intros Hp Hlo Hhi Hparse Hai. apply update_keeps_range. rewrite Hp.
  split_and!; [lra|lra|intros _; by split|rewrite Hparse; by intros [=]
              |rewrite Hai; by intros [=]].
Qed.

Lemma parse_loop_keeps_range (job_id : string) (n i : nat) (emails : list pyval)
    (parsed : list Email) :
  (i + length emails = n)%nat →
  keeps writes_in_range (parse_loop job_id n i emails parsed).
Proof.
  revert i parsed. induction emails as [|email rest IH]; intros i parsed Hn.
  - apply triple_ret.
  - simpl in Hn. cbn [parse_loop].
    apply keeps_bind; [apply triple_lift|intros parsed_email].
    apply keeps_bind; [|intros _; apply IH; lia].
    destruct (i mod 10 =? 0)%nat; [|apply triple_ret].
    apply keeps_bind_div.
    pose proof (parse_progress_range n i ltac:(lia)) as [Hlo Hhi].
    unfold parse_progress in *.
    apply update_keeps_range.
    split_and!; [lra|lra|intros _; split; lra|intros _; by split|other_step].
Qed.

Lemma collect_results_keeps_range (job_id : string)
    (batch_results : list (result (list pyval))) (data : list pyval) :
  keeps writes_in_range (collect_results job_id batch_results data).
Proof.
  revert data. induction batch_results as [|[r|e] rest IH]; intros data; simpl.
  - apply triple_ret.
  - apply IH.
  - apply keeps_bind; [apply update_none_keeps_range|intros _; apply IH].
Qed.

Lemma chunk_loop_keeps_range (job_id : string) (nb nr c : nat)
    (chunked : list (list (nat * list Email))) (data : list pyval) :
  keeps writes_in_range (chunk_loop job_id nb nr c chunked data).
Proof.
  revert c data. induction chunked as [|chunk rest IH]; intros c data.
  - apply triple_ret.
  - cbn [chunk_loop].
    apply keeps_bind; [apply collect_results_keeps_range|intros data'].
    apply keeps_bind_div.
    apply keeps_bind; [|intros _; apply IH].
    pose proof (chunk_progress_range nb nr c) as [Hlo Hhi].
    unfold chunk_progress, processed_after in *.
    apply update_keeps_range.
    split_and!; [lra|lra|intros _; split; lra|other_step|intros _; by split].
Qed.

(** X4. Every record the background task writes has a progress between 0
    and 100, and between 10 and 90 while its status is [running]; the
    records the parsing loop writes (step "Parsing emails... i/n") have a
    progress within 20 and 50 and those the extraction loop writes (step
    "AI processing... k/n emails ...") within 60 and 90, whatever the
    numbers of emails and batches. *)
Theorem written_progress_in_range (job_id : string) (w : World) :
  Forall (λ ev : string * Job,
            in_range (status ev.2) (current_step ev.2) (progress ev.2))
         (history w) →
  Forall (λ ev : string * Job,
            in_range (status ev.2) (current_step ev.2) (progress ev.2))
         (history (_process_emails_async job_id w).2).
Proof.
  intros Hw.
  assert (keeps writes_in_range (pipeline job_id)) as Hpipe.
  { unfold pipeline.
    apply keeps_bind; [by apply fixed_step_keeps_range|intros _].
    apply keeps_bind; [apply triple_lift|intros emails].
    apply keeps_bind; [by apply fixed_step_keeps_range|intros _].
    apply keeps_bind; [by apply parse_loop_keeps_range|intros parsed_emails].
    apply keeps_bind; [by apply fixed_step_keeps_range|intros _].
    apply keeps_bind; [apply triple_lift|intros classified].
    apply keeps_bind; [apply triple_lift|intros stats].
    apply keeps_bind; [by apply fixed_step_keeps_range|intros _].
    apply keeps_bind; [apply chunk_loop_keeps_range|intros extracted_data].
    apply keeps_bind; [by apply fixed_step_keeps_range|intros _].
    apply keeps_bind; [apply triple_lift|intros analytics].
    apply keeps_bind; [by intros ? ?|intros completed_at].
    apply update_keeps_range. split_and!; [done|done|done|other_step|other_step]. }
  specialize (Hpipe w Hw). unfold _process_emails_async.
  destruct (pipeline job_id w) as [[[]|e] w1]; cbn [snd] in *; [done|].
  apply (update_keeps_range job_id "failed" 0); [|done].
  split_and!; [done|done|done|other_step|other_step].
Qed.

(** *** Cleaning up, and the stream on any sequence of states *)

(** X5. [cleanup_old_jobs] removes exactly the jobs that are both older than
    the cutoff and finished, and leaves every other record as it is: a job
    that is still starting or running is never removed, however old, and no
    job started at or after the cutoff is removed, whatever its status. *)
Theorem cleanup_removes_old_finished (max_age_hours : Z) (w : World)
    (job_id : string) (job : Job) :
  let cutoff_time := (timestamp (clock w) - inject_Z max_age_hours * 3600)%Q in
  get_job_status (cleanup_old_jobs max_age_hours w).2 job_id = Some job
  ↔ get_job_status w job_id = Some job ∧
    ((cutoff_time <= fromisoformat (start_time job))%Q ∨
     status job ∉ ["completed"; "failed"]).
Proof.
  intros cutoff_time. unfold get_job_status, cleanup_old_jobs. cbn [snd jobs].
  rewrite map_lookup_filter_Some. cbn [snd]. fold cutoff_time.
  apply and_iff_compat_l.
  destruct (Qlt_le_dec (fromisoformat (start_time job)) cutoff_time) as [Hlt|Hle].
  - unfold is_terminal. rewrite bool_decide_eq_false. split; [by right|].
    intros [Hle|Hst]; [|done]. by apply Qle_not_lt in Hle.
  - split; [by left|done].
Qed.

Definition is_payload (item : stream_item) : bool :=
  match item with
  | Snapshot _ _ _ _ => false
  | ResultsPayload _ | ErrorPayload _ => true
  end.

(** The items are snapshots of records found under [job_id] at the polls, at
    most one per turn, then at most one payload, after which the generator
    has finished. *)
Definition stream_shape (job_id : string) (turns : list Turn)
    (out : list stream_item * bool) : Prop :=
  ∃ seen closing,
    out.1 = map (λ job, Snapshot (status job) (progress job) (current_step job)
                          (updated_at job)) seen ++ closing ∧
    length seen ≤ length turns ∧
    Forall (λ job, ∃ turn, turn ∈ turns ∧
                           get_job_status (at_poll turn) job_id = Some job) seen ∧
    (closing = [] ∨
     ∃ item, closing = [item] ∧ is_payload item = true ∧ out.2 = true).

Lemma stream_from_shape (job_id : string) (last : Q) (turns : list Turn) :
  stream_shape job_id turns (stream_from job_id last turns).
Proof.
  revert last. induction turns as [|turn later IH]; intros last.
  { exists [], []. cbn. split_and!; [done|done|constructor|by left]. }
  cbn [stream_from].
  destruct (get_job_status (at_poll turn) job_id) as [job|] eqn:Hjob.
  2:{ exists [], [job_not_found]. cbn. split_and!; [done|lia|constructor|].
      right. by exists job_not_found. }
  assert (∃ t, t ∈ turn :: later ∧ get_job_status (at_poll t) job_id = Some job)
    as Hin.
  { exists turn. split; [left|done]. }
  assert (closing_ok : ∀ j : Job,
            let closing :=
              if String.eqb (status j) "completed" && truthy (results j)
              then [ResultsPayload (results j)]
              else if String.eqb (status j) "failed"
                   then [ErrorPayload (error j)] else [] in
            closing = [] ∨
            ∃ item, closing = [item] ∧ is_payload item = true ∧ true = true).
  { intros j.
    destruct (String.eqb (status j) "completed" && truthy (results j));
      [right; by eexists|].
    destruct (String.eqb (status j) "failed"); [right; by eexists|by left]. }
  destruct (Qeq_bool (progress job) last) eqn:Hsame; cbn [negb].
  - destruct (is_terminal job).
    + eexists [], _. cbn [map app fst snd length].
      split_and!; [done|lia|constructor|exact (closing_ok job)].
    + specialize (IH last).
      destruct (stream_from job_id last later) as [items finished].
      destruct IH as (seen & closing & Hitems & Hlen & Hseen & Hclose).
      exists seen, closing. cbn [fst snd app length] in *.
      split_and!; [done|lia| |done].
      eapply Forall_impl; [exact Hseen|]. intros j (t & Ht & Hj).
      exists t. split; [by right|done].
  - destruct (is_terminal (after_yield turn)).
    + eexists [job], _. cbn [map app fst snd length].
      split_and!; [done|lia|apply Forall_singleton, Hin
                  |exact (closing_ok (after_yield turn))].
    + specialize (IH (progress (after_yield turn))).
      destruct (stream_from job_id (progress (after_yield turn)) later)
        as [items finished].
      destruct IH as (seen & closing & Hitems & Hlen & Hseen & Hclose).
      exists (job :: seen), closing. cbn [fst snd app map length] in *.
      split_and!; [by rewrite Hitems|lia| |done].
      constructor; [done|].
      eapply Forall_impl; [exact Hseen|]. intros j (t & Ht & Hj).
      exists t. split; [by right|done].
Qed.

(** X6. Whatever the job dictionary does while a client listens, between
    the turns of the loop and while the generator is suspended at a yield,
    the stream consists of snapshots (status, progress, step, time of the
    update) of records found under the job id at the polls, at most one per
    turn, followed by at most one payload (results or error); after a
    payload the generator has finished. *)
Theorem job_stream_shape (job_id : string) (turns : list Turn) :
  ∃ seen closing,
    (get_job_stream job_id turns).1
      = map (λ job, Snapshot (status job) (progress job) (current_step job)
                      (updated_at job)) seen ++ closing ∧
    length seen ≤ length turns ∧
    Forall (λ job, ∃ turn, turn ∈ turns ∧
                           get_job_status (at_poll turn) job_id = Some job) seen ∧
    (closing = [] ∨
     ∃ item, closing = [item] ∧ is_payload item = true ∧
             (get_job_stream job_id turns).2 = true).
Proof. apply stream_from_shape. Qed.

(** X7. A job that is gone from the dictionary when the loop polls again:
    whatever the turns before sent, as long as they did not end the stream,
    the stream sends after them the error "Job not found" and ends. *)
Theorem job_stream_of_removed_job (job_id : string) (turns : list Turn)
    (items : list stream_item) (gone : Turn) (later : list Turn) :
  get_job_stream job_id turns = (items, false) →
  get_job_status (at_poll gone) job_id = None →
  get_job_stream job_id (turns ++ gone :: later)
  = (items ++ [ErrorPayload (Some "Job not found")], true).
Proof.
  unfold get_job_stream. generalize (-1)%Q as last. intros last Hwait Hgone.
  revert last items Hwait. induction turns as [|turn turns IH]; intros last items.
  - cbn [app stream_from]. intros [= <-]. by rewrite Hgone.
  - cbn [app stream_from].
    destruct (get_job_status (at_poll turn) job_id) as [job|]; [|done].
    match goal with
    | |- context [is_terminal ?j] => destruct (is_terminal j); [done|]
    end.
    match goal with
    | |- context [stream_from job_id ?l turns] =>
        specialize (IH l); destruct (stream_from job_id l turns) as [sent fin]
    end.
    intros [= <- ->]. rewrite (IH sent eq_refl). by rewrite app_assoc.
Qed.

(** X8. A client that polls a job right after [start_processing_job], is
    resumed from that first snapshot while the background task is still
    running, and polls next only after the task has ended.  It receives the
    starting snapshot (progress 0); then a snapshot of the final record
    unless the final progress (100 completed, 0 failed) is the progress the
    record had when the generator was resumed; then the results of a
    completed job or the error of a failed one, and the end.  So a job that
    fails while the record still has progress 0 sends the error alone,
    without a snapshot of the failure. *)
Theorem started_job_stream (job_id : string) (w : World) (resumed : Job)
    (later : list Turn) :
  let w1 := (start_processing_job job_id w).2 in
  let w2 := (_process_emails_async job_id w1).2 in
  is_terminal resumed = false →
  ∃ final,
    get_job_status w2 job_id = Some final ∧
    let turns := {| at_poll := w1; after_yield := resumed |}
                 :: {| at_poll := w2; after_yield := final |} :: later in
    ((status final = "completed" ∧
      get_job_stream job_id turns
      = (Snapshot "starting" 0 "Initializing..." None
         :: (if Qeq_bool 100 (progress resumed) then []
             else [Snapshot "completed" 100 (current_step final) (updated_at final)])
         ++ [ResultsPayload (results final)], true)) ∨
     (status final = "failed" ∧
      get_job_stream job_id turns
      = (Snapshot "starting" 0 "Initializing..." None
         :: (if Qeq_bool 0 (progress resumed) then []
             else [Snapshot "failed" 0 (current_step final) (updated_at final)])
         ++ [ErrorPayload (error final)], true))).
Proof.
  intros w1 w2 Hresumed. unfold get_job_stream.
  set (job0 := {| status := "starting"; progress := 0; total := 0;
                  current_step := "Initializing...";
                  start_time := isoformat (clock w);
                  updated_at := None; results := VNone; error := None |}).
  assert (jobs w1 !! job_id = Some job0) as Hjob0.
  { subst w1. unfold start_processing_job. cbn [snd jobs].
    by rewrite lookup_insert_eq. }
  assert (∃ final,
            jobs w2 !! job_id = Some final ∧
            ((status final = "completed" ∧ progress final = 100%Q ∧
              truthy (results final) = true) ∨
             (status final = "failed" ∧ progress final = 0%Q))) as Hend.
  { assert (steady job_id job0 w1) as Hw by by exists job0.
    apply pipeline_ends in Hw. subst w2. unfold _process_emails_async.
    destruct (pipeline job_id w1) as [[[]|e] w']; cbn [fst snd] in Hw |- *.
    - destruct Hw as (job' & Hjob' & Hst & Hp & Hres & _).
      exists job'. split; [done|]. by left.
    - destruct Hw as (job1 & Hjob1 & _).
      rewrite (update_job_written w' job1 job_id "failed" 0
                 ("Error: " +:+ exn_str e) VNone (Some (exn_str e)) Hjob1).
      cbn [snd jobs]. rewrite lookup_insert_eq. eexists. split; [done|].
      by right. }
  clearbody w1 w2. destruct Hend as (final & Hfinal & Hcases).
  exists final. split; [done|]. cbn zeta.
  rewrite (stream_from_overtaken job_id _ job0 _ (-1)); [|done|done|done].
  cbn [after_yield stream_from at_poll]. unfold get_job_status. rewrite Hfinal.
  change (progress job0) with 0%Q. change (status job0) with "starting".
  change (current_step job0) with "Initializing...".
  change (updated_at job0) with (@None string).
  unfold is_terminal, snapshot_of.
  destruct Hcases as [(Hst & Hp & Hres)|(Hst & Hp)]; rewrite !Hp.
  - left. split; [done|].
    destruct (Qeq_bool 100 (progress resumed)); cbn [negb];
      rewrite ?Hst, ?Hp, ?Hres; by cbn.
  - right. split; [done|].
    destruct (Qeq_bool 0 (progress resumed)); cbn [negb];
      rewrite ?Hst, ?Hp; by cbn.
Qed.

(** *** The batches *)

(** The list [batches] of the source: each batch with the index of its first
    email in [relevant_emails]. *)
Definition batches_of (relevant_emails : list Email) : list (nat * list Email) :=
  imap (λ k batch, ((k * batch_size)%nat, batch)) (chunks batch_size relevant_emails).

Lemma chunks_upto_lookup {A} (fuel n k : nat) (l c : list A) :
  (0 < n)%nat →
  chunks_upto fuel n l !! k = Some c →
  c = take n (drop (k * n) l) ∧ (1 ≤ length c ≤ n)%nat.
Proof.
  intros Hn. revert l k. induction fuel as [|fuel IH]; intros l k.
  { by destruct l. }
  destruct l as [|a l]; [done|]. cbn [chunks_upto].
  destruct k as [|k].
  - intros [= <-]. split; [done|]. rewrite length_take. cbn [length]. lia.
  - cbn [lookup list_lookup]. intros Hc%IH. destruct Hc as [-> Hlen].
    split; [|done]. rewrite drop_drop. by do 2 f_equal.
Qed.

(** X9. The batches handed to the extractor cut the relevant emails into
    consecutive slices: batch number [k] carries the index [5 k] and is the
    slice of at most five emails starting there, never empty; put end to end
    the batches give back the relevant emails, each once and in order; and
    the chunks run concurrently hold between one and three batches each, all
    of them, in order. *)
Theorem batches_cover_relevant (relevant_emails : list Email) :
  let batches := batches_of relevant_emails in
  concat (map snd batches) = relevant_emails ∧
  (∀ k b, batches !! k = Some b →
     b.1 = (k * 5)%nat ∧
     b.2 = take 5 (drop b.1 relevant_emails) ∧
     (1 ≤ length b.2 ≤ 5)%nat) ∧
  concat (chunks max_concurrent_batches batches) = batches ∧
  Forall (λ chunk_batches : list (nat * list Email),
            (1 ≤ length chunk_batches ≤ 3)%nat)
         (chunks max_concurrent_batches batches).
Proof.
  intros batches. split_and!.
  - subst batches. unfold batches_of.
    rewrite <- (concat_chunks batch_size relevant_emails) at 2
      by (unfold batch_size; lia).
    f_equal. generalize (chunks batch_size relevant_emails) as l.
    intros l. apply list_eq. intros i.
    rewrite list_lookup_fmap, list_lookup_imap. by destruct (l !! i).
  - intros k b. subst batches. unfold batches_of. rewrite list_lookup_imap.
    destruct (chunks batch_size relevant_emails !! k) as [c|] eqn:Hc; [|done].
    intros [= <-]. cbn [fst snd].
    apply chunks_upto_lookup in Hc as [-> Hlen]; [|unfold batch_size; lia].
    by unfold batch_size in *.
  - apply concat_chunks. unfold max_concurrent_batches. lia.
  - apply Forall_lookup. intros i c Hc.
    apply chunks_upto_lookup in Hc as [_ Hlen];
      [|unfold max_concurrent_batches; lia].
    by unfold max_concurrent_batches in *.
Qed.

End WithEnvironment.

End Processor.

(** * Worked runs

    A small runtime, two emails and two extractors, on which the statements
    above are exercised. *)

Module Scenarios.

Import Classifier Processor.

(** The floats of the scenarios are binary64. *)
#[local] Existing Instance binary64.

Definition lower_char (c : Ascii.ascii) : Ascii.ascii :=
  let n := Ascii.nat_of_ascii c in
  if ((65 <=? n) && (n <=? 90))%nat then Ascii.ascii_of_nat (n + 32) else c.

Fixpoint lower_ascii (s : string) : string :=
  match s with
  | EmptyString => EmptyString
  | String c s' => String (lower_char c) (lower_ascii s')
  end.

(** A runtime that knows two rules of the classifier by their keywords (the
    first exclude rule and the "card ending" rule) and finds the amount
    "0.50" after "rs" for the two amount patterns that start with the
    currency group. *)
Definition demo_runtime : PyRuntime := {|
  str_lower := lower_ascii;
  re_search := λ pattern s,
    (String.eqb pattern
       "\b(newsletter|unsubscribe|promotional|marketing|advertisement)\b"
     && existsb (λ kw, str_in kw s)
          ["newsletter"; "unsubscribe"; "promotional"; "marketing"; "advertisement"])
    || (String.eqb pattern "\b(card ending|card.*\d{4}|xxxx\d{4}|\*{4}\d{4})\b"
        && str_in "card ending" s);
  re_search_group1 := λ _ _, None;
  re_findall := λ ignorecase pattern s,
    if ignorecase && str_prefix "(?:" pattern && str_in "rs 0.50" s
    then ["0.50"] else [];
  py_float := λ s, if String.eqb s "0.50" then Some (1 # 2)%Q else None;
|}.

Definition promo : Email := {|
  msg_id := "m1"; internalDate := "1724140800000";
  from := "deals@shop.example";
  subject := "Unsubscribe any time";
  bodyText := "Card ending 4532 charged rs 499 at the mega store" |}.

Definition tiny_charge : Email := {|
  msg_id := "m2"; internalDate := "1724140800001";
  from := "alerts@swiggy.in";
  subject := "Card ending 4532 charged";
  bodyText := "rs 0.50 paid for your order" |}.

Definition today : string := "2025-08-20".

Definition iso (n : nat) : string := "2025-08-20T10:00:" +:+ pretty n.

(** The extractor without a model. *)
Definition no_ai : list Email → Z → result (list pyval) :=
  @Extractor.extract_insights_batch demo_runtime None today.

(** A model whose group call runs into its quota and whose per-email
    answers come back as a JSON array around the object. *)
Definition array_reply_model : Extractor.AIModel := {|
  Extractor.generate_single := λ _ _ _,
    Ok (VList [VDict [("transaction", VNone); ("is_relevant", VBool false)]]);
  Extractor.generate_batch := λ _, Raise (Exn "ResourceExhausted" "quota exceeded");
|}.

Definition broken_ai : list Email → Z → result (list pyval) :=
  @Extractor.extract_insights_batch demo_runtime (Some array_reply_model) today.

Definition raw_emails : list pyval :=
  [VDict [("id", VStr "m1")]; VDict [("id", VStr "m2")]].

Definition demo_collab (extract : list Email → Z → result (list pyval))
  : Collaborators := {|
  fetch_emails_last_6_months := Ok raw_emails;
  parse_email := λ raw,
    id ← py_get raw "id" (VStr "");
    Ok (if py_eq_str id "m1" then promo else tiny_charge);
  classify_emails_batch := λ emails,
    Ok (@Classifier.classify_emails_batch demo_runtime emails);
  get_classification_stats := λ c, Ok (Classifier.get_classification_stats c);
  extract_insights_batch := extract;
  generate_comprehensive_insights := λ data,
    Ok (Analytics.generate_comprehensive_insights
          (λ _, Ok VNone) (λ _, Ok VNone) (λ _, Ok VNone) (λ _, Ok VNone)
          (λ _, Ok VNone) "2025-08-20 10:00:00" data);
|}.

(** Seconds since the start for the n-th reading of the clock, and start
    times read back as the start itself. *)
Definition timestamp_of_clock (n : nat) : Q := Qnat n.
Definition parse_clock (s : string) : Q := 0.

Definition fresh : World := {| jobs := ∅; clock := 0; history := [] |}.

Definition started : World := (start_processing_job iso "job-1" fresh).2.

Definition finished (extract : list Email → Z → result (list pyval)) : World :=
  (_process_emails_async iso (demo_collab extract) "job-1" started).2.

(** The record [start_processing_job] creates under "job-1". *)
Definition starting_job : Job := {|
  status := "starting"; progress := 0; total := 0;
  current_step := "Initializing..."; start_time := iso 0;
  updated_at := None; results := VNone; error := None |}.

(** The record of "job-1" in [w]. *)
Definition job_in (w : World) : Job := default starting_job (jobs w !! "job-1").

(** A turn of the stream's loop in which the record is left alone while the
    generator is suspended. *)
Definition still (w : World) : Turn := {| at_poll := w; after_yield := job_in w |}.

(** The job at progress 60, as the stream may find it. *)
Definition halfway : World :=
  (_update_job iso "job-1" "running" (Some 60%Q)
     "Processing 1 financial emails with AI... (Skipped 1 irrelevant emails)"
     VNone None started).2.

(** Status and progress of every write, oldest first. *)
Definition trace (w : World) : list (string * Q) :=
  map (λ ev : string * Job, (status ev.2, progress ev.2)) (history w).

Example classify_both :
  Classifier.classify_emails_batch (H := demo_runtime) [promo; tiny_charge]
  = {| definitely_financial := [tiny_charge]; maybe_financial := [];
       probably_not := [promo] |}.
Proof. reflexivity. Qed.

Example run_without_model :
  trace (finished no_ai)
  = [("running", 10%Q); ("running", 20%Q); ("running", 20%Q); ("running", 50%Q);
     ("running", 60%Q); ("running", 90%Q); ("running", 90%Q); ("completed", 100%Q)].
Proof. vm_compute. reflexivity. Qed.

Example run_with_failing_batch :
  trace (finished broken_ai)
  = [("running", 10%Q); ("running", 20%Q); ("running", 20%Q); ("running", 50%Q);
     ("running", 60%Q); ("failed", 0%Q)].
Proof. vm_compute. reflexivity. Qed.

Example stream_of_failed_run :
  get_job_stream "job-1" [still started; still (finished broken_ai); still fresh]
  = ([Snapshot "starting" 0 "Initializing..." None;
      ErrorPayload (Some "type NoneType doesn't define __round__ method")],
     true).
Proof. vm_compute. reflexivity. Qed.

(** The background task writes 10 while the starting snapshot is sent and
    fails before the next poll: two snapshots with progress 0 in a row. *)
Example stream_repeats_progress :
  get_job_stream "job-1"
    [{| at_poll := started;
        after_yield := updated iso starting_job 1 "running" 10 "Fetching" VNone None |};
     still (finished broken_ai)]
  = ([Snapshot "starting" 0 "Initializing..." None;
      Snapshot "failed" 0
        "Error: type NoneType doesn't define __round__ method"
        (Some (iso 6));
      ErrorPayload (Some "type NoneType doesn't define __round__ method")],
     true).
Proof. vm_compute. reflexivity. Qed.

(** The promotional email also matches the "card ending" rule; the exclude
    rule decides. *)
Lemma exclude_pattern_wins_witness :
  any_pattern_matches (H := demo_runtime) definitely_financial_patterns
    (normalized_text (H := demo_runtime) promo) = true ∧
  classify_email (H := demo_runtime) promo = PROBABLY_NOT_FINANCIAL.
Proof.
  split; [reflexivity|].
  apply (exclude_pattern_wins (H := demo_runtime) promo
           "\b(newsletter|unsubscribe|promotional|marketing|advertisement)\b").
  - repeat constructor.
  - reflexivity.
Defined.

(** An email with a merchant and an amount of 0.50: no transaction. *)
Lemma fallback_amount_range_witness :
  Extractor._extract_clean_merchant (H := demo_runtime)
    (from tiny_charge) (subject tiny_charge) = Some "Swiggy" ∧
  Extractor._extract_amount (H := demo_runtime)
    (lower_ascii (subject tiny_charge +:+ " " +:+ bodyText tiny_charge)) = None ∧
  assoc_get
    (Extractor._fallback_extraction (H := demo_runtime) today
       (bodyText tiny_charge) (from tiny_charge) (subject tiny_charge))
    "transaction" = Some VNone.
Proof.
  split; [reflexivity|].
  apply (proj2 (Extractor.fallback_amount_range (H := demo_runtime) today
                  (bodyText tiny_charge) (from tiny_charge) (subject tiny_charge))).
  intros pattern found amount _ Hfound Hfloat [Hlow _].
  cbn [re_findall demo_runtime] in Hfound.
  destruct (_ && _ && _) in Hfound; [|by apply elem_of_nil in Hfound].
  apply list_elem_of_singleton in Hfound as ->.
  vm_compute in Hfloat. injection Hfloat as <-.
  vm_compute in Hlow. by apply Hlow.
Defined.

Lemma extract_insights_batch_non_object_reply_witness :
  broken_ai [promo; tiny_charge] 5
  = Raise (TypeError "list indices must be integers or slices, not str") ∧
  is_ok (broken_ai [promo; tiny_charge] 5) = false.
Proof.
  split; [reflexivity|].
  apply (Extractor.extract_insights_batch_non_object_reply (H := demo_runtime) today
           array_reply_model promo [tiny_charge] 5).
  - reflexivity.
  - reflexivity.
  - intros content sender subj. eexists. split; [reflexivity|]. discriminate.
Defined.

Lemma running_progress_nondecreasing_witness :
  running_progress "job-1" (history started) = [] ∧
  Sorted Qle (running_progress "job-1" (history (finished no_ai))).
Proof.
  split; [reflexivity|].
  apply (running_progress_nondecreasing iso (demo_collab no_ai) "job-1" started).
  reflexivity.
Defined.

Lemma failing_batch_fails_job_witness :
  ∃ job',
    jobs (finished broken_ai) !! "job-1" = Some job' ∧
    status job' = "failed" ∧
    progress job' = 0%Q ∧
    error job' = Some "type NoneType doesn't define __round__ method" ∧
    results job' = VNone.
Proof.
  apply (failing_batch_fails_job iso (demo_collab broken_ai) "job-1" started
           {| status := "starting"; progress := 0; total := 0;
              current_step := "Initializing..."; start_time := iso 0;
              updated_at := None; results := VNone; error := None |}
           raw_emails [promo; tiny_charge]
           (@Classifier.classify_emails_batch demo_runtime [promo; tiny_charge])
           (Classifier.get_classification_stats
              (@Classifier.classify_emails_batch demo_runtime [promo; tiny_charge])));
    try reflexivity.
  apply Exists_cons_hd. reflexivity.
Defined.

Lemma update_job_unknown_id_witness :
  jobs fresh !! "job-9" = None ∧
  _update_job iso "job-9" "running" None "Warning: Batch processing error - x"
    VNone None fresh = (Ok (), fresh).
Proof.
  split; [reflexivity|].
  apply (proj1 (update_job_unknown_id iso timestamp_of_clock parse_clock
                  (demo_collab no_ai) fresh "job-9" "running" None
                  "Warning: Batch processing error - x" VNone None)).
  reflexivity.
Defined.

(** The job is polled at progress 60 and completes while that snapshot is
    sent: the results follow, and no snapshot with progress 100. *)
Lemma job_stream_contract_witness :
  get_job_stream "job-1"
    [{| at_poll := halfway; after_yield := job_in (finished no_ai) |}]
  = ([Snapshot "running" 60
        "Processing 1 financial emails with AI... (Skipped 1 irrelevant emails)"
        (Some (iso 1));
      ResultsPayload (results (job_in (finished no_ai)))],
     true) ∧
  progress (job_in (finished no_ai)) = 100%Q.
Proof.
  split; [|reflexivity].
  apply (proj2 (proj2 (proj2 (proj2 (job_stream_contract "job-1"))))
           {| at_poll := halfway; after_yield := job_in (finished no_ai) |}
           (job_in halfway) (job_in (finished no_ai)) []); reflexivity.
Defined.

(** ** Further runs *)

(** Gmail refuses the token: fetching raises. *)
Definition offline_collab : Collaborators := {|
  fetch_emails_last_6_months := Raise (Exn "HttpError" "401 Unauthorized");
  parse_email := parse_email (demo_collab no_ai);
  classify_emails_batch := classify_emails_batch (demo_collab no_ai);
  get_classification_stats := get_classification_stats (demo_collab no_ai);
  extract_insights_batch := no_ai;
  generate_comprehensive_insights :=
    generate_comprehensive_insights (demo_collab no_ai);
|}.

Definition demo_classified : Classified :=
  Classifier.classify_emails_batch (H := demo_runtime) [promo; tiny_charge].

Definition demo_stats : Stats := Classifier.get_classification_stats demo_classified.

(** The output of the only batch of the run without a model. *)
Definition demo_outs : list (list pyval) :=
  [[Extractor.fallback_record (H := demo_runtime) today tiny_charge]].

Definition demo_analytics : pyval :=
  Analytics.generate_comprehensive_insights
    (λ _, Ok VNone) (λ _, Ok VNone) (λ _, Ok VNone) (λ _, Ok VNone)
    (λ _, Ok VNone) "2025-08-20 10:00:00" (concat demo_outs).

(** A model that answers a group of two emails with a single object. *)
Definition short_reply_model : Extractor.AIModel := {|
  Extractor.generate_single := λ _ _ _, Raise (Exn "ResourceExhausted" "quota exceeded");
  Extractor.generate_batch := λ _, Ok (VList [VDict [("is_relevant", VBool true)]]);
|}.

(** Bodies of rupee signs: each sign is one character and three bytes. *)
Definition rupees (n : nat) : string := String.concat "" (replicate n "₹").

Definition long_body : string := rupees 200.

Definition long_email : Email := {|
  msg_id := "m3"; internalDate := "1724140800002";
  from := "alerts@bank.example"; subject := "Card ending 4532";
  bodyText := long_body |}.

Definition short_email (tail : string) : Email := {|
  msg_id := "m4"; internalDate := "1724140800003";
  from := "alerts@bank.example"; subject := "Card ending 4532";
  bodyText := rupees 70 +:+ tail |}.

(** Extracted records: one relevant with a transaction, one not relevant. *)
Definition two_records : list pyval := [
  VDict [("transaction", VDict [("amount", VInt 5)]); ("is_relevant", VBool true)];
  VDict [("transaction", VNone); ("is_relevant", VBool false)]].

Lemma run_ends_terminal_witness :
  ∃ job',
    jobs (finished no_ai) !! "job-1" = Some job' ∧
    start_time job' = start_time starting_job ∧ total job' = total starting_job ∧
    ((status job' = "completed" ∧ progress job' = 100%Q ∧
      truthy (results job') = true ∧ error job' = error starting_job) ∨
     (status job' = "failed" ∧ progress job' = 0%Q ∧
      results job' = results starting_job)).
Proof.
  apply (run_ends_terminal iso (demo_collab no_ai) "job-1" started starting_job).
  reflexivity.
Defined.

Lemma fetch_failure_fails_job_witness :
  ∃ first job',
    let w' := (_process_emails_async iso offline_collab "job-1" started).2 in
    jobs w' !! "job-1" = Some job' ∧
    history w' = history started ++ [("job-1", first); ("job-1", job')] ∧
    status first = "running" ∧ progress first = 10%Q ∧
    status job' = "failed" ∧ progress job' = 0%Q ∧
    current_step job' = "Error: " +:+ "401 Unauthorized" ∧
    error job' = Some "401 Unauthorized" ∧
    results job' = results starting_job.
Proof.
  apply (fetch_failure_fails_job iso offline_collab "job-1" started starting_job
           (Exn "HttpError" "401 Unauthorized")); reflexivity.
Defined.

Lemma run_without_failure_completes_witness :
  ∃ job' completed_at,
    jobs (finished no_ai) !! "job-1" = Some job' ∧
    status job' = "completed" ∧ progress job' = 100%Q ∧
    current_step job' = "Processing completed successfully!" ∧
    error job' = error starting_job ∧
    results job' = VDict [
      ("analytics", demo_analytics);
      ("classification_stats", stats_dict demo_stats);
      ("extracted_insights", VList (concat demo_outs));
      ("metadata", VDict [
         ("total_emails_fetched", VInt (length raw_emails));
         ("financial_emails_processed",
          VInt (length (definitely_financial demo_classified
                        ++ maybe_financial demo_classified)));
         ("ai_processing_reduction", VNum (ai_processing_reduction demo_stats));
         ("processing_completed_at", VStr completed_at)])].
Proof.
  apply (run_without_failure_completes iso (demo_collab no_ai) "job-1" started
           starting_job raw_emails [promo; tiny_charge] demo_classified demo_stats
           demo_outs demo_analytics); try reflexivity.
  constructor; [reflexivity|constructor].
Defined.

Lemma written_progress_in_range_witness :
  history started = [] ∧
  Forall (λ ev : string * Job, progress_in_range ev.2) (history (finished no_ai)).
Proof.
  split; [reflexivity|].
  apply (written_progress_in_range iso (demo_collab no_ai) "job-1" started).
  constructor.
Defined.

(** The job is removed between two turns of the loop. *)
Lemma job_stream_of_removed_job_witness :
  get_job_stream "job-1" ([still started] ++ still fresh :: [])
  = ([Snapshot "starting" 0 "Initializing..." None]
     ++ [ErrorPayload (Some "Job not found")], true).
Proof.
  apply (job_stream_of_removed_job "job-1" [still started]
           [Snapshot "starting" 0 "Initializing..." None] (still fresh) []);
    reflexivity.
Defined.

(** The task fails while the record still reads progress 0. *)
Lemma started_job_stream_witness :
  ∃ final,
    get_job_status (finished broken_ai) "job-1" = Some final ∧
    let turns := {| at_poll := started; after_yield := starting_job |}
                 :: {| at_poll := finished broken_ai; after_yield := final |} :: [] in
    ((status final = "completed" ∧
      get_job_stream "job-1" turns
      = (Snapshot "starting" 0 "Initializing..." None
         :: (if Qeq_bool 100 (progress starting_job) then []
             else [Snapshot "completed" 100 (current_step final) (updated_at final)])
         ++ [ResultsPayload (results final)], true)) ∨
     (status final = "failed" ∧
      get_job_stream "job-1" turns
      = (Snapshot "starting" 0 "Initializing..." None
         :: (if Qeq_bool 0 (progress starting_job) then []
             else [Snapshot "failed" 0 (current_step final) (updated_at final)])
         ++ [ErrorPayload (error final)], true))).
Proof.
  apply (started_job_stream iso (demo_collab broken_ai) "job-1" fresh starting_job []).
  reflexivity.
Defined.

(** A body of 70 characters in 210 bytes: what follows it is still within
    the first 200 characters and decides the tier. *)
Example short_body_tail_counts :
  str_len (rupees 70) = 70 ∧ String.length (rupees 70) = 210 ∧
  classify_email (H := demo_runtime) (short_email "") = DEFINITELY_FINANCIAL ∧
  classify_email (H := demo_runtime) (short_email " unsubscribe")
    = PROBABLY_NOT_FINANCIAL.
Proof. repeat split. Qed.

Lemma body_tail_ignored_witness :
  str_len long_body = 200 ∧ String.length long_body = 600 ∧
  classify_email (H := demo_runtime)
    {| msg_id := msg_id long_email; internalDate := internalDate long_email;
       from := from long_email; subject := subject long_email;
       bodyText := bodyText long_email +:+ " unsubscribe" |}
  = classify_email (H := demo_runtime) long_email.
Proof.
  split; [reflexivity|]. split; [reflexivity|].
  apply (body_tail_ignored (H := demo_runtime) long_email " unsubscribe").
  - vm_compute. lia.
  - reflexivity.
Defined.

Lemma batch_reply_mapped_witness :
  Extractor._process_batch_with_ai (H := demo_runtime) (Some short_reply_model) today
    [promo; tiny_charge]
  = Ok (zip_with Extractor.tag_record [promo; tiny_charge]
          [[("is_relevant", VBool true)]] ++
        map (Extractor.fallback_record (H := demo_runtime) today)
          (drop 1 [promo; tiny_charge])).
Proof.
  apply (Extractor.batch_reply_mapped (H := demo_runtime) (Some short_reply_model)
           today short_reply_model [promo; tiny_charge]
           [[("is_relevant", VBool true)]]); reflexivity.
Defined.

Lemma non_object_record_gives_default_witness :
  Analytics.generate_comprehensive_insights
    (λ _, Ok VNone) (λ _, Ok VNone) (λ _, Ok VNone) (λ _, Ok VNone)
    (λ _, Ok VNone) "2025-08-20 10:00:00" (two_records ++ [VList []])
  = Analytics.default_insights 3.
Proof.
  apply (Analytics.non_object_record_gives_default
           (λ _, Ok VNone) (λ _, Ok VNone) (λ _, Ok VNone) (λ _, Ok VNone)
           (λ _, Ok VNone) "2025-08-20 10:00:00" (two_records ++ [VList []])).
  apply Exists_cons_tl, Exists_cons_tl, Exists_cons_hd. intros d. discriminate.
Defined.

Lemma summary_counts_relevant_only_witness :
  ∃ transactions income_entries subscriptions,
    Analytics._generate_summary "2025-08-20 10:00:00" (take 1 two_records)
    = Ok (VDict [
        ("total_emails_analyzed", VInt 1);
        ("financial_emails_found", VInt 1);
        ("transactions_extracted", VInt transactions);
        ("income_entries_found", VInt income_entries);
        ("subscriptions_identified", VInt subscriptions);
        ("analysis_date", VStr "2025-08-20 10:00:00")]) ∧
    List.length (take 1 two_records) ≤ List.length two_records ∧
    transactions ≤ 1 ∧ income_entries ≤ 1 ∧ subscriptions ≤ 1.
Proof.
  apply (Analytics.summary_counts_relevant_only "2025-08-20 10:00:00" two_records
           (take 1 two_records)).
  reflexivity.
Defined.

(** ** Subscription costs in binary64 *)

(** A weekly subscription of 9.5, a yearly one of 2.7, one that names no
    cycle and one billed every quarter. *)
Definition gym : list (string * pyval) :=
  [("service", VStr "Gym"); ("amount", VNum (19 # 2));
   ("billing_cycle", VStr "weekly"); ("next_billing", VNone)].

Definition cloud : list (string * pyval) :=
  [("service", VStr "Cloud"); ("amount", VNum (fl (27 # 10)));
   ("billing_cycle", VStr "yearly"); ("next_billing", VStr "2025-09-01");
   ("charged_to_card", VBool true)].

Definition music : list (string * pyval) :=
  [("amount", VNum 119); ("service", VStr "Music")].

Definition magazine : list (string * pyval) :=
  [("service", VStr "Magazine"); ("amount", VNone);
   ("billing_cycle", VStr "quarterly")].

Definition subscription_records : list pyval := [
  VDict [("transaction", VNone); ("subscription", VDict gym);
         ("is_relevant", VBool true)];
  VDict [("subscription", VDict cloud); ("is_relevant", VBool true)];
  VDict [("subscription", VDict music)];
  VDict [("email_id", VStr "m9"); ("subscription", VDict magazine)]].

(** 9.5 * 4.33 is 41.135 in exact arithmetic and just below it in binary64:
    the report reads 41.13, not 41.14.  Likewise 0.5 weekly reads 2.17 and
    2.7 yearly reads 0.23. *)
Example cents_in_binary64 :
  Analytics.reported [gym] "monthly_recurring_cost" = Some (fl (4113 # 100)) ∧
  Analytics.reported
    [[("service", VStr "Paper"); ("amount", VNum (1 # 2));
      ("billing_cycle", VStr "weekly")]]
    "monthly_recurring_cost" = Some (fl (217 # 100)) ∧
  Analytics.reported [cloud] "monthly_recurring_cost" = Some (fl (23 # 100)).
Proof. repeat split; by vm_compute. Qed.


End Scenarios.
